(** * Deposit amounts of the GM/GLV liquidity engine

    A shallow embedding of [src/domain/synthetics/trade/utils/deposit.ts]
    ([getDepositAmounts] and [getMarketTokenAmountByCollateral]) and the
    properties of the deposit calculator stated in the specification.

    The TypeScript code computes on [bigint] values, some of which are
    [undefined] at run time (the non-null assertion [!] is erased by the
    compiler).  A [bigint] is a [Z]; a value of type [bigint | undefined]
    is an [option Z]; an exception is an [Err] of the [result] monad.

    The development then embeds the decision logic of three components:
    the hooks of [src/context/SubaccountContext/SubaccountContext.tsx],
    [onSubmit] of
    [src/components/Synthetics/Trade/ConfirmationBox/ConfirmationBox.tsx]
    and the order selection of [OrderList] ([src/unnamed/part_002]). *)

From Stdlib Require Import ZArith Bool Lia.
From Stdlib Require Import String List.

Local Open Scope Z_scope.

(** ** Results and exceptions *)

Inductive error : Type :=
| RangeError      (* bigint division by zero *)
| TypeError       (* a bigint mixed with a value that is not a bigint *)
| OutsideContract (* a value that is not a bigint handed to a collaborator
                     declared on bigint whose source is not in this file *).

Inductive result (A : Type) : Type :=
| Ok (a : A)
| Err (e : error).

Arguments Ok {A} a.
Arguments Err {A} e.

Definition bind {A B : Type} (m : result A) (k : A -> result B) : result B :=
  match m with
  | Ok a => k a
  | Err e => Err e
  end.

Notation "x <- m ;; k" := (bind m (fun x => k))
  (at level 61, m at next level, right associativity).

(** ** JavaScript values

    [Some z] is the bigint [z]; [None] is a value that is not a bigint:
    [undefined], or the [NaN] that [undefined + undefined] and the like
    evaluate to.  The two behave alike under every operator the deposit
    code applies to them: a comparison with [0] is false, arithmetic with
    a bigint throws a [TypeError], arithmetic with another such value is
    [NaN]. *)

Definition jsval : Type := option Z.

Module Js.

Definition arith (op : Z -> Z -> Z) (a b : jsval) : result jsval :=
  match a, b with
  | Some x, Some y => Ok (Some (op x y))
  | None, None => Ok None
  | _, _ => Err TypeError
  end.

Definition add : jsval -> jsval -> result jsval := arith Z.add.
Definition sub : jsval -> jsval -> result jsval := arith Z.sub.
Definition mul : jsval -> jsval -> result jsval := arith Z.mul.

(** bigint [/]: truncation toward zero, [RangeError] on a zero divisor. *)
Definition div (a b : jsval) : result jsval :=
  match a, b with
  | Some x, Some y => if y =? 0 then Err RangeError else Ok (Some (Z.quot x y))
  | None, None => Ok None
  | _, _ => Err TypeError
  end.

(** unary minus: [-undefined] is [NaN] *)
Definition neg (a : jsval) : jsval := option_map Z.opp a.

(** [a > 0], [a < 0]: false on a value that is not a bigint *)
Definition gt0 (a : jsval) : bool :=
  match a with Some x => 0 <? x | None => false end.

Definition lt0 (a : jsval) : bool :=
  match a with Some x => x <? 0 | None => false end.

(** [a ?? 0n] *)
Definition orZero (a : jsval) : Z :=
  match a with Some x => x | None => 0 end.

(** an argument of a collaborator declared on bigint *)
Definition arg (a : jsval) : result Z :=
  match a with Some x => Ok x | None => Err OutsideContract end.

End Js.

(** ** Data model *)

Record TokenPrices : Type := mkTokenPrices {
  minPrice : Z;
  maxPrice : Z
}.

Record TokenData : Type := mkTokenData {
  decimals : nat;
  prices : TokenPrices
}.

(** The fields of [MarketInfo] the deposit code and the swap fee read. *)
Record MarketInfo : Type := mkMarketInfo {
  longPoolAmount : Z;
  shortPoolAmount : Z;
  swapFeeFactorForPositiveImpact : Z;
  swapFeeFactorForNegativeImpact : Z
}.

Record GlvMarketInfo : Type := mkGlvMarketInfo {
  indexToken : TokenData
}.

Inductive Strategy : Type := byCollaterals | byMarketToken.

Record DepositAmounts : Type := mkDepositAmounts {
  longTokenAmount : jsval;
  longTokenUsd : jsval;
  shortTokenAmount : jsval;
  shortTokenUsd : jsval;
  marketTokenAmount : jsval;
  marketTokenUsd : jsval;
  swapFeeUsd : jsval;
  uiFeeUsd : jsval;
  swapPriceImpactDeltaUsd : jsval
}.

(** The argument object of [getDepositAmounts]. *)
Module P.
Record t : Type := mk {
  marketInfo : MarketInfo;
  marketToken : TokenData;
  longToken : TokenData;
  shortToken : TokenData;
  longTokenAmount : Z;
  shortTokenAmount : Z;
  marketTokenAmount : Z;
  strategy : Strategy;
  includeLongToken : bool;
  includeShortToken : bool;
  uiFeeFactor : Z;
  forShift : option bool;      (* forShift?: boolean *)
  isMarketTokenDeposit : bool;
  vaultInfo : option GlvMarketInfo
}.

(** [p.forShift] in a condition: an absent flag is falsy *)
Definition shift (p : t) : bool :=
  match forShift p with Some b => b | None => false end.

(** The same call under another UI fee factor. *)
Definition with_uiFeeFactor (p : t) (f : Z) : t :=
  mk (marketInfo p) (marketToken p) (longToken p) (shortToken p)
     (longTokenAmount p) (shortTokenAmount p) (marketTokenAmount p)
     (strategy p) (includeLongToken p) (includeShortToken p) f
     (forShift p) (isMarketTokenDeposit p) (vaultInfo p).

End P.

(** Assignments to the fields of the [values] accumulator. *)
Definition set_longTokenAmount (v : DepositAmounts) (x : jsval) :=
  mkDepositAmounts x (longTokenUsd v) (shortTokenAmount v) (shortTokenUsd v)
    (marketTokenAmount v) (marketTokenUsd v) (swapFeeUsd v) (uiFeeUsd v)
    (swapPriceImpactDeltaUsd v).
Definition set_longTokenUsd (v : DepositAmounts) (x : jsval) :=
  mkDepositAmounts (longTokenAmount v) x (shortTokenAmount v) (shortTokenUsd v)
    (marketTokenAmount v) (marketTokenUsd v) (swapFeeUsd v) (uiFeeUsd v)
    (swapPriceImpactDeltaUsd v).
Definition set_shortTokenAmount (v : DepositAmounts) (x : jsval) :=
  mkDepositAmounts (longTokenAmount v) (longTokenUsd v) x (shortTokenUsd v)
    (marketTokenAmount v) (marketTokenUsd v) (swapFeeUsd v) (uiFeeUsd v)
    (swapPriceImpactDeltaUsd v).
Definition set_shortTokenUsd (v : DepositAmounts) (x : jsval) :=
  mkDepositAmounts (longTokenAmount v) (longTokenUsd v) (shortTokenAmount v) x
    (marketTokenAmount v) (marketTokenUsd v) (swapFeeUsd v) (uiFeeUsd v)
    (swapPriceImpactDeltaUsd v).
Definition set_marketTokenAmount (v : DepositAmounts) (x : jsval) :=
  mkDepositAmounts (longTokenAmount v) (longTokenUsd v) (shortTokenAmount v)
    (shortTokenUsd v) x (marketTokenUsd v) (swapFeeUsd v) (uiFeeUsd v)
    (swapPriceImpactDeltaUsd v).
Definition set_marketTokenUsd (v : DepositAmounts) (x : jsval) :=
  mkDepositAmounts (longTokenAmount v) (longTokenUsd v) (shortTokenAmount v)
    (shortTokenUsd v) (marketTokenAmount v) x (swapFeeUsd v) (uiFeeUsd v)
    (swapPriceImpactDeltaUsd v).
Definition set_swapFeeUsd (v : DepositAmounts) (x : jsval) :=
  mkDepositAmounts (longTokenAmount v) (longTokenUsd v) (shortTokenAmount v)
    (shortTokenUsd v) (marketTokenAmount v) (marketTokenUsd v) x (uiFeeUsd v)
    (swapPriceImpactDeltaUsd v).
Definition set_uiFeeUsd (v : DepositAmounts) (x : jsval) :=
  mkDepositAmounts (longTokenAmount v) (longTokenUsd v) (shortTokenAmount v)
    (shortTokenUsd v) (marketTokenAmount v) (marketTokenUsd v) (swapFeeUsd v) x
    (swapPriceImpactDeltaUsd v).
Definition set_swapPriceImpactDeltaUsd (v : DepositAmounts) (x : jsval) :=
  mkDepositAmounts (longTokenAmount v) (longTokenUsd v) (shortTokenAmount v)
    (shortTokenUsd v) (marketTokenAmount v) (marketTokenUsd v) (swapFeeUsd v)
    (uiFeeUsd v) x.

(** The initial [values] object: every field [0n]. *)
Definition zeroAmounts : DepositAmounts :=
  mkDepositAmounts (Some 0) (Some 0) (Some 0) (Some 0) (Some 0) (Some 0)
    (Some 0) (Some 0) (Some 0).

(** ** Arithmetic and pricing primitives

    [lib/bigmath], [lib/numbers] and [domain/synthetics/tokens] are imported
    by the deposit code; their sources are not part of the files at hand. *)

(** Modelled from the spec: [expandDecimals], the power [10^decimals] of the
    unit conversions ("amount * price / 10^decimals"). *)
Definition expandDecimals (n : Z) (decimals : nat) : Z :=
  n * 10 ^ Z.of_nat decimals.

Module bigMath.
(** Modelled from the spec: [bigMath.mulDiv], "mulDiv(a, b, denominator)
    computing a*b/denominator with full intermediate precision and
    truncating division"; on bigint the division throws on a zero
    denominator. *)
Definition mulDiv (x y z : jsval) : result jsval :=
    xy <- Js.mul x y ;; Js.div xy z.
End bigMath.

(** Modelled from the spec: [getMidPrice], "arithmetic mean of min and max
    price". *)
Definition getMidPrice (p : TokenPrices) : Z :=
  Z.quot (minPrice p + maxPrice p) 2.

(** Modelled from the spec: [convertToUsd], "toUsd(amount, decimals, price) =
    amount * price / 10^decimals", which "fails (returns undefined) when
    price == 0"; an amount that is undefined stays undefined. *)
Definition convertToUsd (tokenAmount : jsval) (tokenDecimals : nat) (price : Z)
  : jsval :=
  match tokenAmount with
  | None => None
  | Some a =>
      if price =? 0 then None
      else Some (Z.quot (a * price) (expandDecimals 1 tokenDecimals))
  end.

(** Modelled from the spec: [convertToTokenAmount], "toTokenAmount(usd,
    decimals, price) = usd * 10^decimals / price", which "fails (returns
    undefined) when price == 0"; a value that is undefined stays
    undefined. *)
Definition convertToTokenAmount (usd : jsval) (tokenDecimals : nat) (price : Z)
  : jsval :=
  match usd with
  | None => None
  | Some u =>
      if price =? 0 then None
      else Some (Z.quot (u * expandDecimals 1 tokenDecimals) price)
  end.

(** The collaborators of [domain/synthetics/fees] and
    [domain/synthetics/markets] whose sources are not at hand, and the
    exponent of the factor precision, which the specification leaves open
    ("1e<factor-precision>").  [applySwapImpactWithCap] is the
    [impactDeltaAmount] component of its result, the only one the deposit
    code reads. *)
Class Collaborators : Type := {
  factorDecimals : nat;
  getPriceImpactForSwap : MarketInfo -> TokenData -> TokenData -> Z -> Z -> Z;
  applySwapImpactWithCap : MarketInfo -> TokenData -> Z -> Z;
  marketTokenAmountToUsd : MarketInfo -> TokenData -> Z -> Z;
  usdToMarketTokenAmount : MarketInfo -> TokenData -> Z -> Z
}.

Section Deposit.

Context {C : Collaborators}.

Definition PRECISION : Z := expandDecimals 1 factorDecimals.

(** Modelled from the spec: [applyFactor], a fee "as a factor of notional
    USD": "feeUsd = notionalUsd * feeFactor / 1e<factor-precision>". *)
Definition applyFactor (value : jsval) (factor : Z) : result jsval :=
  vf <- Js.mul value (Some factor) ;; Js.div vf (Some PRECISION).

(** Modelled from the spec: [getSwapFee], "feeUsd = notionalUsd * feeFactor /
    1e<factor-precision>, where feeFactor may differ depending on whether
    the swap direction increases or decreases the book's imbalance". *)
Definition getSwapFee (marketInfo : MarketInfo) (swapAmount : jsval)
    (forPositiveImpact : bool) : result jsval :=
  let factor :=
    if forPositiveImpact then swapFeeFactorForPositiveImpact marketInfo
    else swapFeeFactorForNegativeImpact marketInfo in
  applyFactor swapAmount factor.

(** ** [getMarketTokenAmountByCollateral] (deposit.ts, lines 244-288) *)
Definition getMarketTokenAmountByCollateral
    (marketInfo : MarketInfo) (marketToken tokenIn tokenOut : TokenData)
    (amount priceImpactDeltaUsd swapFeeUsd uiFeeUsd : jsval) : result jsval :=
  let swapFeeAmount :=
    convertToTokenAmount swapFeeUsd (decimals tokenIn) (minPrice (prices tokenIn)) in
  let uiFeeAmount :=
    convertToTokenAmount uiFeeUsd (decimals tokenIn) (minPrice (prices tokenIn)) in
  a1 <- Js.sub amount swapFeeAmount ;;
  amountInAfterFees <- Js.sub a1 uiFeeAmount ;;
  let mintAmount := Some 0 in
  st <- (if Js.gt0 priceImpactDeltaUsd then
           delta <- Js.arg priceImpactDeltaUsd ;;
           let positiveImpactAmount :=
             applySwapImpactWithCap marketInfo tokenOut delta in
           let usdValue :=
             convertToUsd (Some positiveImpactAmount) (decimals tokenOut)
               (maxPrice (prices tokenOut)) in
           u <- Js.arg usdValue ;;
           mintAmount <- Js.add mintAmount
             (Some (usdToMarketTokenAmount marketInfo marketToken u)) ;;
           Ok (mintAmount, amountInAfterFees)
         else
           delta <- Js.arg priceImpactDeltaUsd ;;
           let negativeImpactAmount :=
             applySwapImpactWithCap marketInfo tokenIn delta in
           amountInAfterFees <- Js.add amountInAfterFees (Some negativeImpactAmount) ;;
           Ok (mintAmount, amountInAfterFees)) ;;
  let '(mintAmount, amountInAfterFees) := st in
  let usdValue :=
    convertToUsd amountInAfterFees (decimals tokenIn) (minPrice (prices tokenIn)) in
  u <- Js.arg usdValue ;;
  Js.add mintAmount (Some (usdToMarketTokenAmount marketInfo marketToken u)).

(** ** [getDepositAmounts] (deposit.ts, lines 9-242) *)

(** Lines 93-114: the body of [if (values.longTokenUsd > 0)].  Lines
    116-137 are the same statements with the short token as [tokenIn],
    the long token as [tokenOut] and the short fields of [values]. *)
Definition collateralLeg (p : P.t) (values : DepositAmounts)
    (tokenIn tokenOut : TokenData) (sideUsd sideAmount totalDepositUsd : jsval)
  : result DepositAmounts :=
  sideSwapFeeUsd <-
    (if P.shift p then Ok (Some 0)
     else getSwapFee (P.marketInfo p) sideUsd
            (Js.gt0 (swapPriceImpactDeltaUsd values))) ;;
  sf <- Js.add (swapFeeUsd values) sideSwapFeeUsd ;;
  let values := set_swapFeeUsd values sf in
  sideUiFeeUsd <- applyFactor sideUsd (P.uiFeeFactor p) ;;
  uf <- Js.add (uiFeeUsd values) sideUiFeeUsd ;;
  let values := set_uiFeeUsd values uf in
  share <- bigMath.mulDiv (swapPriceImpactDeltaUsd values) sideUsd totalDepositUsd ;;
  minted <- getMarketTokenAmountByCollateral (P.marketInfo p) (P.marketToken p)
              tokenIn tokenOut sideAmount share sideSwapFeeUsd sideUiFeeUsd ;;
  mta <- Js.add (marketTokenAmount values) minted ;;
  Ok (set_marketTokenAmount values mta).

(** [isMarketTokenDeposit && vaultInfo] *)
Definition vaultShortcut (p : P.t) : option GlvMarketInfo :=
  if P.isMarketTokenDeposit p then P.vaultInfo p else None.

(** Lines 141-154: the vault wrapping that ends the byCollaterals branch. *)
Definition wrapToVault (p : P.t) (values : DepositAmounts) : DepositAmounts :=
  match P.vaultInfo p with
  | Some vaultInfo =>
      let glvPrice := maxPrice (prices (indexToken vaultInfo)) in
      let marketTokenUsd' :=
        if P.isMarketTokenDeposit p then
          convertToUsd (longTokenAmount values) (decimals (P.longToken p))
            (minPrice (prices (P.longToken p)))
        else marketTokenUsd values in
      let glvAmount :=
        convertToTokenAmount marketTokenUsd' (decimals (indexToken vaultInfo)) glvPrice in
      match glvAmount with
      | Some g => if 0 <? g then set_marketTokenAmount values glvAmount else values
      | None => values
      end
  | None => values
  end.

(** Lines 56-154: [strategy === "byCollaterals"]. *)
Definition depositByCollaterals (p : P.t) : result DepositAmounts :=
  let longTokenPrice := getMidPrice (prices (P.longToken p)) in
  let shortTokenPrice := getMidPrice (prices (P.shortToken p)) in
  let values := zeroAmounts in
  if (P.longTokenAmount p =? 0) && (P.shortTokenAmount p =? 0) then Ok values
  else
    let values := set_longTokenAmount values (Some (P.longTokenAmount p)) in
    let values :=
      set_longTokenUsd values
        (convertToUsd (Some (P.longTokenAmount p)) (decimals (P.longToken p))
           longTokenPrice) in
    match vaultShortcut p with
    | Some vaultInfo =>
        let gmTokenUsd :=
          convertToUsd (Some (P.longTokenAmount p)) (decimals (P.longToken p))
            longTokenPrice in
        let glvTokenAmount :=
          Js.orZero
            (convertToTokenAmount gmTokenUsd (decimals (indexToken vaultInfo))
               (minPrice (prices (indexToken vaultInfo)))) in
        let glvTokenUsd :=
          Js.orZero
            (convertToUsd (Some glvTokenAmount) (decimals (indexToken vaultInfo))
               (minPrice (prices (indexToken vaultInfo)))) in
        let values := set_marketTokenAmount values (Some glvTokenAmount) in
        let values := set_marketTokenUsd values (Some glvTokenUsd) in
        Ok values
    | None =>
        let values := set_shortTokenAmount values (Some (P.shortTokenAmount p)) in
        let values :=
          set_shortTokenUsd values
            (convertToUsd (Some (P.shortTokenAmount p)) (decimals (P.shortToken p))
               shortTokenPrice) in
        usdIn <- Js.arg (longTokenUsd values) ;;
        usdOut <- Js.arg (shortTokenUsd values) ;;
        let values :=
          set_swapPriceImpactDeltaUsd values
            (Some (getPriceImpactForSwap (P.marketInfo p) (P.longToken p)
                     (P.shortToken p) usdIn usdOut)) in
        totalDepositUsd <- Js.add (longTokenUsd values) (shortTokenUsd values) ;;
        values <-
          (if Js.gt0 (longTokenUsd values) then
             collateralLeg p values (P.longToken p) (P.shortToken p)
               (longTokenUsd values) (longTokenAmount values) totalDepositUsd
           else Ok values) ;;
        values <-
          (if Js.gt0 (shortTokenUsd values) then
             collateralLeg p values (P.shortToken p) (P.longToken p)
               (shortTokenUsd values) (shortTokenAmount values) totalDepositUsd
           else Ok values) ;;
        let values :=
          set_marketTokenUsd values
            (convertToUsd (marketTokenAmount values) (decimals (P.marketToken p))
               (minPrice (prices (P.marketToken p)))) in
        Ok (wrapToVault p values)
    end.

(** Lines 181-199: the long/short split of [values.marketTokenUsd]. *)
Definition splitUsd (p : P.t) (values : DepositAmounts)
    (prevLongTokenUsd prevShortTokenUsd prevSumUsd : jsval) : result DepositAmounts :=
  if P.shift p then
    let longPoolUsd :=
      convertToUsd (Some (longPoolAmount (P.marketInfo p)))
        (decimals (P.longToken p)) (maxPrice (prices (P.longToken p))) in
    let shortPoolUsd :=
      convertToUsd (Some (shortPoolAmount (P.marketInfo p)))
        (decimals (P.shortToken p)) (maxPrice (prices (P.shortToken p))) in
    totalPoolUsd <- Js.add longPoolUsd shortPoolUsd ;;
    l <- bigMath.mulDiv (marketTokenUsd values) longPoolUsd totalPoolUsd ;;
    let values := set_longTokenUsd values l in
    s <- bigMath.mulDiv (marketTokenUsd values) shortPoolUsd totalPoolUsd ;;
    Ok (set_shortTokenUsd values s)
  else if P.includeLongToken p && P.includeShortToken p && Js.gt0 prevSumUsd then
    l <- bigMath.mulDiv (marketTokenUsd values) prevLongTokenUsd prevSumUsd ;;
    let values := set_longTokenUsd values l in
    s <- Js.sub (marketTokenUsd values) (longTokenUsd values) ;;
    Ok (set_shortTokenUsd values s)
  else if P.includeLongToken p then
    Ok (set_longTokenUsd values (marketTokenUsd values))
  else if P.includeShortToken p then
    Ok (set_shortTokenUsd values (marketTokenUsd values))
  else Ok values.

(** Lines 228-234: the price impact passed on to the two sides. *)
Definition redistributeImpact (values : DepositAmounts) (totalDepositUsd : jsval)
  : result DepositAmounts :=
  if Js.lt0 (swapPriceImpactDeltaUsd values) && Js.gt0 totalDepositUsd then
    a <- bigMath.mulDiv (Js.neg (swapPriceImpactDeltaUsd values))
           (longTokenUsd values) totalDepositUsd ;;
    l <- Js.add (longTokenUsd values) a ;;
    let values := set_longTokenUsd values l in
    b <- bigMath.mulDiv (Js.neg (swapPriceImpactDeltaUsd values))
           (shortTokenUsd values) totalDepositUsd ;;
    s <- Js.add (shortTokenUsd values) b ;;
    Ok (set_shortTokenUsd values s)
  else Ok values.

(** Lines 222-223: the fees added to the two sides. *)
Definition redistributeFees (values : DepositAmounts) (totalFee totalDepositUsd : jsval)
  : result DepositAmounts :=
  a <- bigMath.mulDiv totalFee (longTokenUsd values) totalDepositUsd ;;
  l <- Js.add (longTokenUsd values) a ;;
  let values := set_longTokenUsd values l in
  b <- bigMath.mulDiv totalFee (shortTokenUsd values) totalDepositUsd ;;
  s <- Js.add (shortTokenUsd values) b ;;
  Ok (set_shortTokenUsd values s).

(** Lines 217-235: fees, then price impact, added to the two sides. *)
Definition redistribute (values : DepositAmounts) : result DepositAmounts :=
  totalFee <- Js.add (swapFeeUsd values) (uiFeeUsd values) ;;
  totalDepositUsd <- Js.add (longTokenUsd values) (shortTokenUsd values) ;;
  if Js.gt0 totalDepositUsd then
    values <- redistributeFees values totalFee totalDepositUsd ;;
    totalDepositUsd <- Js.add (longTokenUsd values) (shortTokenUsd values) ;;
    redistributeImpact values totalDepositUsd
  else Ok values.

(** Lines 201-215: price impact of the split, swap fee and UI fee. *)
Definition impactAndFees (p : P.t) (values : DepositAmounts) : result DepositAmounts :=
  usdIn <- Js.arg (longTokenUsd values) ;;
  usdOut <- Js.arg (shortTokenUsd values) ;;
  let values :=
    set_swapPriceImpactDeltaUsd values
      (Some (getPriceImpactForSwap (P.marketInfo p) (P.longToken p)
               (P.shortToken p) usdIn usdOut)) in
  values <-
    (if negb (P.shift p) then
       fee <- getSwapFee (P.marketInfo p) (marketTokenUsd values)
                (Js.gt0 (swapPriceImpactDeltaUsd values)) ;;
       sf <- Js.add (swapFeeUsd values) fee ;;
       Ok (set_swapFeeUsd values sf)
     else Ok values) ;;
  fee <- applyFactor (marketTokenUsd values) (P.uiFeeFactor p) ;;
  uf <- Js.add (uiFeeUsd values) fee ;;
  Ok (set_uiFeeUsd values uf).

(** Lines 160-166: the requested market-token amount and its USD value. *)
Definition marketTokenValuation (p : P.t) : DepositAmounts :=
  let values := zeroAmounts in
  let values := set_marketTokenAmount values (Some (P.marketTokenAmount p)) in
  match P.vaultInfo p with
  | Some vaultInfo =>
      let glvPrice := minPrice (prices (indexToken vaultInfo)) in
      set_marketTokenUsd values
        (convertToUsd (Some (P.marketTokenAmount p))
           (decimals (indexToken vaultInfo)) glvPrice)
  | None =>
      set_marketTokenUsd values
        (Some (marketTokenAmountToUsd (P.marketInfo p) (P.marketToken p)
                 (P.marketTokenAmount p)))
  end.

(** Lines 177-178: the previous holdings at mid price. *)
Definition prevLongTokenUsd (p : P.t) : jsval :=
  convertToUsd (Some (P.longTokenAmount p)) (decimals (P.longToken p))
    (getMidPrice (prices (P.longToken p))).

Definition prevShortTokenUsd (p : P.t) : jsval :=
  convertToUsd (Some (P.shortTokenAmount p)) (decimals (P.shortToken p))
    (getMidPrice (prices (P.shortToken p))).

(** Lines 177-199: [values] once the split is made, before the price impact,
    the fees and their redistribution. *)
Definition splitStage (p : P.t) : result DepositAmounts :=
  prevSumUsd <- Js.add (prevLongTokenUsd p) (prevShortTokenUsd p) ;;
  splitUsd p (marketTokenValuation p) (prevLongTokenUsd p) (prevShortTokenUsd p)
    prevSumUsd.

(** Lines 155-239: [strategy === "byMarketToken"]. *)
Definition depositByMarketToken (p : P.t) : result DepositAmounts :=
  let longTokenPrice := getMidPrice (prices (P.longToken p)) in
  let shortTokenPrice := getMidPrice (prices (P.shortToken p)) in
  let values := zeroAmounts in
  if P.marketTokenAmount p =? 0 then Ok values
  else
    let values := marketTokenValuation p in
    match vaultShortcut p with
    | Some _ =>
        Ok (set_longTokenAmount values
              (convertToTokenAmount (marketTokenUsd values)
                 (decimals (P.marketToken p)) (minPrice (prices (P.marketToken p)))))
    | None =>
        values <- splitStage p ;;
        values <- impactAndFees p values ;;
        values <- redistribute values ;;
        let values :=
          set_longTokenAmount values
            (convertToTokenAmount (longTokenUsd values) (decimals (P.longToken p))
               longTokenPrice) in
        let values :=
          set_shortTokenAmount values
            (convertToTokenAmount (shortTokenUsd values) (decimals (P.shortToken p))
               shortTokenPrice) in
        Ok values
    end.

Definition getDepositAmounts (p : P.t) : result DepositAmounts :=
  match P.strategy p with
  | byCollaterals => depositByCollaterals p
  | byMarketToken => depositByMarketToken p
  end.

End Deposit.

(** ** A market for the concrete scenarios

    Collaborators of a market whose market token is priced at its own
    [TokenData] price, whose impact pool never caps, and whose price impact
    for every swap is the given [impact]; factors have 30 decimals. *)
Definition scenarioMarket (impact : Z) : Collaborators := {|
  factorDecimals := 30;
  getPriceImpactForSwap := fun _ _ _ _ _ => impact;
  applySwapImpactWithCap := fun _ token delta =>
    Js.orZero
      (convertToTokenAmount (Some delta) (decimals token)
         (if 0 <? delta then maxPrice (prices token) else minPrice (prices token)));
  marketTokenAmountToUsd := fun _ marketToken amount =>
    Js.orZero
      (convertToUsd (Some amount) (decimals marketToken) (minPrice (prices marketToken)));
  usdToMarketTokenAmount := fun _ marketToken usd =>
    Js.orZero
      (convertToTokenAmount (Some usd) (decimals marketToken)
         (minPrice (prices marketToken)))
|}.

(** One USD, and a token of the given decimals priced at [n] USD. *)
Definition USD : Z := 10 ^ 30.

Definition tokenAt (tokenDecimals : nat) (n : Z) : TokenData :=
  mkTokenData tokenDecimals (mkTokenPrices (n * USD) (n * USD)).

Definition feeFreeMarket (longPool shortPool : Z) : MarketInfo :=
  mkMarketInfo longPool shortPool 0 0.

(** The spec's byCollaterals scenario: 1000 long (18 decimals) and 1000
    short (6 decimals) at 1.00 USD, no imbalance, no fees. *)
Definition scenarioCollaterals : P.t :=
  P.mk (feeFreeMarket (10 ^ 24) (10 ^ 12)) (tokenAt 18 1) (tokenAt 18 1) (tokenAt 6 1)
    (1000 * 10 ^ 18) (1000 * 10 ^ 6) 0 byCollaterals true true 0 None false None.

(** What the deposit code returns for it in a market without price impact:
    2000 market tokens, worth 2000 USD. *)
Definition scenarioCollateralsResult : DepositAmounts :=
  mkDepositAmounts (Some (1000 * 10 ^ 18)) (Some (1000 * USD))
    (Some (1000 * 10 ^ 6)) (Some (1000 * USD))
    (Some (2000 * 10 ^ 18)) (Some (2000 * USD)) (Some 0) (Some 0) (Some 0).

(** The spec's vault shortcut scenario: 100 GM (18 decimals, 1.00 USD)
    deposited into a vault whose index token has [vaultDecimals] decimals
    and costs 2.00 USD. *)
Definition scenarioVaultShortcut (vaultDecimals : nat) : P.t :=
  P.mk (feeFreeMarket 0 0) (tokenAt 18 1) (tokenAt 18 1) (tokenAt 6 1)
    (100 * 10 ^ 18) 0 0 byCollaterals true false 0 None true
    (Some (mkGlvMarketInfo (tokenAt vaultDecimals 2))).

(** A shift of one market token into a market whose pools are empty. *)
Definition scenarioShiftEmptyPool : P.t :=
  P.mk (feeFreeMarket 0 0) (tokenAt 18 1) (tokenAt 18 1) (tokenAt 6 1)
    0 0 (10 ^ 18) byMarketToken true true 0 (Some true) false None.

(** A request for one market token (1.00 USD) by a holder of one long token
    and two short tokens, all at 1.00 USD. *)
Definition scenarioSplit : P.t :=
  P.mk (feeFreeMarket (10 ^ 24) (10 ^ 12)) (tokenAt 18 1) (tokenAt 18 1) (tokenAt 6 1)
    (10 ^ 18) (2 * 10 ^ 6) (10 ^ 18) byMarketToken true true 0 None false None.

(** [values] of a byMarketToken call after the fee redistribution: 600 USD
    long, 400 USD short, price impact [impact]. *)
Definition scenarioAfterFees (impact : Z) : DepositAmounts :=
  mkDepositAmounts (Some 0) (Some (600 * USD)) (Some 0) (Some (400 * USD))
    (Some (10 ^ 21)) (Some (1000 * USD)) (Some 0) (Some 0) (Some impact).

(** The per-side minting sub-algorithm in the words of the specification
    (section 4.1a), on bigints: the mint for the post-fee [tokenIn] amount
    valued at [tokenIn]'s minimum price, ... *)
Definition inputSideMint {C : Collaborators} (marketInfo : MarketInfo)
    (marketToken tokenIn : TokenData) (postFeeAmount : Z) : Z :=
  usdToMarketTokenAmount marketInfo marketToken
    (Z.quot (postFeeAmount * minPrice (prices tokenIn))
       (expandDecimals 1 (decimals tokenIn))).

(** ... the mint for the capped bonus amount of [tokenOut] valued at
    [tokenOut]'s maximum price, ... *)
Definition bonusMint {C : Collaborators} (marketInfo : MarketInfo)
    (marketToken tokenOut : TokenData) (share : Z) : Z :=
  usdToMarketTokenAmount marketInfo marketToken
    (Z.quot (applySwapImpactWithCap marketInfo tokenOut share
             * maxPrice (prices tokenOut))
       (expandDecimals 1 (decimals tokenOut))).

(** ... fees converted to [tokenIn] units at its minimum price, ... *)
Definition feeAmount (tokenIn : TokenData) (feeUsd : Z) : Z :=
  Z.quot (feeUsd * expandDecimals 1 (decimals tokenIn)) (minPrice (prices tokenIn)).

(** ... and the two cases of the price-impact share. *)
Definition mintBySpec {C : Collaborators} (marketInfo : MarketInfo)
    (marketToken tokenIn tokenOut : TokenData)
    (amount share swapFee uiFee : Z) : Z :=
  let postFee := amount - feeAmount tokenIn swapFee - feeAmount tokenIn uiFee in
  if 0 <? share then
    bonusMint marketInfo marketToken tokenOut share
    + inputSideMint marketInfo marketToken tokenIn postFee
  else
    inputSideMint marketInfo marketToken tokenIn
      (postFee + applySwapImpactWithCap marketInfo tokenIn share).

(** A long-side deposit of 1000 USD for the per-side minting helper. *)
Definition scenarioMint (share : Z) : result jsval :=
  getMarketTokenAmountByCollateral (C := scenarioMarket 0) (feeFreeMarket 0 0)
    (tokenAt 18 1) (tokenAt 18 1) (tokenAt 6 1)
    (Some (1000 * 10 ^ 18)) (Some share) (Some (3 * USD)) (Some (1 * USD)).

(** A market charging 0.05% / 0.07% swap fees. *)
Definition feeMarket (longPool shortPool : Z) : MarketInfo :=
  mkMarketInfo longPool shortPool (5 * 10 ^ 26) (7 * 10 ^ 26).

(** A byMarketToken request that includes neither side, for [amount] market
    tokens at 1.00 USD, under the UI fee factor [uiFee]. *)
Definition scenarioNoLeg (amount uiFee : Z) : P.t :=
  P.mk (feeMarket (10 ^ 24) (10 ^ 12)) (tokenAt 18 1) (tokenAt 18 1) (tokenAt 6 1)
    0 0 amount byMarketToken false false uiFee None false None.

(** 100 long tokens (1.00 USD) deposited byCollaterals into a market wrapped
    by a vault whose index token costs 2.00 USD. *)
Definition scenarioVaultWrap : P.t :=
  P.mk (feeFreeMarket (10 ^ 24) (10 ^ 12)) (tokenAt 18 1) (tokenAt 18 1) (tokenAt 6 1)
    (100 * 10 ^ 18) 0 0 byCollaterals true false 0 None false
    (Some (mkGlvMarketInfo (tokenAt 18 2))).

(** ** Valid inputs *)

(** A value that is a bigint and not negative. *)
Definition nonNegative (x : jsval) : Prop := exists z, x = Some z /\ 0 <= z.

Definition priced (token : TokenData) : Prop :=
  0 < minPrice (prices token) /\ 0 < maxPrice (prices token).

(** Non-negative amounts and factors, positive prices. *)
Record validInput (p : P.t) : Prop := mkValidInput {
  valid_longAmount : 0 <= P.longTokenAmount p;
  valid_shortAmount : 0 <= P.shortTokenAmount p;
  valid_marketAmount : 0 <= P.marketTokenAmount p;
  valid_uiFeeFactor : 0 <= P.uiFeeFactor p;
  valid_swapFeePositive : 0 <= swapFeeFactorForPositiveImpact (P.marketInfo p);
  valid_swapFeeNegative : 0 <= swapFeeFactorForNegativeImpact (P.marketInfo p);
  valid_longPool : 0 <= longPoolAmount (P.marketInfo p);
  valid_shortPool : 0 <= shortPoolAmount (P.marketInfo p);
  valid_longToken : priced (P.longToken p);
  valid_shortToken : priced (P.shortToken p);
  valid_marketToken : priced (P.marketToken p);
  valid_vault : forall vault, P.vaultInfo p = Some vault -> priced (indexToken vault)
}.

(** The swap fee of one side of a byCollaterals deposit (lines 94-96). *)
Definition sideSwapFee {C : Collaborators} (p : P.t) (impact sideUsd : Z) : Z :=
  if P.shift p then 0
  else Z.quot (sideUsd *
                 (if 0 <? impact then swapFeeFactorForPositiveImpact (P.marketInfo p)
                  else swapFeeFactorForNegativeImpact (P.marketInfo p)))
         PRECISION.

(** A deposit of one long token (1.00 USD) into a market whose price impact
    for the deposit is [impact]. *)
Definition scenarioOneLong : P.t :=
  P.mk (feeFreeMarket (10 ^ 24) (10 ^ 12)) (tokenAt 18 1) (tokenAt 18 1) (tokenAt 6 1)
    (10 ^ 18) 0 0 byCollaterals true false 0 None false None.

(** ** The byCollaterals run in closed form

    The values the byCollaterals branch computes on bigints before it
    values the minted amount (lines 61-137), written without the
    accumulator. *)
Definition collateralUsd (amount : Z) (token : TokenData) : Z :=
  Z.quot (amount * getMidPrice (prices token)) (expandDecimals 1 (decimals token)).

Definition legSwapFee {C : Collaborators} (p : P.t) (impact sideUsd : Z) : Z :=
  if 0 <? sideUsd then sideSwapFee p impact sideUsd else 0.

Definition legUiFee {C : Collaborators} (p : P.t) (sideUsd : Z) : Z :=
  if 0 <? sideUsd then Z.quot (sideUsd * P.uiFeeFactor p) PRECISION else 0.

Definition legMint {C : Collaborators} (p : P.t) (tokenIn tokenOut : TokenData)
    (amount impact sideUsd totalDepositUsd : Z) : Z :=
  if 0 <? sideUsd then
    mintBySpec (P.marketInfo p) (P.marketToken p) tokenIn tokenOut amount
      (Z.quot (impact * sideUsd) totalDepositUsd)
      (sideSwapFee p impact sideUsd)
      (Z.quot (sideUsd * P.uiFeeFactor p) PRECISION)
  else 0.

Definition legsValues {C : Collaborators} (p : P.t) : DepositAmounts :=
  let longUsd := collateralUsd (P.longTokenAmount p) (P.longToken p) in
  let shortUsd := collateralUsd (P.shortTokenAmount p) (P.shortToken p) in
  let impact :=
    getPriceImpactForSwap (P.marketInfo p) (P.longToken p) (P.shortToken p)
      longUsd shortUsd in
  let total := longUsd + shortUsd in
  mkDepositAmounts
    (Some (P.longTokenAmount p)) (Some longUsd)
    (Some (P.shortTokenAmount p)) (Some shortUsd)
    (Some (legMint p (P.longToken p) (P.shortToken p) (P.longTokenAmount p)
             impact longUsd total
           + legMint p (P.shortToken p) (P.longToken p) (P.shortTokenAmount p)
               impact shortUsd total))
    (Some 0)
    (Some (legSwapFee p impact longUsd + legSwapFee p impact shortUsd))
    (Some (legUiFee p longUsd + legUiFee p shortUsd))
    (Some impact).

(** The fields of a result whose sign the specification constrains. *)
Definition sidesNonNegative (v : DepositAmounts) : Prop :=
  nonNegative (longTokenAmount v) /\ nonNegative (longTokenUsd v) /\
  nonNegative (shortTokenAmount v) /\ nonNegative (shortTokenUsd v) /\
  nonNegative (swapFeeUsd v) /\ nonNegative (uiFeeUsd v).

Definition marketTokenNonNegative (v : DepositAmounts) : Prop :=
  nonNegative (marketTokenAmount v) /\ nonNegative (marketTokenUsd v).

(** What the deposit code returns for [scenarioOneLong] when the price
    impact of the deposit is -2 USD. *)
Definition scenarioOneLongResult : DepositAmounts :=
  mkDepositAmounts (Some (10 ^ 18)) (Some USD) (Some 0) (Some 0)
    (Some (- 10 ^ 18)) (Some (- USD)) (Some 0) (Some 0) (Some (- (2 * USD))).

(** Half a long token (0.50 USD) deposited under the UI fee factor [uiFee]. *)
Definition scenarioHalfDollar (uiFee : Z) : P.t :=
  P.mk (feeFreeMarket (10 ^ 24) (10 ^ 12)) (tokenAt 18 1) (tokenAt 18 1) (tokenAt 6 1)
    (5 * 10 ^ 17) 0 0 byCollaterals true false uiFee None false None.

(** Three base units of the long token deposited into a market wrapped by a
    vault whose index token costs 3.00 USD. *)
Definition scenarioVaultDust (uiFee : Z) : P.t :=
  P.mk (feeFreeMarket (10 ^ 24) (10 ^ 12)) (tokenAt 18 1) (tokenAt 18 1) (tokenAt 6 1)
    3 0 0 byCollaterals true false uiFee None false
    (Some (mkGlvMarketInfo (tokenAt 18 3))).

(** Lines 186-188: the pool composition in USD at maximum prices. *)
Definition totalPoolUsd (p : P.t) : Z :=
  Z.quot (longPoolAmount (P.marketInfo p) * maxPrice (prices (P.longToken p)))
    (expandDecimals 1 (decimals (P.longToken p)))
  + Z.quot (shortPoolAmount (P.marketInfo p) * maxPrice (prices (P.shortToken p)))
      (expandDecimals 1 (decimals (P.shortToken p))).

(** ** Fields a stage leaves alone *)

(** [values.marketTokenAmount] and [values.marketTokenUsd] are not assigned
    by the byMarketToken stages that follow the valuation. *)
Definition sameMarketToken (v v' : DepositAmounts) : Prop :=
  marketTokenAmount v' = marketTokenAmount v /\
  marketTokenUsd v' = marketTokenUsd v.

(** The fields a stage that only moves USD between the two sides leaves
    alone. *)
Definition sameButSides (v v' : DepositAmounts) : Prop :=
  marketTokenAmount v' = marketTokenAmount v /\
  marketTokenUsd v' = marketTokenUsd v /\
  swapFeeUsd v' = swapFeeUsd v /\
  uiFeeUsd v' = uiFeeUsd v /\
  swapPriceImpactDeltaUsd v' = swapPriceImpactDeltaUsd v.

(** The USD values a UI fee is taken from: the value of either side in the
    byCollaterals strategy, the value of the requested market tokens in the
    byMarketToken strategy (past the early returns). *)
Definition feeNotional {C : Collaborators} (p : P.t) (notional : Z) : Prop :=
  match P.strategy p with
  | byCollaterals =>
      vaultShortcut p = None /\
      (notional = collateralUsd (P.longTokenAmount p) (P.longToken p) \/
       notional = collateralUsd (P.shortTokenAmount p) (P.shortToken p))
  | byMarketToken =>
      vaultShortcut p = None /\ P.marketTokenAmount p <> 0 /\
      marketTokenUsd (marketTokenValuation p) = Some notional
  end.

(** ** Further scenarios *)

(** The same call with another short input amount. *)
Definition withShortTokenAmount (p : P.t) (amount : Z) : P.t :=
  P.mk (P.marketInfo p) (P.marketToken p) (P.longToken p) (P.shortToken p)
    (P.longTokenAmount p) amount (P.marketTokenAmount p)
    (P.strategy p) (P.includeLongToken p) (P.includeShortToken p) (P.uiFeeFactor p)
    (P.forShift p) (P.isMarketTokenDeposit p) (P.vaultInfo p).

(** The input of a shift: both sides, pools of 3000 long tokens and 1000 short
    tokens, one market token requested. *)
Definition scenarioShift : P.t :=
  P.mk (feeMarket (3000 * 10 ^ 18) (1000 * 10 ^ 6)) (tokenAt 18 1) (tokenAt 18 1)
    (tokenAt 6 1) 0 0 (10 ^ 18) byMarketToken true true (10 ^ 27) (Some true) false None.

(** A request for 7 vault tokens (3.00 USD each) paid in market tokens
    (1.00 USD each), and the deposit of the 21 market tokens it quotes. *)
Definition scenarioGlvRequest : P.t :=
  P.mk (feeFreeMarket 0 0) (tokenAt 18 1) (tokenAt 18 1) (tokenAt 6 1)
    0 0 (7 * 10 ^ 18) byMarketToken true false 0 None true
    (Some (mkGlvMarketInfo (tokenAt 18 3))).

Definition scenarioGlvRequestResult : DepositAmounts :=
  mkDepositAmounts (Some (21 * 10 ^ 18)) (Some 0) (Some 0) (Some 0)
    (Some (7 * 10 ^ 18)) (Some (21 * USD)) (Some 0) (Some 0) (Some 0).

Definition scenarioGmDeposit : P.t :=
  P.mk (feeFreeMarket 0 0) (tokenAt 18 1) (tokenAt 18 1) (tokenAt 6 1)
    (21 * 10 ^ 18) 5 0 byCollaterals true false 0 None true
    (Some (mkGlvMarketInfo (tokenAt 18 3))).

Definition scenarioGmDepositResult : DepositAmounts :=
  mkDepositAmounts (Some (21 * 10 ^ 18)) (Some (21 * USD)) (Some 0) (Some 0)
    (Some (7 * 10 ^ 18)) (Some (21 * USD)) (Some 0) (Some 0) (Some 0).

(** A long-only request for 1000 market tokens (1.00 USD each) under a 0.1%
    UI fee in the market charging swap fees, with price impact [impact]. *)
Definition scenarioLongOnly : P.t :=
  P.mk (feeMarket (10 ^ 24) (10 ^ 12)) (tokenAt 18 1) (tokenAt 18 1) (tokenAt 6 1)
    0 0 (10 ^ 21) byMarketToken true false (10 ^ 27) None false None.

(** A split of 600 and 400 dollars with 3 dollars of swap fee, 2 dollars of
    UI fee and a price impact of -10 dollars still to be passed on. *)
Definition scenarioFeesDue : DepositAmounts :=
  set_uiFeeUsd (set_swapFeeUsd (scenarioAfterFees (- (10 * USD))) (Some (3 * USD)))
    (Some (2 * USD)).

(** * The one-click-trading subaccount
      ([src/context/SubaccountContext/SubaccountContext.tsx])

    The hooks of the subaccount context are selectors: each reads the value
    the provider publishes, and some read the connected wallet and the
    token balances besides.  A hook is embedded as the function from what it
    reads to what it returns; memoisation does not change that value and is
    left out.  An ethers [BigNumber] is a [Z] (the class is signed and of
    arbitrary precision); a [string | null] is an [option string] and is
    truthy when it is a non-empty string; a [BigNumber | undefined] is an
    [option Z] and is truthy when present, zero included. *)

(** [!!s] for a [string | null | undefined]. *)
Definition truthy (s : option string) : bool :=
  match s with
  | Some s => negb (String.eqb s EmptyString)
  | None => false
  end.

(** The field of [ExecutionFee] the two components read. *)
Record ExecutionFee : Type := mkExecutionFee {
  feeTokenAmount : Z
}.

Module Subaccount.

(** [SubaccountSerializedConfig], also the shape of [SubaccountContext.subaccount]. *)
Record Keys : Type := mkKeys {
  address : string;
  privateKey : string
}.

Record ContractData : Type := mkContractData {
  isSubaccountActive : bool;
  maxAllowedActions : Z;
  currentActionsCount : Z;
  currentAutoTopUpAmount : Z
}.

Inductive SubaccountNotificationState : Type :=
| generating | activating | activated | activationFailed | generationFailed
| deactivating | deactivated | deactivationFailed | none.

(** The data fields of [SubaccountContext]. *)
Record SubaccountContext : Type := mkSubaccountContext {
  activeTx : option string;
  baseExecutionFee : option ExecutionFee;
  contractData : option ContractData;
  subaccount : option Keys;
  modalOpen : bool;
  notificationState : SubaccountNotificationState
}.

(** The state [SubaccountContextProvider] holds (lines 74-124): the stored
    [config], the [contractData] last fetched, the memoised fee. *)
Record ProviderState : Type := mkProviderState {
  config : option Keys;
  contractDataState : option ContractData;
  baseExecutionFeeMemo : option ExecutionFee;
  modalOpenState : bool;
  notificationStateState : SubaccountNotificationState;
  activeTxState : option string
}.

(** Lines 171-189: the context value. *)
Definition value (st : ProviderState) : SubaccountContext :=
  mkSubaccountContext
    (activeTxState st)
    (baseExecutionFeeMemo st)
    (match config st, contractDataState st with
     | Some _, Some cd => Some cd
     | _, _ => None
     end)
    (match config st with
     | Some c => Some (mkKeys (address c) (privateKey c))
     | None => None
     end)
    (modalOpenState st)
    (notificationStateState st).

(** Line 118-120: [clearSubaccount] stores a null [config]. *)
Definition clearSubaccount (st : ProviderState) : ProviderState :=
  mkProviderState None (contractDataState st) (baseExecutionFeeMemo st)
    (modalOpenState st) (notificationStateState st) (activeTxState st).

(** What the hooks read outside the context: the wallet's [account], the
    addresses of the chain's native and wrapped tokens, the balances
    [useTokenBalances] holds for an account ([balancesData] read with
    [getByKey]), AES decryption, and whether [new ethers.Wallet] accepts a
    key (it throws otherwise). *)
Record Env : Type := mkEnv {
  account : option string;
  chainId : Z;
  nativeToken : string;
  wrappedToken : string;
  balancesData : option string -> string -> option Z;
  decrypt : string -> string -> string;
  validPrivateKey : string -> bool
}.

(** A hook either returns or throws. *)
Inductive outcome (A : Type) : Type :=
| Returned (a : A)
| Threw.

Arguments Returned {A} a.
Arguments Threw {A}.

(** [wallet.connect(provider)]: the key and the chain of the signer. *)
Record Signer : Type := mkSigner {
  signerKey : string;
  signerChainId : Z
}.

(** The object [useSubaccount] returns. *)
Record Handle : Type := mkHandle {
  handleAddress : string;
  handleActive : bool;
  handleSigner : Signer
}.

(** Lines 220-222. *)
Definition useSubaccountAddress (s : SubaccountContext) : option string :=
  match subaccount s with
  | Some k => Some (address k)
  | None => None
  end.

(** Lines 224-232. *)
Definition useSubaccountPrivateKey (e : Env) (s : SubaccountContext) : option string :=
  let encryptedString :=
    match subaccount s with
    | Some k => Some (privateKey k)
    | None => None
    end in
  match account e, encryptedString with
  | Some acc, Some enc =>
      if negb (truthy (Some acc)) || negb (truthy (Some enc)) then None
      else Some (decrypt e enc acc)
  | _, _ => None
  end.

(** Lines 234-236. *)
Definition useIsSubaccountActive (s : SubaccountContext) : bool :=
  match contractData s with
  | Some cd => isSubaccountActive cd
  | None => false
  end.

(** Lines 238-240. *)
Definition useSubaccountBaseExecutionFeeTokenAmount (s : SubaccountContext) : option Z :=
  match baseExecutionFee s with
  | Some f => Some (feeTokenAmount f)
  | None => None
  end.

(** Lines 268-281. *)
Definition useSubaccountInsufficientFunds (e : Env) (s : SubaccountContext)
    (requiredBalance : option Z) : bool :=
  let subaccountAddress := useSubaccountAddress s in
  let nativeTokenBalance := balancesData e subaccountAddress (nativeToken e) in
  let isSubaccountActive := useIsSubaccountActive s in
  match requiredBalance with
  | None => false
  | Some required =>
      if negb isSubaccountActive then false
      else match nativeTokenBalance with
           | None => false
           | Some balance => balance <? required
           end
  end.

(** Lines 283-296. *)
Definition useMainAccountInsufficientFunds (e : Env) (s : SubaccountContext)
    (requiredBalance : option Z) : bool :=
  let wntBalance := balancesData e (account e) (wrappedToken e) in
  let isSubaccountActive := useIsSubaccountActive s in
  match requiredBalance with
  | None => false
  | Some required =>
      if negb isSubaccountActive then false
      else match wntBalance with
           | None => false
           | Some balance => balance <? required
           end
  end.

(** Lines 298-308. *)
Record ActionCounts : Type := mkActionCounts {
  current : option Z;
  max : option Z;
  remaining : option Z
}.

Definition useSubaccountActionCounts (s : SubaccountContext) : ActionCounts :=
  let current :=
    match contractData s with
    | Some cd => Some (currentActionsCount cd)
    | None => None
    end in
  let max :=
    match contractData s with
    | Some cd => Some (maxAllowedActions cd)
    | None => None
    end in
  let remaining :=
    match max with
    | Some m => Some (m - match current with Some c => c | None => 0 end)
    | None => None
    end in
  mkActionCounts current max remaining.

(** Lines 314-317; [requiredActions] is an integer. *)
Definition useIsLastSubaccountAction (s : SubaccountContext) (requiredActions : Z) : bool :=
  match remaining (useSubaccountActionCounts s) with
  | Some r => r =? Z.max requiredActions 1
  | None => false
  end.

(** Lines 242-266; [requiredActions] is an integer. *)
Definition useSubaccount (e : Env) (s : SubaccountContext)
    (requiredBalance : option Z) (requiredActions : Z) : outcome (option Handle) :=
  let address := useSubaccountAddress s in
  let active := useIsSubaccountActive s in
  let privateKey := useSubaccountPrivateKey e s in
  let defaultRequiredBalance := useSubaccountBaseExecutionFeeTokenAmount s in
  let insufficientFunds :=
    useSubaccountInsufficientFunds e s
      (match requiredBalance with
       | Some r => Some r
       | None => defaultRequiredBalance
       end) in
  let remaining := remaining (useSubaccountActionCounts s) in
  if negb (truthy address) || negb active || negb (truthy privateKey)
     || insufficientFunds
     || match remaining with
        | Some r => r <? Z.max 1 requiredActions
        | None => false
        end
  then Returned None
  else
    match address, privateKey with
    | Some address, Some privateKey =>
        if validPrivateKey e privateKey
        then Returned (Some (mkHandle address active (mkSigner privateKey (chainId e))))
        else Threw
    | _, _ => Returned None
    end.

(** The three messages of [useSubaccountCancelOrdersDetailsMessage]. *)
Inductive DetailsMessage : Type :=
| MaxActionCountReached
| SubaccountInsufficientFunds
| MainAccountInsufficientFunds.

(** Lines 319-368. *)
Definition useSubaccountCancelOrdersDetailsMessage (e : Env) (s : SubaccountContext)
    (overridedRequiredBalance : option Z) (actionCount : Z) : option DetailsMessage :=
  let defaultRequiredBalance := useSubaccountBaseExecutionFeeTokenAmount s in
  let requiredBalance :=
    match overridedRequiredBalance with
    | Some r => Some r
    | None => defaultRequiredBalance
    end in
  let isLastAction := useIsLastSubaccountAction s actionCount in
  let mainAccountInsufficientFunds := useMainAccountInsufficientFunds e s requiredBalance in
  let subaccountInsufficientFunds := useSubaccountInsufficientFunds e s requiredBalance in
  if isLastAction then Some MaxActionCountReached
  else if subaccountInsufficientFunds then Some SubaccountInsufficientFunds
  else if mainAccountInsufficientFunds then Some MainAccountInsufficientFunds
  else None.

End Subaccount.

(** * Submitting a trade
      ([src/components/Synthetics/Trade/ConfirmationBox/ConfirmationBox.tsx])

    [onSubmit] reads the component's props, the wallet's [account] and the
    user's referral code, and calls [createOrderTxn] at most once; it is
    embedded as the function from what it reads to the parameters of that
    call.  The enumerations [TradeType], [TradeMode] and [OrderType] are
    declared outside the files at hand: the members the component names are
    constructors, any other member is the last constructor. *)

Inductive TradeType : Type := Long | Short | Swap | OtherTradeType (tag : nat).
Inductive TradeMode : Type := Market | Limit | OtherTradeMode (tag : nat).
Inductive OrderType : Type := LimitIncrease | MarketIncrease | LimitSwap | MarketSwap.

Definition isPositionTrade (operationType : TradeType) : bool :=
  match operationType with Long | Short => true | _ => false end.

Definition isLongTrade (operationType : TradeType) : bool :=
  match operationType with Long => true | _ => false end.

Definition isSwapTrade (operationType : TradeType) : bool :=
  match operationType with Swap => true | _ => false end.

Definition isLimitMode (mode : TradeMode) : bool :=
  match mode with Limit => true | _ => false end.

Definition isMarketOrLimit (mode : TradeMode) : bool :=
  match mode with Market | Limit => true | _ => false end.

Module SwapRoute.
(** The fields of [SwapRoute] that [onSubmit] reads. *)
Record t : Type := mk {
  market : option string;
  swapPath : list string
}.
End SwapRoute.

Module Props.
(** The props that [onSubmit] reads; [executionFee] is [p.fees.executionFee]. *)
Record t : Type := mk {
  operationType : TradeType;
  mode : TradeMode;
  executionFee : option ExecutionFee;
  fromTokenAddress : option string;
  fromTokenAmount : option Z;
  toTokenAddress : option string;
  toTokenAmount : option Z;
  sizeDeltaUsd : option Z;
  acceptablePrice : option Z;
  triggerPrice : option Z;
  swapRoute : option SwapRoute.t
}.
End Props.

Module IncreaseOrder.
(** The parameters of the [createOrderTxn] call of lines 203-217. *)
Record t : Type := mk {
  account : string;
  marketAddress : string;
  initialCollateralAddress : string;
  initialCollateralAmount : Z;
  swapPath : list string;
  indexTokenAddress : string;
  sizeDeltaUsd : Z;
  triggerPrice : option Z;
  acceptablePrice : Z;
  executionFee : Z;
  isLong : bool;
  orderType : OrderType;
  referralCode : option string
}.
End IncreaseOrder.

Module SwapOrder.
(** The parameters of the [createOrderTxn] call of lines 226-236. *)
Record t : Type := mk {
  account : string;
  initialCollateralAddress : string;
  initialCollateralAmount : Z;
  swapPath : list string;
  receiveTokenAddress : string;
  executionFee : Z;
  orderType : OrderType;
  minOutputAmount : Z;
  referralCode : option string
}.
End SwapOrder.

Inductive OrderParams : Type :=
| IncreaseOrderParams (o : IncreaseOrder.t)
| SwapOrderParams (o : SwapOrder.t).

(** Lines 169-171; [isLong] is the component's
    [p.operationType === TradeType.Long]; [BigNumber.div] truncates. *)
Definition applySlippage (isLong : bool) (price : Z) : Z :=
  if isLong then price + Z.quot price 10 else Z.quot price 10.

(** Line 234: [p.toTokenAmount?.sub(p.toTokenAmount.div(90)) || BigNumber.from(0)]. *)
Definition minOutputAmount (toTokenAmount : option Z) : Z :=
  match toTokenAmount with
  | Some amount => amount - Z.quot amount 90
  | None => 0
  end.

(** Lines 158-238: the parameters [onSubmit] hands to [createOrderTxn], or
    [None] when it returns without the call. *)
Definition onSubmit (account : option string) (referralCode : option string)
    (p : Props.t) : option OrderParams :=
  match account, Props.fromTokenAddress p, Props.toTokenAddress p,
        Props.executionFee p, Props.swapRoute p, Props.fromTokenAmount p with
  | Some account, Some fromTokenAddress, Some toTokenAddress,
    Some executionFee, Some swapRoute, Some fromTokenAmount =>
      if negb (truthy (Some account)) || negb (truthy (Some fromTokenAddress))
         || negb (truthy (Some toTokenAddress))
      then None
      else if isPositionTrade (Props.operationType p) then
        if isMarketOrLimit (Props.mode p) then
          match SwapRoute.market swapRoute, Props.sizeDeltaUsd p,
                Props.acceptablePrice p with
          | Some market, Some sizeDeltaUsd, Some acceptablePrice =>
              if negb (truthy (Some market)) then None
              else
                let orderType :=
                  if isLimitMode (Props.mode p) then LimitIncrease else MarketIncrease in
                let isLong := isLongTrade (Props.operationType p) in
                let triggerPrice := Props.triggerPrice p in
                let acceptablePrice :=
                  applySlippage (isLongTrade (Props.operationType p))
                    (match triggerPrice with
                     | Some price => price
                     | None => acceptablePrice
                     end) in
                Some (IncreaseOrderParams
                        (IncreaseOrder.mk account market fromTokenAddress
                           fromTokenAmount (SwapRoute.swapPath swapRoute)
                           toTokenAddress sizeDeltaUsd triggerPrice acceptablePrice
                           (feeTokenAmount executionFee) isLong orderType referralCode))
          | _, _, _ => None
          end
        else None
      else if isSwapTrade (Props.operationType p) then
        let orderType :=
          if isLimitMode (Props.mode p) then LimitSwap else MarketSwap in
        Some (SwapOrderParams
                (SwapOrder.mk account fromTokenAddress fromTokenAmount
                   (SwapRoute.swapPath swapRoute) toTokenAddress
                   (feeTokenAmount executionFee) orderType
                   (minOutputAmount (Props.toTokenAmount p)) referralCode))
      else None
  | _, _, _, _, _, _ => None
  end.

(** ** Subaccount scenarios

    A wallet on chain 42161 whose accounts each hold 0.05 of the native and
    of the wrapped token, with a decryption that returns the stored text. *)
Definition scenarioEnv : Subaccount.Env :=
  Subaccount.mkEnv (Some "0xMain"%string) 42161 "ETH"%string "WETH"%string
    (fun acct _ => match acct with Some _ => Some (5 * 10 ^ 16) | None => None end)
    (fun encrypted _ => encrypted) (fun _ => true).

(** An active subaccount allowed 10 actions, [current] of them used, under
    a base execution fee of [fee]. *)
Definition scenarioProvider (current fee : Z) : Subaccount.ProviderState :=
  Subaccount.mkProviderState
    (Some (Subaccount.mkKeys "0xSub"%string "key"%string))
    (Some (Subaccount.mkContractData true 10 current 0))
    (Some (mkExecutionFee fee)) false Subaccount.none None.

(** ** Trade scenarios

    A trade paying 1000 units of [0xUSDC] for [0xETH] through one market,
    with a quoted output of 900, a size of 5000 and an acceptable price of
    2000; [triggerPrice] is the trigger price, if any. *)
Definition scenarioTrade (operationType : TradeType) (mode : TradeMode)
    (triggerPrice : option Z) : Props.t :=
  Props.mk operationType mode (Some (mkExecutionFee 7))
    (Some "0xUSDC"%string) (Some 1000) (Some "0xETH"%string) (Some 900)
    (Some 5000) (Some 2000) triggerPrice
    (Some (SwapRoute.mk (Some "0xMarket"%string) nil)).

(** * Selecting orders ([OrderList], src/unnamed/part_002)

    [selectedOrdersKeys] is an object from order keys to booleans, read at a
    key and rebuilt with spread syntax; it is embedded as the function from a
    key to what the object stores there, [None] for a key it does not
    store. *)
Module OrderList.

Definition SelectedOrdersKeys : Type := string -> option bool.

(** [{}] *)
Definition empty : SelectedOrdersKeys := fun _ => None.

(** [{ ...prev, [key]: v }] *)
Definition assign (prev : SelectedOrdersKeys) (key : string) (v : bool)
  : SelectedOrdersKeys :=
  fun k => if String.eqb k key then Some v else prev k.

(** The members every object inherits from [Object.prototype]; each is a
    function or an object, hence truthy. *)
Definition inheritedKeys : list string :=
  "constructor"%string :: "hasOwnProperty"%string :: "isPrototypeOf"%string
  :: "propertyIsEnumerable"%string :: "toLocaleString"%string
  :: "toString"%string :: "valueOf"%string :: "__proto__"%string
  :: "__defineGetter__"%string :: "__defineSetter__"%string
  :: "__lookupGetter__"%string :: "__lookupSetter__"%string :: nil.

Definition inherited (key : string) : bool :=
  existsb (String.eqb key) inheritedKeys.

(** [prev[key]] in a condition: the stored boolean; at a key the object
    does not store, the inherited member if the key names one (truthy),
    else [undefined] (falsy). *)
Definition isSelected (selectedOrdersKeys : SelectedOrdersKeys) (key : string) : bool :=
  match selectedOrdersKeys key with
  | Some b => b
  | None => inherited key
  end.

(** The field of an order the list reads. *)
Record OrderInfo : Type := mkOrderInfo {
  key : string
}.

(** Line 66: [orders.length > 0 && orders.every((o) => p.selectedOrdersKeys?.[o.key])]. *)
Definition isAllOrdersSelected (orders : list OrderInfo)
    (selectedOrdersKeys : option SelectedOrdersKeys) : bool :=
  (0 <? Z.of_nat (List.length orders))
  && forallb (fun o =>
                match selectedOrdersKeys with
                | Some selected => isSelected selected (key o)
                | None => false
                end) orders.

(** Lines 90-92: the state after [onSelectOrder(key)]. *)
Definition onSelectOrder (key : string) (prev : SelectedOrdersKeys) : SelectedOrdersKeys :=
  assign prev key (negb (isSelected prev key)).

(** Lines 94-103: the state [onSelectAllOrders] sets. *)
Definition onSelectAllOrders (orders : list OrderInfo)
    (selectedOrdersKeys : option SelectedOrdersKeys) : SelectedOrdersKeys :=
  if isAllOrdersSelected orders selectedOrdersKeys then empty
  else fold_left (fun acc order => assign acc (key order) true) orders empty.

End OrderList.

(** ** The minted amount of the general byCollaterals path *)

(** Lines 93-137: the market tokens the two legs mint together. *)
Definition legsMint {C : Collaborators} (p : P.t) : Z :=
  let longUsd := collateralUsd (P.longTokenAmount p) (P.longToken p) in
  let shortUsd := collateralUsd (P.shortTokenAmount p) (P.shortToken p) in
  let impact :=
    getPriceImpactForSwap (P.marketInfo p) (P.longToken p) (P.shortToken p)
      longUsd shortUsd in
  let total := longUsd + shortUsd in
  legMint p (P.longToken p) (P.shortToken p) (P.longTokenAmount p)
    impact longUsd total
  + legMint p (P.shortToken p) (P.longToken p) (P.shortTokenAmount p)
      impact shortUsd total.

(** Lines 61-139: [values] once the minted amount is valued, before the
    vault wrap. *)
Definition mintedValues {C : Collaborators} (p : P.t) : DepositAmounts :=
  set_marketTokenUsd (legsValues p)
    (convertToUsd (marketTokenAmount (legsValues p))
       (decimals (P.marketToken p)) (minPrice (prices (P.marketToken p)))).

(** Lines 141-150: the vault-token amount the wrap computes. *)
Definition glvAmount (p : P.t) (values : DepositAmounts) : jsval :=
  match P.vaultInfo p with
  | Some vaultInfo =>
      let glvPrice := maxPrice (prices (indexToken vaultInfo)) in
      let marketTokenUsd' :=
        if P.isMarketTokenDeposit p then
          convertToUsd (longTokenAmount values) (decimals (P.longToken p))
            (minPrice (prices (P.longToken p)))
        else marketTokenUsd values in
      convertToTokenAmount marketTokenUsd' (decimals (indexToken vaultInfo)) glvPrice
  | None => None
  end.

(** Line 151, [glvAmount > 0], on the minted values: whether the wrap
    replaces the market-token amount by the vault-token amount. *)
Definition vaultWraps {C : Collaborators} (p : P.t) : bool :=
  Js.gt0 (glvAmount p (mintedValues p)).

(** The values lines 139-150 compute from a minted amount [minted]: its
    USD value at the market token's minimum price, and the vault-token
    amount of that value at the vault token's maximum price. *)
Definition mintedUsd (p : P.t) (minted : Z) : Z :=
  Z.quot (minted * minPrice (prices (P.marketToken p)))
    (expandDecimals 1 (decimals (P.marketToken p))).

Definition mintedGlv (p : P.t) (vault : GlvMarketInfo) (minted : Z) : Z :=
  Z.quot (mintedUsd p minted * expandDecimals 1 (decimals (indexToken vault)))
    (maxPrice (prices (indexToken vault))).

(** A leg whose input covers what is taken from it: on a funded leg, the
    amount left after the two fees is not negative and the capped bonus
    amount is not negative when the leg's impact share is positive; the
    amount left after the fees and the capped impact amount is not negative
    otherwise. *)
Definition legCovered {C : Collaborators} (p : P.t) (tokenIn tokenOut : TokenData)
    (amount impact sideUsd totalDepositUsd : Z) : Prop :=
  0 < sideUsd ->
  let share := Z.quot (impact * sideUsd) totalDepositUsd in
  let postFee :=
    amount - feeAmount tokenIn (sideSwapFee p impact sideUsd)
    - feeAmount tokenIn (Z.quot (sideUsd * P.uiFeeFactor p) PRECISION) in
  if 0 <? share
  then 0 <= postFee /\ 0 <= applySwapImpactWithCap (P.marketInfo p) tokenOut share
  else 0 <= postFee + applySwapImpactWithCap (P.marketInfo p) tokenIn share.

Definition legsCovered {C : Collaborators} (p : P.t) : Prop :=
  let longUsd := collateralUsd (P.longTokenAmount p) (P.longToken p) in
  let shortUsd := collateralUsd (P.shortTokenAmount p) (P.shortToken p) in
  let impact :=
    getPriceImpactForSwap (P.marketInfo p) (P.longToken p) (P.shortToken p)
      longUsd shortUsd in
  let total := longUsd + shortUsd in
  legCovered p (P.longToken p) (P.shortToken p) (P.longTokenAmount p)
    impact longUsd total /\
  legCovered p (P.shortToken p) (P.longToken p) (P.shortTokenAmount p)
    impact shortUsd total.

(** * Properties *)

(** ** The result monad and the primitives *)

Lemma bind_Ok_inv {A B : Type} (m : result A) (k : A -> result B) (b : B) :
  bind m k = Ok b -> exists a, m = Ok a /\ k a = Ok b.
Proof.
  destruct m as [a|e]; simpl; intros H; [exists a; auto | discriminate].
Qed.

Lemma expandDecimals_pos (tokenDecimals : nat) : 0 < expandDecimals 1 tokenDecimals.
Proof. unfold expandDecimals. rewrite Z.mul_1_l. apply Z.pow_pos_nonneg; lia. Qed.

Lemma quot_0_expandDecimals (tokenDecimals : nat) :
  Z.quot 0 (expandDecimals 1 tokenDecimals) = 0.
Proof. reflexivity. Qed.

Lemma getMidPrice_same (u : Z) : getMidPrice (mkTokenPrices u u) = u.
Proof.
  unfold getMidPrice; simpl. replace (u + u) with (u * 2) by lia.
  apply Z.quot_mul; lia.
Qed.

Lemma convert_zero_orZero (d d' : nat) (pr pr' : Z) :
  Js.orZero (convertToTokenAmount (convertToUsd (Some 0) d pr) d' pr') = 0.
Proof.
  unfold convertToUsd, convertToTokenAmount.
  destruct (pr =? 0); [reflexivity|].
  destruct (pr' =? 0); reflexivity.
Qed.

Lemma convertToUsd_Some (a : Z) (d : nat) (pr : Z) :
  pr <> 0 ->
  convertToUsd (Some a) d pr = Some (Z.quot (a * pr) (expandDecimals 1 d)).
Proof.
  intros H. unfold convertToUsd. apply Z.eqb_neq in H. rewrite H. reflexivity.
Qed.

Lemma convertToTokenAmount_Some (u : Z) (d : nat) (pr : Z) :
  pr <> 0 ->
  convertToTokenAmount (Some u) d pr = Some (Z.quot (u * expandDecimals 1 d) pr).
Proof.
  intros H. unfold convertToTokenAmount. apply Z.eqb_neq in H. rewrite H. reflexivity.
Qed.

Arguments expandDecimals : simpl never.
Arguments convertToUsd : simpl never.
Arguments convertToTokenAmount : simpl never.
Arguments getMidPrice : simpl never.

Lemma quot_pos_iff (a b : Z) : 0 <= a -> 0 < b -> (0 < Z.quot a b <-> b <= a).
Proof.
  intros Ha Hb. split; intros H.
  - destruct (Z_lt_le_dec a b) as [Hlt|Hle]; [|exact Hle].
    rewrite Z.quot_small in H; lia.
  - apply Z.quot_str_pos; lia.
Qed.

Lemma scenario_conversion (usd : Z) (vaultDecimals : nat) :
  0 < usd ->
  convertToTokenAmount (convertToUsd (Some (100 * 10 ^ 18)) 18 usd)
    vaultDecimals (2 * usd) = Some (50 * 10 ^ Z.of_nat vaultDecimals).
Proof.
  intros Hu. unfold convertToUsd, convertToTokenAmount, expandDecimals.
  replace (usd =? 0) with false by (symmetry; apply Z.eqb_neq; lia).
  replace (2 * usd =? 0) with false by (symmetry; apply Z.eqb_neq; lia).
  f_equal. rewrite !Z.mul_1_l.
  replace (100 * 10 ^ 18 * usd) with (100 * usd * 10 ^ Z.of_nat 18)
    by (change (Z.of_nat 18) with 18; ring).
  rewrite Z.quot_mul by (apply Z.pow_nonzero; lia).
  replace (100 * usd * 10 ^ Z.of_nat vaultDecimals)
    with (50 * 10 ^ Z.of_nat vaultDecimals * (2 * usd)) by ring.
  apply Z.quot_mul; lia.
Qed.

(** Reading a field of [values] after a sequence of assignments. *)
Ltac fields :=
  cbn [longTokenAmount longTokenUsd shortTokenAmount shortTokenUsd
       marketTokenAmount marketTokenUsd swapFeeUsd uiFeeUsd
       swapPriceImpactDeltaUsd
       set_longTokenAmount set_longTokenUsd set_shortTokenAmount
       set_shortTokenUsd set_marketTokenAmount set_marketTokenUsd
       set_swapFeeUsd set_uiFeeUsd set_swapPriceImpactDeltaUsd zeroAmounts] in *.

Ltac fields_in H :=
  cbn [longTokenAmount longTokenUsd shortTokenAmount shortTokenUsd
       marketTokenAmount marketTokenUsd swapFeeUsd uiFeeUsd
       swapPriceImpactDeltaUsd
       set_longTokenAmount set_longTokenUsd set_shortTokenAmount
       set_shortTokenUsd set_marketTokenAmount set_marketTokenUsd
       set_swapFeeUsd set_uiFeeUsd set_swapPriceImpactDeltaUsd zeroAmounts] in H.

(** Splitting conjunctions only. *)
Ltac conjs := repeat match goal with |- _ /\ _ => split end.

(** Equations that hold by computation; nothing else is attempted. *)
Ltac eqs := lazymatch goal with |- _ = _ => reflexivity end.

(** Backwards through a computation that returned [Ok]. *)
Ltac step H :=
  fields_in H;
  lazymatch type of H with
  | Err _ = Ok _ => discriminate H
  | Ok _ = Ok _ => injection H as H; try subst
  | bind ?m _ = Ok _ =>
      let E := fresh "E" in
      destruct m eqn:E; cbn [bind] in H; [try steps E | discriminate H]
  | (if ?b then _ else _) = Ok _ =>
      let E := fresh "E" in destruct b eqn:E
  | _ =>
      progress cbn [Js.add Js.sub Js.mul Js.div Js.arith Js.arg Js.neg option_map
                    bigMath.mulDiv bind] in H
  end
with steps H := repeat step H.

(** Boolean tests in the context as propositions. *)
Ltac bools :=
  repeat match goal with
         | H : (_ && _) = true |- _ => apply andb_prop in H; destruct H
         | H : (_ =? _) = true |- _ => apply Z.eqb_eq in H
         | H : (_ =? _) = false |- _ => apply Z.eqb_neq in H
         | H : (_ <? _) = true |- _ => apply Z.ltb_lt in H
         | H : (_ <? _) = false |- _ => apply Z.ltb_ge in H
         | H : Js.gt0 (Some _) = _ |- _ => cbn [Js.gt0] in H
         | H : Js.lt0 (Some _) = _ |- _ => cbn [Js.lt0] in H
         end.

(** Side conditions on closed inputs. *)
Ltac closed_side :=
  lazymatch goal with
  | |- _ <> _ => vm_compute; discriminate
  | |- _ = _ => vm_compute; reflexivity
  | |- _ < _ => vm_compute; reflexivity
  | |- _ <= _ => vm_compute; discriminate
  end.

Section Properties.

Context {C : Collaborators}.

Lemma PRECISION_pos : 0 < PRECISION.
Proof. apply expandDecimals_pos. Qed.

Lemma applyFactor_Some (value factor : Z) :
  applyFactor (Some value) factor = Ok (Some (Z.quot (value * factor) PRECISION)).
Proof.
  unfold applyFactor. cbn [Js.mul Js.div Js.arith bind].
  replace (PRECISION =? 0) with false
    by (symmetry; apply Z.eqb_neq; pose proof PRECISION_pos; lia).
  reflexivity.
Qed.

Lemma vaultShortcut_no_vault (p : P.t) :
  P.vaultInfo p = None -> vaultShortcut p = None.
Proof.
  intros H. unfold vaultShortcut. rewrite H.
  destruct (P.isMarketTokenDeposit p); reflexivity.
Qed.

(** C9. Zero-input short-circuit: in the byCollaterals strategy a call whose
    long and short input amounts are both zero returns the all-zero record,
    whatever the market and the tokens are; in the byMarketToken strategy a
    call whose market-token amount is zero returns the all-zero record. *)
Theorem zero_input_short_circuit (p : P.t) :
  (P.strategy p = byCollaterals ->
   P.longTokenAmount p = 0 -> P.shortTokenAmount p = 0 ->
   getDepositAmounts p = Ok zeroAmounts) /\
  (P.strategy p = byMarketToken ->
   P.marketTokenAmount p = 0 ->
   getDepositAmounts p = Ok zeroAmounts).
Proof.
  unfold getDepositAmounts; split.
  - intros Hs Hl Hsh. rewrite Hs. unfold depositByCollaterals.
    rewrite Hl, Hsh. reflexivity.
  - intros Hs Hm. rewrite Hs. unfold depositByMarketToken.
    rewrite Hm. reflexivity.
Qed.

(** C5. Vault shortcut: a byCollaterals call with [isMarketTokenDeposit] and a
    vault returns, without consulting any fee or price-impact collaborator,
    a market-token amount equal to the long-token amount converted to USD at
    the long token's mid price and then to vault-token units at the vault
    index token's minimum price (zero when a conversion fails), with swap fee,
    UI fee and price impact zero.  With the GM token at 1.00 USD (18
    decimals), the vault index token at 2.00 USD and 100 * 10^18 GM
    deposited, the amount is 50 * 10^vaultDecimals. *)
Theorem vault_shortcut (p : P.t) (vault : GlvMarketInfo) :
  P.strategy p = byCollaterals ->
  P.isMarketTokenDeposit p = true ->
  P.vaultInfo p = Some vault ->
  exists v,
    getDepositAmounts p = Ok v /\
    marketTokenAmount v =
      Some (Js.orZero
              (convertToTokenAmount
                 (convertToUsd (Some (P.longTokenAmount p)) (decimals (P.longToken p))
                    (getMidPrice (prices (P.longToken p))))
                 (decimals (indexToken vault)) (minPrice (prices (indexToken vault))))) /\
    swapFeeUsd v = Some 0 /\ uiFeeUsd v = Some 0 /\
    swapPriceImpactDeltaUsd v = Some 0 /\
    (forall usd : Z,
       0 < usd ->
       P.longToken p = mkTokenData 18 (mkTokenPrices usd usd) ->
       minPrice (prices (indexToken vault)) = 2 * usd ->
       P.longTokenAmount p = 100 * 10 ^ 18 ->
       marketTokenAmount v = Some (50 * 10 ^ Z.of_nat (decimals (indexToken vault)))).
Proof.
  intros Hs Hd Hv. unfold getDepositAmounts. rewrite Hs.
  unfold depositByCollaterals, vaultShortcut. rewrite Hd, Hv.
  destruct ((P.longTokenAmount p =? 0) && (P.shortTokenAmount p =? 0)) eqn:Hz.
  - apply andb_prop in Hz. destruct Hz as [Hl _]. apply Z.eqb_eq in Hl.
    exists zeroAmounts. rewrite Hl, convert_zero_orZero.
    conjs; try eqs. intros; lia.
  - eexists. split; [reflexivity|]. fields. conjs; try eqs.
    intros usd Hu Hlt Hmin Hamt. rewrite Hlt, Hmin, Hamt.
    cbn [decimals prices]. rewrite getMidPrice_same.
    rewrite scenario_conversion by exact Hu. reflexivity.
Qed.

(** C1. The guard the shift split lacks: a byMarketToken shift into a
    market whose long and short pools are both empty reaches
    [mulDiv(marketTokenUsd, longPoolUsd, totalPoolUsd)] with [totalPoolUsd]
    zero: the call throws a [RangeError] instead of skipping the split. *)
Theorem shift_split_divides_by_zero (p : P.t) :
  P.strategy p = byMarketToken ->
  P.marketTokenAmount p <> 0 ->
  P.shift p = true ->
  P.vaultInfo p = None ->
  longPoolAmount (P.marketInfo p) = 0 ->
  shortPoolAmount (P.marketInfo p) = 0 ->
  getMidPrice (prices (P.longToken p)) <> 0 ->
  getMidPrice (prices (P.shortToken p)) <> 0 ->
  maxPrice (prices (P.longToken p)) <> 0 ->
  maxPrice (prices (P.shortToken p)) <> 0 ->
  getDepositAmounts p = Err RangeError.
Proof.
  intros Hs Hm Hsh Hv Hlp Hsp Hml Hms Hxl Hxs.
  unfold getDepositAmounts. rewrite Hs. unfold depositByMarketToken, vaultShortcut.
  apply Z.eqb_neq in Hm. rewrite Hm, Hv.
  replace (if P.isMarketTokenDeposit p then None else None)
    with (@None GlvMarketInfo) by (destruct (P.isMarketTokenDeposit p); reflexivity).
  unfold splitStage, prevLongTokenUsd, prevShortTokenUsd, marketTokenValuation.
  rewrite Hv, !convertToUsd_Some by assumption. cbn [Js.add Js.arith bind].
  unfold splitUsd. rewrite Hsh, Hlp, Hsp.
  rewrite !convertToUsd_Some by assumption. fields.
  rewrite !Z.mul_0_l, !quot_0_expandDecimals.
  reflexivity.
Qed.

(** C8. Proportional split: in a byMarketToken call that is not a
    shift, includes both sides and has previous holdings L and S at mid
    price with L + S > 0, the split made before the fee and impact
    redistribution is longTokenUsd = marketTokenUsd * L / (L + S) truncated
    and shortTokenUsd = marketTokenUsd - longTokenUsd.  The ratio is L / S up
    to that truncation: shortTokenUsd * L - longTokenUsd * S is the
    remainder of marketTokenUsd * L by L + S, smaller than L + S in absolute
    value, non-negative for non-negative amounts, and zero exactly when
    L + S divides marketTokenUsd * L. *)
Theorem proportional_split (p : P.t) (L S M : Z) :
  P.shift p = false ->
  P.includeLongToken p = true ->
  P.includeShortToken p = true ->
  prevLongTokenUsd p = Some L ->
  prevShortTokenUsd p = Some S ->
  0 < L + S ->
  marketTokenUsd (marketTokenValuation p) = Some M ->
  exists v l s,
    splitStage p = Ok v /\
    longTokenUsd v = Some l /\ shortTokenUsd v = Some s /\
    l = Z.quot (M * L) (L + S) /\ s = M - l /\
    s * L - l * S = Z.rem (M * L) (L + S) /\
    Z.abs (s * L - l * S) < L + S /\
    (0 <= M -> 0 <= L -> 0 <= s * L - l * S) /\
    (l * S = s * L <-> (L + S | M * L)).
Proof.
  intros Hsh Hil His HL HS Hpos HM.
  exists (set_shortTokenUsd
            (set_longTokenUsd (marketTokenValuation p)
               (Some (Z.quot (M * L) (L + S))))
            (Some (M - Z.quot (M * L) (L + S)))),
         (Z.quot (M * L) (L + S)), (M - Z.quot (M * L) (L + S)).
  assert (Hrem : (M - Z.quot (M * L) (L + S)) * L - Z.quot (M * L) (L + S) * S
                 = Z.rem (M * L) (L + S)).
  { pose proof (Z.quot_rem' (M * L) (L + S)) as E. lia. }
  split.
  { unfold splitStage. rewrite HL, HS. cbn [Js.add Js.arith bind].
    unfold splitUsd. rewrite Hsh, Hil, His. cbn [andb Js.gt0].
    replace (0 <? L + S) with true by (symmetry; apply Z.ltb_lt; exact Hpos).
    rewrite HM. unfold bigMath.mulDiv. cbn [Js.mul Js.div Js.arith bind].
    replace (L + S =? 0) with false by (symmetry; apply Z.eqb_neq; lia).
    fields. rewrite HM. reflexivity. }
  fields. conjs; try eqs; try exact Hrem.
  - rewrite Hrem. pose proof (Z.rem_bound_abs (M * L) (L + S)) as B. lia.
  - intros HM0 HL0. rewrite Hrem.
    apply (Z.rem_bound_pos (M * L) (L + S)); nia.
  - split.
    + intros E. apply Z.rem_divide; lia.
    + intros D. apply Z.rem_divide in D; lia.
Qed.

(** C7. Price impact in the byMarketToken strategy: after the fees are added
    to [longTokenUsd] and [shortTokenUsd], the impact step changes the two
    sides only when [swapPriceImpactDeltaUsd] is negative, and then adds to
    each side its proportional share of the impact magnitude; a positive (or
    zero) impact leaves [values] as it is, so that the whole redistribution
    is then the fee redistribution alone. *)
Theorem impact_redistributed_only_when_negative
    (values : DepositAmounts) (totalDepositUsd : jsval) :
  (forall v, redistributeImpact values totalDepositUsd = Ok v -> v <> values ->
             Js.lt0 (swapPriceImpactDeltaUsd values) = true) /\
  (forall i, swapPriceImpactDeltaUsd values = Some i -> 0 <= i ->
             redistributeImpact values totalDepositUsd = Ok values) /\
  (forall i l s t,
     swapPriceImpactDeltaUsd values = Some i -> i < 0 ->
     longTokenUsd values = Some l -> shortTokenUsd values = Some s ->
     totalDepositUsd = Some t -> 0 < t ->
     redistributeImpact values totalDepositUsd =
       Ok (set_shortTokenUsd
             (set_longTokenUsd values (Some (l + Z.quot (- i * l) t)))
             (Some (s + Z.quot (- i * s) t)))) /\
  (forall i, swapPriceImpactDeltaUsd values = Some i -> 0 <= i ->
     redistribute values =
       (totalFee <- Js.add (swapFeeUsd values) (uiFeeUsd values) ;;
        total <- Js.add (longTokenUsd values) (shortTokenUsd values) ;;
        if Js.gt0 total then
          v <- redistributeFees values totalFee total ;;
          _ <- Js.add (longTokenUsd v) (shortTokenUsd v) ;;
          Ok v
        else Ok values)).
Proof.
  assert (Hpos : forall vs t i, swapPriceImpactDeltaUsd vs = Some i -> 0 <= i ->
                   redistributeImpact vs t = Ok vs).
  { intros vs t i Hi Hge. unfold redistributeImpact. rewrite Hi. cbn [Js.lt0].
    replace (i <? 0) with false by (symmetry; apply Z.ltb_ge; exact Hge).
    reflexivity. }
  conjs.
  - intros v Hv Hne. unfold redistributeImpact in Hv.
    destruct (Js.lt0 (swapPriceImpactDeltaUsd values)); [reflexivity|].
    cbn [andb] in Hv. congruence.
  - intros i. apply Hpos.
  - intros i l s t Hi Hneg Hl Hs Ht Htpos. unfold redistributeImpact.
    rewrite Hi, Ht. cbn [Js.lt0 Js.gt0 Js.neg option_map].
    replace (i <? 0) with true by (symmetry; apply Z.ltb_lt; exact Hneg).
    replace (0 <? t) with true by (symmetry; apply Z.ltb_lt; exact Htpos).
    cbn [andb]. rewrite Hl. unfold bigMath.mulDiv.
    cbn [Js.mul Js.div Js.add Js.arith bind].
    replace (t =? 0) with false by (symmetry; apply Z.eqb_neq; lia).
    fields. rewrite Hi, Hs.
    cbn [Js.neg option_map Js.mul Js.div Js.add Js.arith bind].
    replace (t =? 0) with false by (symmetry; apply Z.eqb_neq; lia).
    reflexivity.
  - intros i Hi Hge. unfold redistribute.
    destruct (Js.add (swapFeeUsd values) (uiFeeUsd values)) as [totalFee|]; [|reflexivity].
    cbn [bind].
    destruct (Js.add (longTokenUsd values) (shortTokenUsd values)) as [total|]; [|reflexivity].
    cbn [bind]. destruct (Js.gt0 total); [|reflexivity].
    destruct (redistributeFees values totalFee total) as [v|] eqn:Hv; [|reflexivity].
    cbn [bind].
    destruct (Js.add (longTokenUsd v) (shortTokenUsd v)) as [total'|]; [|reflexivity].
    cbn [bind]. apply (Hpos v total' i); [|exact Hge].
    rewrite <- Hi. unfold redistributeFees in Hv.
    repeat match type of Hv with
           | bind ?m _ = Ok _ =>
               let x := fresh "x" in let E := fresh "E" in
               destruct (bind_Ok_inv _ _ _ Hv) as [x [E Hv']]; clear Hv; rename Hv' into Hv
           end.
    injection Hv as <-. reflexivity.
Qed.

Lemma mint_run (marketInfo : MarketInfo)
    (marketToken tokenIn tokenOut : TokenData) (amount share swapFee uiFee : Z) :
  minPrice (prices tokenIn) <> 0 ->
  (0 < share -> maxPrice (prices tokenOut) <> 0) ->
  getMarketTokenAmountByCollateral marketInfo marketToken tokenIn tokenOut
    (Some amount) (Some share) (Some swapFee) (Some uiFee)
    = Ok (Some (mintBySpec marketInfo marketToken tokenIn tokenOut
                  amount share swapFee uiFee)).
Proof.
  intros Hmin Hmax.
  unfold getMarketTokenAmountByCollateral, mintBySpec, inputSideMint, bonusMint,
    feeAmount.
  rewrite !convertToTokenAmount_Some by exact Hmin.
  cbn [Js.sub Js.arith bind Js.gt0 Js.arg].
  destruct (0 <? share) eqn:Hs.
  - apply Z.ltb_lt in Hs.
    rewrite convertToUsd_Some by (apply Hmax; exact Hs).
    cbn [Js.arg Js.add Js.arith bind].
    rewrite convertToUsd_Some by exact Hmin.
    cbn [Js.arg Js.add Js.arith bind]. reflexivity.
  - cbn [Js.arg Js.add Js.arith bind].
    rewrite convertToUsd_Some by exact Hmin.
    cbn [Js.arg Js.add Js.arith bind]. reflexivity.
Qed.

(** C6. Per-side minting: on bigint arguments and priced tokens,
    [getMarketTokenAmountByCollateral] returns what section 4.1a describes.
    With a positive impact share the capped bonus amount is taken in
    [tokenOut], valued at its maximum price and minted in addition to the
    mint for the post-fee [tokenIn] amount at [tokenIn]'s minimum price, a
    term the share does not enter, so the result is never below that
    input-side mint when the bonus and the price are non-negative and the
    market mints nothing negative for a non-negative value.  With a negative
    or zero share the capped impact amount is added to the post-fee amount
    before the single valuation and mint. *)
Theorem per_side_minting (marketInfo : MarketInfo)
    (marketToken tokenIn tokenOut : TokenData) (amount share swapFee uiFee : Z) :
  minPrice (prices tokenIn) <> 0 ->
  (0 < share -> maxPrice (prices tokenOut) <> 0) ->
  let postFee := amount - feeAmount tokenIn swapFee - feeAmount tokenIn uiFee in
  getMarketTokenAmountByCollateral marketInfo marketToken tokenIn tokenOut
    (Some amount) (Some share) (Some swapFee) (Some uiFee)
    = Ok (Some (mintBySpec marketInfo marketToken tokenIn tokenOut
                  amount share swapFee uiFee)) /\
  (0 < share ->
   mintBySpec marketInfo marketToken tokenIn tokenOut amount share swapFee uiFee
     = bonusMint marketInfo marketToken tokenOut share
       + inputSideMint marketInfo marketToken tokenIn postFee) /\
  (0 < share ->
   0 <= applySwapImpactWithCap marketInfo tokenOut share ->
   0 <= maxPrice (prices tokenOut) ->
   (forall usd, 0 <= usd -> 0 <= usdToMarketTokenAmount marketInfo marketToken usd) ->
   inputSideMint marketInfo marketToken tokenIn postFee
     <= mintBySpec marketInfo marketToken tokenIn tokenOut amount share swapFee uiFee) /\
  (share <= 0 ->
   mintBySpec marketInfo marketToken tokenIn tokenOut amount share swapFee uiFee
     = inputSideMint marketInfo marketToken tokenIn
         (postFee + applySwapImpactWithCap marketInfo tokenIn share)).
Proof.
  intros Hmin Hmax postFee.
  assert (Hcase : 0 < share ->
    mintBySpec marketInfo marketToken tokenIn tokenOut amount share swapFee uiFee
      = bonusMint marketInfo marketToken tokenOut share
        + inputSideMint marketInfo marketToken tokenIn postFee).
  { intros Hs. unfold mintBySpec.
    replace (0 <? share) with true by (symmetry; apply Z.ltb_lt; exact Hs).
    reflexivity. }
  conjs.
  - apply mint_run; assumption.
  - exact Hcase.
  - intros Hs Hbonus Hprice Hmint. rewrite (Hcase Hs).
    assert (0 <= bonusMint marketInfo marketToken tokenOut share); [|lia].
    unfold bonusMint. apply Hmint. apply Z.quot_pos.
    + apply Z.mul_nonneg_nonneg; assumption.
    + apply expandDecimals_pos.
  - intros Hs. unfold mintBySpec.
    replace (0 <? share) with false by (symmetry; apply Z.ltb_ge; exact Hs).
    reflexivity.
Qed.

(** C10. A byMarketToken call for a non-zero amount that is not a
    shift, has no vault, includes neither side and whose long and short mid
    prices are not zero returns zero long/short USD values and token amounts,
    while the swap fee and the UI fee are the truncated products of the whole
    [marketTokenUsd] and their factors: the fees are reported although the
    redistribution into the two sides is skipped.  Each fee is positive
    exactly when the product of [marketTokenUsd] and the factor reaches the
    factor precision. *)
Theorem fees_without_collateral_leg (p : P.t) :
  P.strategy p = byMarketToken ->
  0 < P.marketTokenAmount p ->
  P.shift p = false ->
  P.vaultInfo p = None ->
  P.includeLongToken p = false ->
  P.includeShortToken p = false ->
  getMidPrice (prices (P.longToken p)) <> 0 ->
  getMidPrice (prices (P.shortToken p)) <> 0 ->
  let usd :=
    marketTokenAmountToUsd (P.marketInfo p) (P.marketToken p) (P.marketTokenAmount p) in
  let impact :=
    getPriceImpactForSwap (P.marketInfo p) (P.longToken p) (P.shortToken p) 0 0 in
  let swapFactor :=
    if 0 <? impact then swapFeeFactorForPositiveImpact (P.marketInfo p)
    else swapFeeFactorForNegativeImpact (P.marketInfo p) in
  exists v swapFee uiFee,
    getDepositAmounts p = Ok v /\
    longTokenUsd v = Some 0 /\ shortTokenUsd v = Some 0 /\
    longTokenAmount v = Some 0 /\ shortTokenAmount v = Some 0 /\
    marketTokenUsd v = Some usd /\
    swapFeeUsd v = Some swapFee /\ uiFeeUsd v = Some uiFee /\
    swapFee = Z.quot (usd * swapFactor) PRECISION /\
    uiFee = Z.quot (usd * P.uiFeeFactor p) PRECISION /\
    (0 <= usd -> 0 <= swapFactor -> (0 < swapFee <-> PRECISION <= usd * swapFactor)) /\
    (0 <= usd -> 0 <= P.uiFeeFactor p ->
     (0 < uiFee <-> PRECISION <= usd * P.uiFeeFactor p)).
Proof.
  intros Hs Hm Hsh Hv Hil His Hml Hms usd impact swapFactor.
  eexists; exists (Z.quot (usd * swapFactor) PRECISION),
                  (Z.quot (usd * P.uiFeeFactor p) PRECISION).
  split.
  { unfold getDepositAmounts. rewrite Hs. unfold depositByMarketToken.
    replace (P.marketTokenAmount p =? 0) with false
      by (symmetry; apply Z.eqb_neq; lia).
    rewrite (vaultShortcut_no_vault p Hv).
    unfold splitStage, prevLongTokenUsd, prevShortTokenUsd, marketTokenValuation.
    rewrite Hv, !convertToUsd_Some by assumption.
    cbn [Js.add Js.arith bind]. unfold splitUsd. rewrite Hsh, Hil, His.
    cbn [andb bind]. unfold impactAndFees. fields. cbn [Js.arg bind].
    rewrite Hsh. cbn [negb]. unfold getSwapFee. fields. cbn [Js.gt0].
    fold impact. fold swapFactor. fold usd. rewrite !applyFactor_Some.
    cbn [bind Js.add Js.arith]. fields. rewrite !applyFactor_Some.
    cbn [bind Js.add Js.arith]. unfold redistribute. fields.
    cbn [bind Js.add Js.arith Js.gt0 Z.add Z.ltb Z.compare].
    fields. rewrite !convertToTokenAmount_Some by assumption.
    rewrite !Z.mul_0_l, !Z.quot_0_l by assumption. reflexivity. }
  fields. conjs; try eqs.
  - intros Hu Hf. apply quot_pos_iff; [nia | apply PRECISION_pos].
  - intros Hu Hf. apply quot_pos_iff; [nia | apply PRECISION_pos].
Qed.

Lemma splitUsd_sameMarketToken (p : P.t) (values v : DepositAmounts) (a b c : jsval) :
  splitUsd p values a b c = Ok v -> sameMarketToken values v.
Proof.
  unfold splitUsd. intros H. steps H; split; reflexivity.
Qed.

Lemma impactAndFees_sameMarketToken (p : P.t) (values v : DepositAmounts) :
  impactAndFees p values = Ok v -> sameMarketToken values v.
Proof.
  unfold impactAndFees. intros H. fields. steps H; split; reflexivity.
Qed.

Lemma redistribute_sameMarketToken (values v : DepositAmounts) :
  redistribute values = Ok v -> sameMarketToken values v.
Proof.
  unfold redistribute, redistributeFees, redistributeImpact. intros H.
  steps H; split; reflexivity.
Qed.

Lemma wrapToVault_spec (p : P.t) (values : DepositAmounts) :
  vaultShortcut p = None ->
  marketTokenUsd (wrapToVault p values) = marketTokenUsd values /\
  (P.vaultInfo p = None ->
   marketTokenAmount (wrapToVault p values) = marketTokenAmount values) /\
  (forall vault, P.vaultInfo p = Some vault ->
     marketTokenAmount (wrapToVault p values) = marketTokenAmount values \/
     (marketTokenAmount (wrapToVault p values) =
        convertToTokenAmount (marketTokenUsd (wrapToVault p values))
          (decimals (indexToken vault)) (maxPrice (prices (indexToken vault))) /\
      Js.gt0 (marketTokenAmount (wrapToVault p values)) = true)).
Proof.
  intros Hcut. unfold vaultShortcut in Hcut. unfold wrapToVault.
  destruct (P.vaultInfo p) as [vault|].
  - destruct (P.isMarketTokenDeposit p); [discriminate Hcut|].
    destruct (convertToTokenAmount (marketTokenUsd values)
                (decimals (indexToken vault))
                (maxPrice (prices (indexToken vault)))) as [g|] eqn:Hg.
    + destruct (0 <? g) eqn:Hpos; fields.
      * split; [reflexivity|]. split; [intros E; discriminate E|].
        intros vault' Hv. injection Hv as <-. right.
        split; [symmetry; exact Hg | exact Hpos].
      * split; [reflexivity|]. split; [intros E; discriminate E|].
        intros vault' Hv. left. reflexivity.
    + split; [reflexivity|]. split; [intros E; discriminate E|].
      intros vault' Hv. left. reflexivity.
  - split; [reflexivity|]. split; [intros _; reflexivity|].
    intros vault' Hv. discriminate Hv.
Qed.

(** C3. [marketTokenUsd] against [marketTokenAmount].  In a
    byCollaterals call that gets past the zero short-circuit and the vault
    shortcut, [marketTokenUsd] is [convertToUsd] of the minted market-token
    amount at the market token's decimals and minimum price; the returned
    [marketTokenAmount] is that amount when no vault wraps the market, and
    otherwise either that amount or the positive vault amount that
    [marketTokenUsd] buys at the vault index token's maximum price, which
    replaces it without [marketTokenUsd] being recomputed.  In a
    byMarketToken call for a non-zero amount, [marketTokenAmount] is the
    requested amount and [marketTokenUsd] its value by the market pricing
    function, or by [convertToUsd] at the vault index token's decimals and
    minimum price when there is a vault. *)
Theorem marketTokenUsd_recomputable (p : P.t) (v : DepositAmounts) :
  getDepositAmounts p = Ok v ->
  (P.strategy p = byCollaterals ->
   vaultShortcut p = None ->
   P.longTokenAmount p <> 0 \/ P.shortTokenAmount p <> 0 ->
   exists minted,
     marketTokenUsd v =
       convertToUsd minted (decimals (P.marketToken p))
         (minPrice (prices (P.marketToken p))) /\
     (P.vaultInfo p = None -> marketTokenAmount v = minted) /\
     (forall vault, P.vaultInfo p = Some vault ->
        marketTokenAmount v = minted \/
        (marketTokenAmount v =
           convertToTokenAmount (marketTokenUsd v) (decimals (indexToken vault))
             (maxPrice (prices (indexToken vault))) /\
         Js.gt0 (marketTokenAmount v) = true))) /\
  (P.strategy p = byMarketToken ->
   P.marketTokenAmount p <> 0 ->
   marketTokenAmount v = Some (P.marketTokenAmount p) /\
   marketTokenUsd v =
     match P.vaultInfo p with
     | Some vault =>
         convertToUsd (marketTokenAmount v) (decimals (indexToken vault))
           (minPrice (prices (indexToken vault)))
     | None =>
         Some (marketTokenAmountToUsd (P.marketInfo p) (P.marketToken p)
                 (P.marketTokenAmount p))
     end).
Proof.
  intros H. unfold getDepositAmounts in H. split.
  - intros Hs Hcut Hnz. rewrite Hs in H. unfold depositByCollaterals in H.
    replace ((P.longTokenAmount p =? 0) && (P.shortTokenAmount p =? 0)) with false in H
      by (symmetry; apply andb_false_iff; destruct Hnz as [Hn|Hn];
          [left|right]; apply Z.eqb_neq; exact Hn).
    rewrite Hcut in H. fields.
    steps H;
      match goal with
      | |- context [wrapToVault p (set_marketTokenUsd ?vs ?u)] =>
          destruct (wrapToVault_spec p (set_marketTokenUsd vs u) Hcut) as [U [A B]];
          exists (marketTokenAmount vs); split; [exact U|];
          split; [exact A | exact B]
      end.
  - intros Hs Hnz. rewrite Hs in H. unfold depositByMarketToken in H.
    apply Z.eqb_neq in Hnz. rewrite Hnz in H.
    assert (Hval : marketTokenAmount (marketTokenValuation p) = Some (P.marketTokenAmount p) /\
                   marketTokenUsd (marketTokenValuation p) =
                   match P.vaultInfo p with
                   | Some vault =>
                       convertToUsd (Some (P.marketTokenAmount p))
                         (decimals (indexToken vault))
                         (minPrice (prices (indexToken vault)))
                   | None =>
                       Some (marketTokenAmountToUsd (P.marketInfo p) (P.marketToken p)
                               (P.marketTokenAmount p))
                   end).
    { unfold marketTokenValuation. destruct (P.vaultInfo p); split; reflexivity. }
    destruct Hval as [Ha Hu].
    assert (Hsame : sameMarketToken (marketTokenValuation p) v).
    { destruct (vaultShortcut p).
      - injection H as <-. split; reflexivity.
      - unfold splitStage in H. steps H.
        match goal with
        | E1 : splitUsd _ _ _ _ _ = Ok ?v1, E2 : impactAndFees _ ?v1 = Ok ?v2,
          E3 : redistribute ?v2 = Ok ?v3 |- _ =>
            destruct (splitUsd_sameMarketToken _ _ _ _ _ _ E1) as [A1 U1];
            destruct (impactAndFees_sameMarketToken _ _ _ E2) as [A2 U2];
            destruct (redistribute_sameMarketToken _ _ E3) as [A3 U3]
        end.
        split; fields; congruence. }
    destruct Hsame as [Ha' Hu']. rewrite Ha', Hu', Ha. split; [reflexivity|].
    exact Hu.
Qed.

(** ** Runs on valid inputs *)

Lemma getMidPrice_pos (token : TokenData) :
  priced token -> 0 < getMidPrice (prices token).
Proof.
  intros [Hmin Hmax]. unfold getMidPrice.
  apply Z.quot_str_pos. lia.
Qed.

Lemma collateralLeg_run (p : P.t) (values : DepositAmounts)
    (tokenIn tokenOut : TokenData) (sf uf m i u a t : Z) :
  swapFeeUsd values = Some sf ->
  uiFeeUsd values = Some uf ->
  marketTokenAmount values = Some m ->
  swapPriceImpactDeltaUsd values = Some i ->
  t <> 0 ->
  minPrice (prices tokenIn) <> 0 ->
  maxPrice (prices tokenOut) <> 0 ->
  collateralLeg p values tokenIn tokenOut (Some u) (Some a) (Some t) =
    Ok (set_marketTokenAmount
          (set_uiFeeUsd
             (set_swapFeeUsd values (Some (sf + sideSwapFee p i u)))
             (Some (uf + Z.quot (u * P.uiFeeFactor p) PRECISION)))
          (Some (m + mintBySpec (P.marketInfo p) (P.marketToken p) tokenIn tokenOut
                       a (Z.quot (i * u) t) (sideSwapFee p i u)
                       (Z.quot (u * P.uiFeeFactor p) PRECISION)))).
Proof.
  intros Hsf Huf Hm Hi Ht Hmin Hmax.
  unfold collateralLeg, sideSwapFee, getSwapFee. rewrite Hi. cbn [Js.gt0].
  destruct (P.shift p); cbn [bind]; rewrite ?applyFactor_Some; cbn [bind];
    rewrite Hsf; cbn [Js.add Js.arith bind]; fields; rewrite Huf, Hi;
    cbn [Js.add Js.arith bind]; fields; unfold bigMath.mulDiv;
    cbn [Js.mul Js.div Js.arith bind];
    replace (t =? 0) with false by (symmetry; apply Z.eqb_neq; exact Ht);
    cbn [bind]; rewrite mint_run by (try exact Hmin; intros _; exact Hmax);
    cbn [bind]; rewrite Hm; reflexivity.
Qed.

Lemma collateralUsd_nonneg (amount : Z) (token : TokenData) :
  0 <= amount -> priced token -> 0 <= collateralUsd amount token.
Proof.
  intros Ha Hp. unfold collateralUsd. apply Z.quot_pos.
  - pose proof (getMidPrice_pos token Hp). nia.
  - apply expandDecimals_pos.
Qed.

(** On a valid input the byCollaterals branch, past its two early returns,
    returns: every division has a non-zero divisor and every conversion a
    price. *)
Lemma byCollaterals_run (p : P.t) :
  validInput p ->
  vaultShortcut p = None ->
  P.longTokenAmount p <> 0 \/ P.shortTokenAmount p <> 0 ->
  depositByCollaterals p =
    Ok (wrapToVault p
          (set_marketTokenUsd (legsValues p)
             (convertToUsd (marketTokenAmount (legsValues p))
                (decimals (P.marketToken p)) (minPrice (prices (P.marketToken p)))))).
Proof.
  intros V Hcut Hnz. unfold depositByCollaterals.
  replace ((P.longTokenAmount p =? 0) && (P.shortTokenAmount p =? 0)) with false
    by (symmetry; apply andb_false_iff; destruct Hnz as [Hn|Hn];
        [left|right]; apply Z.eqb_neq; exact Hn).
  rewrite Hcut.
  pose proof (getMidPrice_pos _ (valid_longToken p V)) as Hml.
  pose proof (getMidPrice_pos _ (valid_shortToken p V)) as Hms.
  destruct (valid_longToken p V) as [Hlmin Hlmax].
  destruct (valid_shortToken p V) as [Hsmin Hsmax].
  pose proof (collateralUsd_nonneg _ _ (valid_longAmount p V) (valid_longToken p V)) as Hlu.
  pose proof (collateralUsd_nonneg _ _ (valid_shortAmount p V) (valid_shortToken p V)) as Hsu.
  rewrite !convertToUsd_Some by lia. fields. cbn [Js.arg Js.add Js.arith bind Js.gt0].
  fold (collateralUsd (P.longTokenAmount p) (P.longToken p)).
  fold (collateralUsd (P.shortTokenAmount p) (P.shortToken p)).
  unfold legsValues, legMint, legSwapFee, legUiFee.
  set (lu := collateralUsd (P.longTokenAmount p) (P.longToken p)) in *.
  set (su := collateralUsd (P.shortTokenAmount p) (P.shortToken p)) in *.
  set (i := getPriceImpactForSwap _ _ _ lu su).
  destruct (0 <? lu) eqn:El.
  - apply Z.ltb_lt in El.
    erewrite collateralLeg_run by (try reflexivity; lia).
    cbn [bind]; fields; cbn [Js.gt0].
    destruct (0 <? su) eqn:Es.
    + erewrite collateralLeg_run by (try reflexivity; lia).
      cbn [bind]; fields. reflexivity.
    + cbn [bind]; fields. rewrite !Z.add_0_r. reflexivity.
  - cbn [bind]; fields; cbn [Js.gt0].
    destruct (0 <? su) eqn:Es.
    + apply Z.ltb_lt in Es.
      erewrite collateralLeg_run by (try reflexivity; lia).
      cbn [bind]; fields. reflexivity.
    + cbn [bind]; fields. reflexivity.
Qed.

(** Non-negativity of truncated quotients, sums and products. *)
Ltac nn :=
  repeat first
    [ assumption
    | apply expandDecimals_pos
    | apply PRECISION_pos
    | lia
    | apply Z.quot_pos
    | apply Z.add_nonneg_nonneg
    | apply Z.mul_nonneg_nonneg ].

Lemma nonNegative_Some (z : Z) : 0 <= z -> nonNegative (Some z).
Proof. intros H. exists z. split; [reflexivity | exact H]. Qed.

Lemma convertToUsd_nonNegative (a : Z) (d : nat) (pr : Z) :
  0 <= a -> 0 < pr -> nonNegative (convertToUsd (Some a) d pr).
Proof.
  intros Ha Hp. rewrite convertToUsd_Some by lia. apply nonNegative_Some. nn.
Qed.

Lemma convertToTokenAmount_nonNegative (u : Z) (d : nat) (pr : Z) :
  0 <= u -> 0 < pr -> nonNegative (convertToTokenAmount (Some u) d pr).
Proof.
  intros Hu Hp. rewrite convertToTokenAmount_Some by lia. apply nonNegative_Some.
  apply Z.quot_pos; [|exact Hp]. pose proof (expandDecimals_pos d). nia.
Qed.

Lemma splitUsd_sameButSides (p : P.t) (values v : DepositAmounts) (a b c : jsval) :
  splitUsd p values a b c = Ok v -> sameButSides values v.
Proof.
  unfold splitUsd, sameButSides. intros H. steps H; conjs; reflexivity.
Qed.

Lemma redistribute_sameButSides (values v : DepositAmounts) :
  redistribute values = Ok v -> sameButSides values v.
Proof.
  unfold redistribute, redistributeFees, redistributeImpact, sameButSides.
  intros H. steps H; conjs; reflexivity.
Qed.

Lemma splitUsd_nonNegative (p : P.t) (values v : DepositAmounts) (L S M : Z) :
  validInput p ->
  marketTokenUsd values = Some M -> 0 <= M ->
  longTokenUsd values = Some 0 -> shortTokenUsd values = Some 0 ->
  0 <= L -> 0 <= S ->
  splitUsd p values (Some L) (Some S) (Some (L + S)) = Ok v ->
  nonNegative (longTokenUsd v) /\ nonNegative (shortTokenUsd v).
Proof.
  intros V HM HM0 Hl Hs HL HS H.
  destruct (valid_longToken p V) as [_ Hlmax].
  destruct (valid_shortToken p V) as [_ Hsmax].
  pose proof (valid_longPool p V) as Hlp.
  pose proof (valid_shortPool p V) as Hsp.
  unfold splitUsd in H. fields. rewrite ?HM in H.
  rewrite !convertToUsd_Some in H by lia.
  steps H; fields; rewrite ?Hl, ?Hs, ?HM; bools; split; apply nonNegative_Some;
    try solve [nn].
  - apply Z.quot_pos; [nn|].
    match goal with
    | Hne : ?a + ?b <> 0 |- 0 < ?a + ?b =>
        assert (0 <= a) by nn; assert (0 <= b) by nn; lia
    end.
  - apply Z.quot_pos; [nn|].
    match goal with
    | Hne : ?a + ?b <> 0 |- 0 < ?a + ?b =>
        assert (0 <= a) by nn; assert (0 <= b) by nn; lia
    end.
  - assert (Z.quot (M * L) (L + S) <= M); [|lia].
    apply Z.quot_le_upper_bound; nia.
Qed.

Lemma impactAndFees_run (p : P.t) (values : DepositAmounts) (l s M sf uf : Z) :
  longTokenUsd values = Some l -> shortTokenUsd values = Some s ->
  marketTokenUsd values = Some M ->
  swapFeeUsd values = Some sf -> uiFeeUsd values = Some uf ->
  let impact :=
    getPriceImpactForSwap (P.marketInfo p) (P.longToken p) (P.shortToken p) l s in
  let swapFee :=
    if P.shift p then 0
    else Z.quot (M * (if 0 <? impact
                      then swapFeeFactorForPositiveImpact (P.marketInfo p)
                      else swapFeeFactorForNegativeImpact (P.marketInfo p)))
           PRECISION in
  impactAndFees p values =
    Ok (set_uiFeeUsd
          (set_swapFeeUsd (set_swapPriceImpactDeltaUsd values (Some impact))
             (Some (sf + swapFee)))
          (Some (uf + Z.quot (M * P.uiFeeFactor p) PRECISION))).
Proof.
  intros Hl Hs HM Hsf Huf impact swapFee.
  unfold impactAndFees. rewrite Hl, Hs. cbn [Js.arg bind]. fold impact. fields.
  unfold swapFee, getSwapFee.
  destruct (P.shift p); cbn [negb bind]; fields; rewrite ?HM, ?Hsf, ?Huf;
    cbn [Js.gt0]; rewrite ?applyFactor_Some; cbn [bind Js.add Js.arith]; fields;
    rewrite ?HM, ?Huf, ?applyFactor_Some; cbn [bind Js.add Js.arith];
    rewrite ?Z.add_0_r; try reflexivity.
  destruct values; cbn in *. subst. reflexivity.
Qed.

Lemma redistribute_nonNegative (values v : DepositAmounts) (l s sf uf i : Z) :
  longTokenUsd values = Some l -> 0 <= l ->
  shortTokenUsd values = Some s -> 0 <= s ->
  swapFeeUsd values = Some sf -> 0 <= sf ->
  uiFeeUsd values = Some uf -> 0 <= uf ->
  swapPriceImpactDeltaUsd values = Some i ->
  redistribute values = Ok v ->
  nonNegative (longTokenUsd v) /\ nonNegative (shortTokenUsd v).
Proof.
  intros Hl Hl0 Hs Hs0 Hsf Hsf0 Huf Huf0 Hi H.
  destruct values; fields; subst.
  unfold redistribute, redistributeFees, redistributeImpact in H.
  steps H; fields; bools; split; apply nonNegative_Some; nn.
Qed.

Lemma orZero_convertToUsd_nonneg (a : jsval) (d : nat) (pr : Z) :
  (forall z, a = Some z -> 0 <= z) -> 0 < pr ->
  0 <= Js.orZero (convertToUsd a d pr).
Proof.
  intros Ha Hp. destruct a as [z|]; [|cbv [convertToUsd Js.orZero]; lia].
  rewrite convertToUsd_Some by lia. cbn [Js.orZero].
  specialize (Ha z eq_refl). nn.
Qed.

Lemma orZero_convertToTokenAmount_nonneg (u : jsval) (d : nat) (pr : Z) :
  (forall z, u = Some z -> 0 <= z) -> 0 < pr ->
  0 <= Js.orZero (convertToTokenAmount u d pr).
Proof.
  intros Hu Hp. destruct u as [z|]; [|cbv [convertToTokenAmount Js.orZero]; lia].
  rewrite convertToTokenAmount_Some by lia. cbn [Js.orZero].
  specialize (Hu z eq_refl). apply Z.quot_pos; [|exact Hp].
  pose proof (expandDecimals_pos d). nia.
Qed.

Lemma wrapToVault_sides (p : P.t) (values : DepositAmounts) :
  sidesNonNegative values -> sidesNonNegative (wrapToVault p values).
Proof.
  unfold wrapToVault.
  destruct (P.vaultInfo p) as [vault|]; [|auto].
  destruct (convertToTokenAmount _ _ _) as [g|]; [|auto].
  destruct (0 <? g); auto.
Qed.

Lemma sideSwapFee_nonneg (p : P.t) (impact sideUsd : Z) :
  validInput p -> 0 <= sideUsd -> 0 <= sideSwapFee p impact sideUsd.
Proof.
  intros V Hu. unfold sideSwapFee.
  pose proof (valid_swapFeePositive p V). pose proof (valid_swapFeeNegative p V).
  destruct (P.shift p); [lia|]. destruct (0 <? impact); nn.
Qed.

Lemma vaultShortcut_Some (p : P.t) (vault : GlvMarketInfo) :
  vaultShortcut p = Some vault ->
  P.isMarketTokenDeposit p = true /\ P.vaultInfo p = Some vault.
Proof.
  unfold vaultShortcut. destruct (P.isMarketTokenDeposit p); [auto|discriminate].
Qed.

Lemma byCollaterals_nonNegative (p : P.t) (v : DepositAmounts) :
  validInput p ->
  depositByCollaterals p = Ok v ->
  sidesNonNegative v /\
  (vaultShortcut p <> None -> marketTokenNonNegative v).
Proof.
  intros V H.
  pose proof (getMidPrice_pos _ (valid_longToken p V)) as Hml.
  pose proof (valid_longAmount p V) as Hla.
  pose proof (valid_shortAmount p V) as Hsa.
  destruct ((P.longTokenAmount p =? 0) && (P.shortTokenAmount p =? 0)) eqn:Hz.
  { unfold depositByCollaterals in H. rewrite Hz in H. injection H as <-.
    unfold sidesNonNegative, marketTokenNonNegative. fields.
    conjs; try (intros _; split); apply nonNegative_Some; lia. }
  destruct (vaultShortcut p) as [vault|] eqn:Hcut.
  - unfold depositByCollaterals in H. rewrite Hz, Hcut in H. injection H as <-.
    destruct (vaultShortcut_Some p vault Hcut) as [_ Hv].
    destruct (valid_vault p V vault Hv) as [Hvmin _].
    unfold sidesNonNegative, marketTokenNonNegative. fields.
    conjs; try (intros _; split); try (apply nonNegative_Some; lia).
    + apply convertToUsd_nonNegative; lia.
    + apply nonNegative_Some. apply orZero_convertToTokenAmount_nonneg; [|lia].
      intros z Hzq. rewrite convertToUsd_Some in Hzq by lia.
      injection Hzq as <-. nn.
    + apply nonNegative_Some. apply orZero_convertToUsd_nonneg; [|lia].
      intros z Hzq. injection Hzq as <-.
      apply orZero_convertToTokenAmount_nonneg; [|lia].
      intros z Hzq. rewrite convertToUsd_Some in Hzq by lia.
      injection Hzq as <-. nn.
  - rewrite byCollaterals_run in H; [|exact V|exact Hcut|].
    2:{ apply andb_false_iff in Hz. destruct Hz as [Hz|Hz];
        [left|right]; apply Z.eqb_neq; exact Hz. }
    injection H as <-. split; [|intros Hne; congruence].
    apply wrapToVault_sides. unfold sidesNonNegative, legsValues. fields.
    pose proof (collateralUsd_nonneg _ _ Hla (valid_longToken p V)) as Hlu.
    pose proof (collateralUsd_nonneg _ _ Hsa (valid_shortToken p V)) as Hsu.
    pose proof (valid_uiFeeFactor p V) as Hf.
    conjs; apply nonNegative_Some; try assumption.
    + unfold legSwapFee.
      apply Z.add_nonneg_nonneg;
        match goal with |- 0 <= (if ?c then _ else _) => destruct c end;
        try lia; apply sideSwapFee_nonneg; assumption.
    + unfold legUiFee.
      apply Z.add_nonneg_nonneg;
        match goal with |- 0 <= (if ?c then _ else _) => destruct c end; nn.
Qed.

Lemma marketTokenValuation_fields (p : P.t) :
  validInput p ->
  (forall a, 0 <= a ->
     0 <= marketTokenAmountToUsd (P.marketInfo p) (P.marketToken p) a) ->
  exists M,
    0 <= M /\
    marketTokenValuation p =
      mkDepositAmounts (Some 0) (Some 0) (Some 0) (Some 0)
        (Some (P.marketTokenAmount p)) (Some M) (Some 0) (Some 0) (Some 0).
Proof.
  intros V Hlaw. pose proof (valid_marketAmount p V) as Hm.
  unfold marketTokenValuation.
  destruct (P.vaultInfo p) as [vault|] eqn:Hv.
  - destruct (valid_vault p V vault Hv) as [Hvmin _].
    rewrite convertToUsd_Some by lia. eexists. split; [|reflexivity]. nn.
  - eexists. split; [|reflexivity]. apply Hlaw. exact Hm.
Qed.

Lemma byMarketToken_nonNegative (p : P.t) (v : DepositAmounts) :
  validInput p ->
  (forall a, 0 <= a ->
     0 <= marketTokenAmountToUsd (P.marketInfo p) (P.marketToken p) a) ->
  depositByMarketToken p = Ok v ->
  sidesNonNegative v /\ marketTokenNonNegative v.
Proof.
  intros V Hlaw H.
  pose proof (getMidPrice_pos _ (valid_longToken p V)) as Hml.
  pose proof (getMidPrice_pos _ (valid_shortToken p V)) as Hms.
  pose proof (valid_longAmount p V) as Hla.
  pose proof (valid_shortAmount p V) as Hsa.
  pose proof (valid_marketAmount p V) as Hma.
  destruct (valid_marketToken p V) as [Hmmin _].
  unfold depositByMarketToken in H.
  destruct (P.marketTokenAmount p =? 0).
  { injection H as <-. unfold sidesNonNegative, marketTokenNonNegative. fields.
    conjs; apply nonNegative_Some; lia. }
  destruct (marketTokenValuation_fields p V Hlaw) as [M [HM Hval]].
  destruct (vaultShortcut p).
  - injection H as <-. rewrite Hval.
    unfold sidesNonNegative, marketTokenNonNegative. fields.
    conjs; try (apply nonNegative_Some; lia).
    apply convertToTokenAmount_nonNegative; lia.
  - unfold splitStage, prevLongTokenUsd, prevShortTokenUsd in H.
    rewrite !convertToUsd_Some in H by lia.
    cbn [Js.add Js.arith bind] in H.
    destruct (splitUsd _ _ _ _ _) as [v1|] eqn:E1; [|discriminate H].
    cbn [bind] in H.
    destruct (splitUsd_sameButSides _ _ _ _ _ _ E1) as [A1 [U1 [F1 [G1 _]]]].
    rewrite Hval in E1, A1, U1, F1, G1. fields.
    assert (Hsplit : nonNegative (longTokenUsd v1) /\ nonNegative (shortTokenUsd v1)).
    { refine (splitUsd_nonNegative p _ v1 _ _ M V _ HM _ _ _ _ E1);
        try reflexivity; nn. }
    destruct Hsplit as [[l [El Hl]] [s [Es Hs]]].
    rewrite (impactAndFees_run p v1 l s M 0 0 El Es U1 F1 G1) in H.
    cbn [bind] in H.
    destruct (redistribute _) as [v3|] eqn:E3; [|discriminate H].
    cbn [bind] in H. injection H as <-.
    destruct (redistribute_sameButSides _ _ E3) as [A3 [U3 [F3 [G3 _]]]].
    fields.
    assert (Hfee : forall x, 0 <= x -> 0 <= Z.quot (M * x) PRECISION) by (intros; nn).
    pose proof (valid_swapFeePositive p V). pose proof (valid_swapFeeNegative p V).
    pose proof (valid_uiFeeFactor p V).
    match type of F3 with
    | _ = Some (0 + ?fee) => assert (Hsf : 0 <= fee)
    end.
    { destruct (P.shift p); [lia|]. destruct (0 <? _); apply Hfee; assumption. }
    assert (Hred : nonNegative (longTokenUsd v3) /\ nonNegative (shortTokenUsd v3)).
    { match type of E3 with
      | redistribute
          (set_uiFeeUsd
             (set_swapFeeUsd (set_swapPriceImpactDeltaUsd _ (Some ?i)) (Some ?sf))
             (Some ?uf)) = _ =>
          refine (redistribute_nonNegative _ v3 l s sf uf i _ Hl _ Hs _ _ _ _ _ E3)
      end; fields; try assumption; try reflexivity.
      specialize (Hfee (P.uiFeeFactor p)). lia. }
    destruct Hred as [[l3 [El3 Hl3]] [s3 [Es3 Hs3]]].
    unfold sidesNonNegative, marketTokenNonNegative. fields.
    rewrite El3, Es3, A3, U3, F3, G3, A1, U1.
    conjs; try (apply nonNegative_Some; nn);
      apply convertToTokenAmount_nonNegative; lia.
Qed.

(** On a valid input the byCollaterals strategy returns a result. *)
Lemma byCollaterals_returns (p : P.t) :
  validInput p -> exists v, depositByCollaterals p = Ok v.
Proof.
  intros V.
  destruct ((P.longTokenAmount p =? 0) && (P.shortTokenAmount p =? 0)) eqn:Hz.
  { exists zeroAmounts. unfold depositByCollaterals. rewrite Hz. reflexivity. }
  destruct (vaultShortcut p) as [vault|] eqn:Hcut.
  - unfold depositByCollaterals. rewrite Hz, Hcut. eexists. reflexivity.
  - eexists. apply byCollaterals_run; [exact V|exact Hcut|].
    apply andb_false_iff in Hz. destruct Hz as [Hz|Hz];
      [left|right]; apply Z.eqb_neq; exact Hz.
Qed.

(** The general byCollaterals path in closed form: the minted amount, its
    USD value, and the amount after the vault wrap. *)
Lemma wrapToVault_glvAmount (p : P.t) (values : DepositAmounts) :
  wrapToVault p values =
    if Js.gt0 (glvAmount p values)
    then set_marketTokenAmount values (glvAmount p values)
    else values.
Proof.
  unfold wrapToVault, glvAmount. destruct (P.vaultInfo p) as [vault|]; [|reflexivity].
  destruct (convertToTokenAmount _ _ _) as [g|]; [|reflexivity].
  cbn [Js.gt0]. destruct (0 <? g); reflexivity.
Qed.

Lemma mintedValues_usd (p : P.t) :
  validInput p ->
  marketTokenAmount (mintedValues p) = Some (legsMint p) /\
  marketTokenUsd (mintedValues p) = Some (mintedUsd p (legsMint p)).
Proof.
  intros V. destruct (valid_marketToken p V) as [Hmin _].
  unfold mintedValues. fields. split; [reflexivity|].
  change (marketTokenAmount (legsValues p)) with (Some (legsMint p)).
  rewrite convertToUsd_Some by lia. reflexivity.
Qed.

Lemma mintedValues_glv (p : P.t) (vault : GlvMarketInfo) :
  validInput p -> vaultShortcut p = None -> P.vaultInfo p = Some vault ->
  glvAmount p (mintedValues p) = Some (mintedGlv p vault (legsMint p)).
Proof.
  intros V Hcut Hv. destruct (valid_vault p V vault Hv) as [_ Hmax].
  destruct (mintedValues_usd p V) as [_ Hu].
  unfold glvAmount. unfold vaultShortcut in Hcut. rewrite Hv in *.
  destruct (P.isMarketTokenDeposit p); [discriminate Hcut|].
  rewrite Hu, convertToTokenAmount_Some by lia. reflexivity.
Qed.

Lemma mintedValues_no_vault (p : P.t) :
  P.vaultInfo p = None -> glvAmount p (mintedValues p) = None.
Proof. intros Hv. unfold glvAmount. rewrite Hv. reflexivity. Qed.

Lemma mintedUsd_mono (p : P.t) (m m' : Z) :
  validInput p -> m <= m' -> mintedUsd p m <= mintedUsd p m'.
Proof.
  intros V Hm. destruct (valid_marketToken p V) as [Hmin _]. unfold mintedUsd.
  apply Z.quot_le_mono; [apply expandDecimals_pos | nia].
Qed.

Lemma mintedGlv_mono (p : P.t) (vault : GlvMarketInfo) (m m' : Z) :
  validInput p -> P.vaultInfo p = Some vault -> m <= m' ->
  mintedGlv p vault m <= mintedGlv p vault m'.
Proof.
  intros V Hv Hm. destruct (valid_vault p V vault Hv) as [_ Hmax].
  pose proof (mintedUsd_mono p m m' V Hm).
  pose proof (expandDecimals_pos (decimals (indexToken vault))).
  unfold mintedGlv. apply Z.quot_le_mono; [exact Hmax | nia].
Qed.

Lemma mintedUsd_sign (p : P.t) (m : Z) :
  validInput p ->
  (0 <= m -> 0 <= mintedUsd p m) /\ (m <= 0 -> mintedUsd p m <= 0).
Proof.
  intros V. destruct (valid_marketToken p V) as [Hmin _].
  pose proof (expandDecimals_pos (decimals (P.marketToken p))) as He.
  unfold mintedUsd. split; intros Hm.
  - apply Z.quot_pos; nia.
  - apply Z.opp_nonneg_nonpos. rewrite <- Z.quot_opp_l by lia.
    apply Z.quot_pos; nia.
Qed.

Lemma mintedGlv_sign (p : P.t) (vault : GlvMarketInfo) (m : Z) :
  validInput p -> P.vaultInfo p = Some vault -> m <= 0 -> mintedGlv p vault m <= 0.
Proof.
  intros V Hv Hm. destruct (valid_vault p V vault Hv) as [_ Hmax].
  destruct (mintedUsd_sign p m V) as [_ Hu]. specialize (Hu Hm).
  pose proof (expandDecimals_pos (decimals (indexToken vault))) as He.
  unfold mintedGlv. apply Z.opp_nonneg_nonpos. rewrite <- Z.quot_opp_l by lia.
  apply Z.quot_pos; nia.
Qed.

Lemma legsMint_zero_input (p : P.t) :
  P.longTokenAmount p = 0 -> P.shortTokenAmount p = 0 -> legsMint p = 0.
Proof.
  intros Hl Hs. unfold legsMint, legMint, collateralUsd. rewrite Hl, Hs.
  reflexivity.
Qed.

(** What the general byCollaterals path returns for the market token. *)
Lemma byCollaterals_marketToken (p : P.t) (v : DepositAmounts) :
  validInput p -> vaultShortcut p = None ->
  depositByCollaterals p = Ok v ->
  marketTokenUsd v = Some (mintedUsd p (legsMint p)) /\
  marketTokenAmount v =
    (if vaultWraps p then glvAmount p (mintedValues p) else Some (legsMint p)) /\
  (legsMint p <= 0 -> vaultWraps p = false).
Proof.
  intros V Hcut H.
  assert (Hdry : legsMint p <= 0 -> vaultWraps p = false).
  { intros Hm. unfold vaultWraps. destruct (P.vaultInfo p) as [vault|] eqn:Hv.
    - rewrite (mintedValues_glv p vault V Hcut Hv). cbn [Js.gt0].
      apply Z.ltb_ge. apply mintedGlv_sign; assumption.
    - rewrite mintedValues_no_vault by exact Hv. reflexivity. }
  destruct ((P.longTokenAmount p =? 0) && (P.shortTokenAmount p =? 0)) eqn:Hz.
  - unfold depositByCollaterals in H. rewrite Hz in H. injection H as <-.
    bools. rewrite legsMint_zero_input by assumption.
    rewrite legsMint_zero_input in Hdry by assumption.
    rewrite (Hdry (Z.le_refl 0)). fields. unfold mintedUsd.
    conjs; reflexivity.
  - rewrite byCollaterals_run in H; [|exact V|exact Hcut|].
    2:{ apply andb_false_iff in Hz. destruct Hz as [Hz|Hz];
        [left|right]; apply Z.eqb_neq; exact Hz. }
    assert (Hv : v = wrapToVault p (mintedValues p))
      by (injection H as <-; reflexivity).
    subst v. destruct (mintedValues_usd p V) as [Ha Hu].
    rewrite wrapToVault_glvAmount.
    change (Js.gt0 (glvAmount p (mintedValues p))) with (vaultWraps p).
    destruct (vaultWraps p);
      cbn [marketTokenUsd marketTokenAmount set_marketTokenAmount];
      rewrite ?Ha, ?Hu; conjs; try reflexivity; exact Hdry.
Qed.

Lemma inputSideMint_nonneg (marketInfo : MarketInfo) (marketToken tokenIn : TokenData)
    (amount : Z) :
  priced tokenIn ->
  (forall usd, 0 <= usd -> 0 <= usdToMarketTokenAmount marketInfo marketToken usd) ->
  0 <= amount -> 0 <= inputSideMint marketInfo marketToken tokenIn amount.
Proof.
  intros [Hmin _] Hlaw Ha. unfold inputSideMint. apply Hlaw.
  apply Z.quot_pos; [nia | apply expandDecimals_pos].
Qed.

Lemma legMint_nonneg (p : P.t) (tokenIn tokenOut : TokenData)
    (amount impact sideUsd total : Z) :
  priced tokenIn -> priced tokenOut ->
  (forall usd, 0 <= usd ->
     0 <= usdToMarketTokenAmount (P.marketInfo p) (P.marketToken p) usd) ->
  legCovered p tokenIn tokenOut amount impact sideUsd total ->
  0 <= legMint p tokenIn tokenOut amount impact sideUsd total.
Proof.
  intros Hin Hout Hlaw Hcov. unfold legMint, legCovered in *.
  destruct (0 <? sideUsd) eqn:Hu; [|lia]. apply Z.ltb_lt in Hu.
  specialize (Hcov Hu). unfold mintBySpec. cbv zeta in Hcov.
  destruct (0 <? Z.quot (impact * sideUsd) total).
  - destruct Hcov as [Hpost Hbonus]. apply Z.add_nonneg_nonneg.
    + unfold bonusMint. apply Hlaw. destruct Hout as [_ Hmax].
      apply Z.quot_pos; [nia | apply expandDecimals_pos].
    + apply inputSideMint_nonneg; assumption.
  - apply inputSideMint_nonneg; assumption.
Qed.

(** C2. No negative outputs: on a valid input (non-negative
    amounts, pool amounts and fee factors, positive prices, a market pricing
    function that values a non-negative amount non-negatively) every result
    has non-negative [longTokenAmount], [longTokenUsd], [shortTokenAmount],
    [shortTokenUsd], [swapFeeUsd] and [uiFeeUsd]; [marketTokenAmount] and
    [marketTokenUsd] are non-negative in the byMarketToken strategy and on
    the vault shortcut of the byCollaterals strategy.  On the general
    byCollaterals path they are non-negative exactly as far as the amount
    the two legs mint together allows: [marketTokenUsd] is that amount
    valued at the market token's minimum price; when the amount is not
    negative both fields are non-negative; when it is negative it is
    returned as it is, with no vault wrap, and [marketTokenUsd] is not
    positive.  The amount the legs mint is not negative when the market
    mints nothing negative for a non-negative value and each funded leg
    covers what is taken from it. *)
Theorem no_negative_outputs (p : P.t) (v : DepositAmounts) :
  validInput p ->
  (forall a, 0 <= a ->
     0 <= marketTokenAmountToUsd (P.marketInfo p) (P.marketToken p) a) ->
  getDepositAmounts p = Ok v ->
  sidesNonNegative v /\
  (P.strategy p = byMarketToken \/ vaultShortcut p <> None ->
   marketTokenNonNegative v) /\
  (P.strategy p = byCollaterals -> vaultShortcut p = None ->
   marketTokenUsd v = Some (mintedUsd p (legsMint p)) /\
   (0 <= legsMint p -> marketTokenNonNegative v) /\
   (legsMint p < 0 ->
    marketTokenAmount v = Some (legsMint p) /\ mintedUsd p (legsMint p) <= 0) /\
   ((forall usd, 0 <= usd ->
       0 <= usdToMarketTokenAmount (P.marketInfo p) (P.marketToken p) usd) ->
    legsCovered p -> 0 <= legsMint p /\ marketTokenNonNegative v)).
Proof.
  intros V Hlaw H. unfold getDepositAmounts in H.
  destruct (P.strategy p) eqn:Hs.
  - destruct (byCollaterals_nonNegative p v V H) as [Hsides Hmt].
    split; [exact Hsides|]. split.
    { intros [Hbad|Hcut]; [discriminate Hbad|]. apply Hmt. exact Hcut. }
    intros _ Hcut.
    destruct (byCollaterals_marketToken p v V Hcut H) as [Hu [Ha Hdry]].
    destruct (mintedUsd_sign p (legsMint p) V) as [Hpos Hneg].
    assert (Hnn : 0 <= legsMint p -> marketTokenNonNegative v).
    { intros Hm. split.
      - rewrite Ha. unfold vaultWraps.
        destruct (glvAmount p (mintedValues p)) as [g|]; cbn [Js.gt0].
        + destruct (0 <? g) eqn:Hg; apply nonNegative_Some; [|exact Hm].
          apply Z.ltb_lt in Hg. lia.
        + apply nonNegative_Some. exact Hm.
      - rewrite Hu. apply nonNegative_Some. apply Hpos. exact Hm. }
    split; [exact Hu|]. split; [exact Hnn|]. split.
    + intros Hm. rewrite Ha, (Hdry ltac:(lia)). split; [reflexivity|].
      apply Hneg. lia.
    + intros Hmint [Hlong Hshort].
      assert (Hm : 0 <= legsMint p).
      { unfold legsMint. apply Z.add_nonneg_nonneg; apply legMint_nonneg;
          try assumption; first [apply (valid_longToken p V) | apply (valid_shortToken p V)]. }
      split; [exact Hm | exact (Hnn Hm)].
  - destruct (byMarketToken_nonNegative p v V Hlaw H) as [Hsides Hmt].
    split; [exact Hsides|]. split; [intros _; exact Hmt|].
    intros Hbad. discriminate Hbad.
Qed.

(** ** Two calls that differ in the UI fee factor *)

Ltac params :=
  cbn [P.with_uiFeeFactor P.marketInfo P.marketToken P.longToken P.shortToken
       P.longTokenAmount P.shortTokenAmount P.marketTokenAmount P.strategy
       P.includeLongToken P.includeShortToken P.uiFeeFactor P.forShift
       P.isMarketTokenDeposit P.vaultInfo] in *.

Lemma valid_with_uiFeeFactor (p : P.t) (f : Z) :
  validInput p -> 0 <= f -> validInput (P.with_uiFeeFactor p f).
Proof.
  intros V Hf. destruct V. constructor; params; assumption.
Qed.

Lemma wrapToVault_uiFeeUsd (p : P.t) (values : DepositAmounts) :
  uiFeeUsd (wrapToVault p values) = uiFeeUsd values.
Proof.
  unfold wrapToVault. destruct (P.vaultInfo p) as [vault|]; [|reflexivity].
  destruct (convertToTokenAmount _ _ _) as [glv|]; [|reflexivity].
  destruct (0 <? glv); reflexivity.
Qed.

Lemma wrapToVault_no_vault (p : P.t) (values : DepositAmounts) :
  P.vaultInfo p = None -> wrapToVault p values = values.
Proof. intros H. unfold wrapToVault. rewrite H. reflexivity. Qed.

Lemma uiFee_mono (u f1 f2 : Z) :
  0 <= u -> f1 <= f2 -> Z.quot (u * f1) PRECISION <= Z.quot (u * f2) PRECISION.
Proof.
  intros Hu Hf. apply Z.quot_le_mono; [apply PRECISION_pos | nia].
Qed.

Lemma uiFee_strict (u f1 f2 : Z) :
  0 <= u -> 0 <= f1 -> PRECISION <= u * (f2 - f1) ->
  Z.quot (u * f1) PRECISION < Z.quot (u * f2) PRECISION.
Proof.
  intros Hu Hf1 Hgap. pose proof PRECISION_pos as HP.
  rewrite !Z.quot_div_nonneg by nia.
  assert (Hstep : (u * f1) / PRECISION + 1 <= (u * f2) / PRECISION); [|lia].
  rewrite <- (Z.div_add (u * f1) 1 PRECISION) by lia.
  apply Z.div_le_mono; lia.
Qed.

Lemma legUiFee_strict (p : P.t) (u f1 f2 : Z) :
  0 <= u -> 0 <= f1 -> PRECISION <= u * (f2 - f1) ->
  legUiFee (P.with_uiFeeFactor p f1) u < legUiFee (P.with_uiFeeFactor p f2) u.
Proof.
  intros Hu Hf1 Hgap. pose proof PRECISION_pos as HP. unfold legUiFee.
  assert (Hpos : 0 < u).
  { destruct (Z.eq_dec u 0) as [E|E]; [rewrite E in Hgap|]; lia. }
  replace (0 <? u) with true by (symmetry; apply Z.ltb_lt; exact Hpos).
  apply uiFee_strict; assumption.
Qed.

Lemma legUiFee_mono (p : P.t) (u f1 f2 : Z) :
  0 <= u -> f1 <= f2 ->
  legUiFee (P.with_uiFeeFactor p f1) u <= legUiFee (P.with_uiFeeFactor p f2) u.
Proof.
  intros Hu Hf. unfold legUiFee. destruct (0 <? u); [|lia].
  apply uiFee_mono; assumption.
Qed.

Lemma mintBySpec_antitone (marketInfo : MarketInfo)
    (marketToken tokenIn tokenOut : TokenData) (amount share swapFee uf1 uf2 : Z) :
  0 < minPrice (prices tokenIn) ->
  (forall u u', u <= u' ->
     usdToMarketTokenAmount marketInfo marketToken u
       <= usdToMarketTokenAmount marketInfo marketToken u') ->
  uf1 <= uf2 ->
  mintBySpec marketInfo marketToken tokenIn tokenOut amount share swapFee uf2
    <= mintBySpec marketInfo marketToken tokenIn tokenOut amount share swapFee uf1.
Proof.
  intros Hmin Hmono Hle.
  assert (Hfee : feeAmount tokenIn uf1 <= feeAmount tokenIn uf2).
  { unfold feeAmount. apply Z.quot_le_mono; [exact Hmin|].
    pose proof (expandDecimals_pos (decimals tokenIn)). nia. }
  assert (Hin : forall a b, a <= b ->
            inputSideMint marketInfo marketToken tokenIn a
              <= inputSideMint marketInfo marketToken tokenIn b).
  { intros a b Hab. unfold inputSideMint. apply Hmono.
    apply Z.quot_le_mono; [apply expandDecimals_pos | nia]. }
  unfold mintBySpec. destruct (0 <? share).
  - apply Z.add_le_mono_l. apply Hin. lia.
  - apply Hin. lia.
Qed.

Lemma byMarketToken_fields (p : P.t) (v : DepositAmounts) :
  validInput p ->
  (forall a, 0 <= a ->
     0 <= marketTokenAmountToUsd (P.marketInfo p) (P.marketToken p) a) ->
  P.marketTokenAmount p <> 0 ->
  vaultShortcut p = None ->
  depositByMarketToken p = Ok v ->
  exists M,
    0 <= M /\
    marketTokenUsd (marketTokenValuation p) = Some M /\
    marketTokenAmount v = Some (P.marketTokenAmount p) /\
    uiFeeUsd v = Some (Z.quot (M * P.uiFeeFactor p) PRECISION).
Proof.
  intros V Hlaw Hnz Hcut H.
  pose proof (getMidPrice_pos _ (valid_longToken p V)) as Hml.
  pose proof (getMidPrice_pos _ (valid_shortToken p V)) as Hms.
  pose proof (valid_longAmount p V) as Hla.
  pose proof (valid_shortAmount p V) as Hsa.
  unfold depositByMarketToken in H. apply Z.eqb_neq in Hnz.
  rewrite Hnz, Hcut in H.
  destruct (marketTokenValuation_fields p V Hlaw) as [M [HM Hval]].
  exists M. split; [exact HM|]. split; [rewrite Hval; reflexivity|].
  unfold splitStage, prevLongTokenUsd, prevShortTokenUsd in H.
  rewrite !convertToUsd_Some in H by lia.
  cbn [Js.add Js.arith bind] in H.
  destruct (splitUsd _ _ _ _ _) as [v1|] eqn:E1; [|discriminate H].
  cbn [bind] in H.
  destruct (splitUsd_sameButSides _ _ _ _ _ _ E1) as [A1 [U1 [F1 [G1 _]]]].
  rewrite Hval in E1, A1, U1, F1, G1. fields.
  assert (Hsplit : nonNegative (longTokenUsd v1) /\ nonNegative (shortTokenUsd v1)).
  { refine (splitUsd_nonNegative p _ v1 _ _ M V _ HM _ _ _ _ E1);
      try reflexivity; nn. }
  destruct Hsplit as [[l [El Hl]] [s [Es Hs]]].
  rewrite (impactAndFees_run p v1 l s M 0 0 El Es U1 F1 G1) in H.
  cbn [bind] in H.
  destruct (redistribute _) as [v3|] eqn:E3; [|discriminate H].
  cbn [bind] in H. injection H as <-.
  destruct (redistribute_sameButSides _ _ E3) as [A3 [U3 [F3 [G3 _]]]].
  fields. rewrite A3, G3, A1. split; reflexivity.
Qed.

Lemma legsMint_antitone (p : P.t) (f1 f2 : Z) :
  validInput p ->
  (forall u u', u <= u' ->
     usdToMarketTokenAmount (P.marketInfo p) (P.marketToken p) u
       <= usdToMarketTokenAmount (P.marketInfo p) (P.marketToken p) u') ->
  f1 <= f2 ->
  legsMint (P.with_uiFeeFactor p f2) <= legsMint (P.with_uiFeeFactor p f1).
Proof.
  intros V Hmono Hf12.
  pose proof (collateralUsd_nonneg _ _ (valid_longAmount p V) (valid_longToken p V)) as Hlu.
  pose proof (collateralUsd_nonneg _ _ (valid_shortAmount p V) (valid_shortToken p V)) as Hsu.
  destruct (valid_longToken p V) as [Hlmin _].
  destruct (valid_shortToken p V) as [Hsmin _].
  unfold legsMint, legMint, sideSwapFee. params.
  apply Z.add_le_mono;
    match goal with |- (if ?c then _ else _) <= _ => destruct c end;
    try lia; apply mintBySpec_antitone; try assumption;
    apply uiFee_mono; assumption.
Qed.

(** The wrap of the larger-fee call implies the wrap of the smaller-fee
    call: the vault amount is monotone in the minted amount. *)
Lemma vaultWraps_antitone (p : P.t) (f1 f2 : Z) :
  validInput p ->
  (forall u u', u <= u' ->
     usdToMarketTokenAmount (P.marketInfo p) (P.marketToken p) u
       <= usdToMarketTokenAmount (P.marketInfo p) (P.marketToken p) u') ->
  0 <= f1 -> f1 <= f2 ->
  vaultWraps (P.with_uiFeeFactor p f2) = true ->
  vaultWraps (P.with_uiFeeFactor p f1) = true.
Proof.
  intros V Hmono Hf1 Hf12.
  pose proof (valid_with_uiFeeFactor p f1 V Hf1) as V1.
  pose proof (valid_with_uiFeeFactor p f2 V ltac:(lia)) as V2.
  pose proof (legsMint_antitone p f1 f2 V Hmono Hf12) as Hm.
  unfold vaultWraps.
  destruct (P.vaultInfo p) as [vault|] eqn:Hv.
  - destruct (P.isMarketTokenDeposit p) eqn:Hd.
    + unfold glvAmount, mintedValues, legsValues. params. fields.
      rewrite Hv, Hd. intros H. exact H.
    + assert (Hcut : forall f, vaultShortcut (P.with_uiFeeFactor p f) = None)
        by (intros f; unfold vaultShortcut; params; rewrite Hd; reflexivity).
      rewrite (mintedValues_glv _ vault V1 (Hcut f1) Hv).
      rewrite (mintedValues_glv _ vault V2 (Hcut f2) Hv).
      cbn [Js.gt0]. intros H. apply Z.ltb_lt in H. apply Z.ltb_lt.
      pose proof (mintedGlv_mono p vault _ _ V Hv Hm) as Hg.
      change (mintedGlv (P.with_uiFeeFactor p f2) vault) with (mintedGlv p vault) in H.
      change (mintedGlv (P.with_uiFeeFactor p f1) vault) with (mintedGlv p vault).
      lia.
  - rewrite !mintedValues_no_vault by (params; exact Hv). intros H. exact H.
Qed.

(** C4. Fee monotonicity: of two calls on a valid input that differ
    only in the UI fee factor, the one with the larger factor returns a UI
    fee that is not smaller, and strictly larger when a USD value the fee is
    taken from, multiplied by the increase of the factor, reaches the factor
    precision (below that, truncation can make the two fees equal); and,
    in the byMarketToken strategy, on the vault shortcut, whenever no
    vault wraps the market, and on a deposit into a vault-wrapped market
    whenever the larger-fee call's amount is replaced by the vault amount
    or the smaller-fee call's is not, a market-token amount that is not
    larger, provided the market mints monotonically in the USD value.  The
    larger-fee call's amount is replaced only if the smaller-fee call's is,
    so the one case left out is a smaller-fee call that is wrapped and a
    larger-fee call that is not. *)
Theorem ui_fee_monotone (p : P.t) (f1 f2 : Z) (v1 v2 : DepositAmounts) :
  validInput p ->
  (forall a, 0 <= a ->
     0 <= marketTokenAmountToUsd (P.marketInfo p) (P.marketToken p) a) ->
  (forall u u', u <= u' ->
     usdToMarketTokenAmount (P.marketInfo p) (P.marketToken p) u
       <= usdToMarketTokenAmount (P.marketInfo p) (P.marketToken p) u') ->
  0 <= f1 -> f1 <= f2 ->
  getDepositAmounts (P.with_uiFeeFactor p f1) = Ok v1 ->
  getDepositAmounts (P.with_uiFeeFactor p f2) = Ok v2 ->
  (exists u1 u2,
     uiFeeUsd v1 = Some u1 /\ uiFeeUsd v2 = Some u2 /\ u1 <= u2 /\
     (forall notional,
        feeNotional p notional -> PRECISION <= notional * (f2 - f1) -> u1 < u2)) /\
  (P.strategy p = byMarketToken \/ vaultShortcut p <> None \/ P.vaultInfo p = None \/
   vaultWraps (P.with_uiFeeFactor p f2) = true \/
   vaultWraps (P.with_uiFeeFactor p f1) = false ->
   exists m1 m2,
     marketTokenAmount v1 = Some m1 /\ marketTokenAmount v2 = Some m2 /\ m2 <= m1) /\
  (vaultWraps (P.with_uiFeeFactor p f2) = true ->
   vaultWraps (P.with_uiFeeFactor p f1) = true).
Proof.
  intros V Hlaw Hmono Hf1 Hf12 H1 H2.
  pose proof (valid_with_uiFeeFactor p f1 V Hf1) as V1.
  pose proof (valid_with_uiFeeFactor p f2 V ltac:(lia)) as V2.
  pose proof PRECISION_pos as HP.
  rewrite <- and_assoc.
  split; [|apply vaultWraps_antitone; assumption].
  unfold getDepositAmounts in H1, H2. unfold feeNotional. params.
  destruct (P.strategy p) eqn:Hs.
  - (* byCollaterals *)
    destruct ((P.longTokenAmount p =? 0) && (P.shortTokenAmount p =? 0)) eqn:Hz.
    { unfold depositByCollaterals in H1, H2. params. rewrite Hz in H1, H2.
      injection H1 as <-. injection H2 as <-. fields. bools.
      split; [exists 0, 0 | intros _; exists 0, 0]; conjs; try eqs; try lia.
      intros N [_ HN] Hgap. exfalso.
      assert (N = 0); [|subst N; lia].
      unfold collateralUsd in HN.
      destruct HN as [HN|HN]; rewrite HN;
        match goal with Hx : ?x = 0 |- context [?x * _] => rewrite Hx end;
        reflexivity. }
    destruct (vaultShortcut p) as [vault|] eqn:Hcut.
    { unfold depositByCollaterals, vaultShortcut in H1, H2. params.
      unfold vaultShortcut in Hcut. rewrite Hz, Hcut in H1, H2.
      injection H1 as <-. injection H2 as <-. fields.
      split.
      - exists 0, 0; conjs; try eqs; try lia.
        intros N [Hbad _]. discriminate Hbad.
      - intros _. eexists; eexists. conjs; try eqs; try lia. }
    assert (Hnz : P.longTokenAmount p <> 0 \/ P.shortTokenAmount p <> 0).
    { apply andb_false_iff in Hz. destruct Hz as [Hz|Hz];
        [left|right]; apply Z.eqb_neq; exact Hz. }
    pose proof (byCollaterals_marketToken _ v1 V1 Hcut H1) as [_ [Ha1 _]].
    pose proof (byCollaterals_marketToken _ v2 V2 Hcut H2) as [_ [Ha2 _]].
    rewrite byCollaterals_run in H1 by (try exact V1; params; assumption).
    rewrite byCollaterals_run in H2 by (try exact V2; params; assumption).
    injection H1 as <-. injection H2 as <-.
    pose proof (collateralUsd_nonneg _ _ (valid_longAmount p V) (valid_longToken p V)) as Hlu.
    pose proof (collateralUsd_nonneg _ _ (valid_shortAmount p V) (valid_shortToken p V)) as Hsu.
    destruct (valid_longToken p V) as [Hlmin _].
    destruct (valid_shortToken p V) as [Hsmin _].
    split.
    + rewrite !wrapToVault_uiFeeUsd. unfold legsValues. fields. params.
      pose proof (legUiFee_mono p _ f1 f2 Hlu Hf12) as Ml.
      pose proof (legUiFee_mono p _ f1 f2 Hsu Hf12) as Ms.
      eexists; eexists. conjs; try eqs; [lia|].
      intros N [_ [HN|HN]] Hgap; subst N.
      * pose proof (legUiFee_strict p _ f1 f2 Hlu Hf1 Hgap). lia.
      * pose proof (legUiFee_strict p _ f1 f2 Hsu Hf1 Hgap). lia.
    + intros Hcase.
      pose proof (legsMint_antitone p f1 f2 V Hmono Hf12) as Hm.
      pose proof (vaultWraps_antitone p f1 f2 V Hmono Hf1 Hf12) as Hw21.
      assert (Hw : vaultWraps (P.with_uiFeeFactor p f2) = true \/
                   vaultWraps (P.with_uiFeeFactor p f1) = false).
      { destruct Hcase as [Hbad|[Hbad|[Hv|Hw]]];
          [discriminate Hbad | congruence | | exact Hw].
        right. unfold vaultWraps.
        rewrite mintedValues_no_vault by (params; exact Hv). reflexivity. }
      rewrite Ha1, Ha2.
      destruct (vaultWraps (P.with_uiFeeFactor p f2)) eqn:W2.
      * rewrite (Hw21 eq_refl).
        destruct (P.vaultInfo p) as [vault|] eqn:Hv.
        -- rewrite (mintedValues_glv _ vault V1 Hcut Hv).
           rewrite (mintedValues_glv _ vault V2 Hcut Hv).
           eexists; eexists. conjs; try eqs.
           apply (mintedGlv_mono p vault _ _ V Hv Hm).
        -- unfold vaultWraps in W2.
           rewrite mintedValues_no_vault in W2 by (params; exact Hv).
           discriminate W2.
      * destruct Hw as [Hw|Hw]; [discriminate Hw|]. rewrite Hw.
        eexists; eexists. conjs; try eqs. exact Hm.
  - (* byMarketToken *)
    destruct (P.marketTokenAmount p =? 0) eqn:Hz.
    { unfold depositByMarketToken in H1, H2. params. rewrite Hz in H1, H2.
      injection H1 as <-. injection H2 as <-. fields. bools.
      split; [exists 0, 0 | intros _; exists 0, 0]; conjs; try eqs; try lia;
        try (intros N [_ [Hbad _]]; contradiction). }
    apply Z.eqb_neq in Hz.
    destruct (vaultShortcut p) as [vault|] eqn:Hcut.
    { unfold depositByMarketToken, vaultShortcut, marketTokenValuation in H1, H2.
      params. unfold vaultShortcut in Hcut. apply Z.eqb_neq in Hz.
      rewrite Hz, Hcut in H1, H2.
      injection H1 as <-. injection H2 as <-.
      destruct (P.vaultInfo p); fields;
        (split;
         [ exists 0, 0; conjs; try eqs; try lia;
           intros N [Hbad _]; discriminate Hbad
         | intros _; eexists; eexists; conjs; try eqs; try lia ]). }
    destruct (byMarketToken_fields _ v1 V1 Hlaw Hz Hcut H1) as [M1 [HM1 [E1 [A1 U1]]]].
    destruct (byMarketToken_fields _ v2 V2 Hlaw Hz Hcut H2) as [M2 [HM2 [E2 [A2 U2]]]].
    params.
    assert (M2 = M1).
    { unfold marketTokenValuation in E1, E2. params. congruence. }
    subst M2. split.
    + eexists; eexists. conjs; [exact U1|exact U2|apply uiFee_mono; assumption|].
      intros N [_ [_ HN]] Hgap.
      assert (N = M1).
      { unfold marketTokenValuation in E1, HN. params. congruence. }
      subst N. apply uiFee_strict; assumption.
    + intros _. eexists; eexists. conjs; [exact A1|exact A2|]. lia.
Qed.

(** ** Which divisions are guarded *)

Lemma splitUsd_returns (p : P.t) (values : DepositAmounts) (L S M : Z) :
  validInput p ->
  marketTokenUsd values = Some M ->
  (P.shift p = true -> totalPoolUsd p <> 0) ->
  exists v, splitUsd p values (Some L) (Some S) (Some (L + S)) = Ok v.
Proof.
  intros V HM Hpool.
  destruct (valid_longToken p V) as [_ Hlmax].
  destruct (valid_shortToken p V) as [_ Hsmax].
  unfold splitUsd. destruct (P.shift p).
  - specialize (Hpool eq_refl). unfold totalPoolUsd in Hpool.
    rewrite !convertToUsd_Some by lia. cbn [Js.add Js.arith bind].
    rewrite HM. unfold bigMath.mulDiv. cbn [Js.mul Js.div Js.arith bind].
    apply Z.eqb_neq in Hpool. rewrite Hpool. cbn [bind]. fields. rewrite HM.
    cbn [Js.mul Js.div Js.arith bind]. rewrite Hpool. eexists. reflexivity.
  - destruct (P.includeLongToken p && P.includeShortToken p && Js.gt0 (Some (L + S)))
      eqn:E.
    + bools. rewrite HM. unfold bigMath.mulDiv. cbn [Js.mul Js.div Js.arith bind].
      replace (L + S =? 0) with false by (symmetry; apply Z.eqb_neq; lia).
      cbn [bind]. fields. rewrite HM. cbn [Js.sub Js.arith bind].
      eexists. reflexivity.
    + destruct (P.includeLongToken p); [eexists; reflexivity|].
      destruct (P.includeShortToken p); eexists; reflexivity.
Qed.

Lemma redistribute_returns (values : DepositAmounts) (l s sf uf i : Z) :
  longTokenUsd values = Some l -> shortTokenUsd values = Some s ->
  swapFeeUsd values = Some sf -> uiFeeUsd values = Some uf ->
  swapPriceImpactDeltaUsd values = Some i ->
  exists v, redistribute values = Ok v.
Proof.
  intros Hl Hs Hsf Huf Hi. destruct values; fields; subst.
  unfold redistribute, redistributeFees, redistributeImpact. fields.
  cbn [Js.add Js.arith bind Js.gt0].
  destruct (0 <? l + s) eqn:Et; [|eexists; reflexivity].
  unfold bigMath.mulDiv. cbn [Js.mul Js.div Js.arith bind].
  bools. replace (l + s =? 0) with false by (symmetry; apply Z.eqb_neq; lia).
  cbn [bind Js.add Js.arith]. fields. cbn [Js.mul Js.div Js.add Js.arith bind].
  replace (l + s =? 0) with false by (symmetry; apply Z.eqb_neq; lia).
  cbn [bind Js.add Js.arith]. fields. cbn [Js.lt0 Js.gt0 Js.neg option_map].
  match goal with
  | |- context [(i <? 0) && (0 <? ?t)] =>
      destruct ((i <? 0) && (0 <? t)) eqn:Ei; [|eexists; reflexivity];
      bools; cbn [Js.mul Js.div Js.add Js.arith bind];
      replace (t =? 0) with false by (symmetry; apply Z.eqb_neq; lia)
  end.
  cbn [bind Js.add Js.arith]. fields. cbn [Js.mul Js.div Js.add Js.arith bind].
  eexists. reflexivity.
Qed.

(** On a valid input every division of [getDepositAmounts] has a non-zero
    divisor and every conversion a price, so that the call returns, with one
    exception: the shift split of lines 190-191, which needs a pool that is
    not empty. *)
Lemma getDepositAmounts_returns (p : P.t) :
  validInput p ->
  (forall a, 0 <= a ->
     0 <= marketTokenAmountToUsd (P.marketInfo p) (P.marketToken p) a) ->
  (P.strategy p = byMarketToken -> P.shift p = true -> totalPoolUsd p <> 0) ->
  exists v, getDepositAmounts p = Ok v.
Proof.
  intros V Hlaw Hpool. unfold getDepositAmounts.
  destruct (P.strategy p); [apply byCollaterals_returns; exact V|].
  specialize (Hpool eq_refl).
  pose proof (getMidPrice_pos _ (valid_longToken p V)) as Hml.
  pose proof (getMidPrice_pos _ (valid_shortToken p V)) as Hms.
  pose proof (valid_longAmount p V) as Hla.
  pose proof (valid_shortAmount p V) as Hsa.
  unfold depositByMarketToken.
  destruct (P.marketTokenAmount p =? 0); [eexists; reflexivity|].
  destruct (vaultShortcut p); [eexists; reflexivity|].
  destruct (marketTokenValuation_fields p V Hlaw) as [M [HM Hval]].
  unfold splitStage, prevLongTokenUsd, prevShortTokenUsd.
  rewrite !convertToUsd_Some by lia. cbn [Js.add Js.arith bind].
  match goal with
  | |- context [splitUsd p _ (Some ?L) (Some ?S) _] =>
      destruct (splitUsd_returns p (marketTokenValuation p) L S M V
                  ltac:(rewrite Hval; reflexivity) Hpool) as [v1 E1];
      assert (HL : 0 <= L) by nn; assert (HS : 0 <= S) by nn
  end.
  rewrite E1. cbn [bind].
  destruct (splitUsd_sameButSides _ _ _ _ _ _ E1) as [A1 [U1 [F1 [G1 _]]]].
  rewrite Hval in E1, A1, U1, F1, G1. fields.
  assert (Hsplit : nonNegative (longTokenUsd v1) /\ nonNegative (shortTokenUsd v1)).
  { refine (splitUsd_nonNegative p _ v1 _ _ M V _ HM _ _ _ _ E1);
      try reflexivity; assumption. }
  destruct Hsplit as [[l [El Hl]] [s [Es Hs]]].
  rewrite (impactAndFees_run p v1 l s M 0 0 El Es U1 F1 G1). cbn [bind].
  match goal with
  | |- context [redistribute ?v2] =>
      destruct (redistribute_returns v2 l s _ _ _ El Es eq_refl eq_refl eq_refl)
        as [v3 E3]
  end.
  rewrite E3. cbn [bind]. eexists. reflexivity.
Qed.

(** ** Outcomes on valid inputs *)

Lemma shift_empty_pool_throws (p : P.t) :
  validInput p ->
  (forall a, 0 <= a ->
     0 <= marketTokenAmountToUsd (P.marketInfo p) (P.marketToken p) a) ->
  P.marketTokenAmount p <> 0 ->
  vaultShortcut p = None ->
  P.shift p = true ->
  totalPoolUsd p = 0 ->
  depositByMarketToken p = Err RangeError.
Proof.
  intros V Hlaw Hnz Hcut Hsh Hpool.
  pose proof (getMidPrice_pos _ (valid_longToken p V)) as Hml.
  pose proof (getMidPrice_pos _ (valid_shortToken p V)) as Hms.
  destruct (valid_longToken p V) as [_ Hlmax].
  destruct (valid_shortToken p V) as [_ Hsmax].
  destruct (marketTokenValuation_fields p V Hlaw) as [M [HM Hval]].
  unfold depositByMarketToken. apply Z.eqb_neq in Hnz. rewrite Hnz, Hcut.
  unfold splitStage, prevLongTokenUsd, prevShortTokenUsd.
  rewrite !convertToUsd_Some by lia. cbn [Js.add Js.arith bind].
  unfold splitUsd. rewrite Hsh, Hval, !convertToUsd_Some by lia. fields.
  cbn [Js.add Js.arith bind]. unfold bigMath.mulDiv.
  cbn [Js.mul Js.div Js.arith bind]. unfold totalPoolUsd in Hpool.
  rewrite Hpool. reflexivity.
Qed.

(** X1. What a call on a valid input can do: it returns a result, except
    for a byMarketToken shift (past the zero short-circuit and the vault
    shortcut) into pools worth zero USD, which throws a [RangeError]; it
    never throws a [TypeError]. *)
Theorem valid_input_outcomes (p : P.t) :
  validInput p ->
  (forall a, 0 <= a ->
     0 <= marketTokenAmountToUsd (P.marketInfo p) (P.marketToken p) a) ->
  let shiftIntoEmptyPools :=
    P.strategy p = byMarketToken /\ P.marketTokenAmount p <> 0 /\
    vaultShortcut p = None /\ P.shift p = true /\ totalPoolUsd p = 0 in
  (shiftIntoEmptyPools -> getDepositAmounts p = Err RangeError) /\
  (~ shiftIntoEmptyPools -> exists v, getDepositAmounts p = Ok v).
Proof.
  intros V Hlaw bad. subst bad. split.
  - intros [Hs [Hnz [Hcut [Hsh Hpool]]]]. unfold getDepositAmounts. rewrite Hs.
    apply shift_empty_pool_throws; assumption.
  - intros Hgood.
    destruct (P.strategy p) eqn:Hs.
    + apply getDepositAmounts_returns; try assumption.
      intros Hbad. rewrite Hs in Hbad. discriminate Hbad.
    + destruct (Z.eq_dec (P.marketTokenAmount p) 0) as [Hz|Hnz].
      { exists zeroAmounts. unfold getDepositAmounts, depositByMarketToken.
        rewrite Hs, Hz. reflexivity. }
      destruct (vaultShortcut p) as [vault|] eqn:Hcut.
      { unfold getDepositAmounts, depositByMarketToken.
        apply Z.eqb_neq in Hnz. rewrite Hs, Hnz, Hcut. eexists. reflexivity. }
      apply getDepositAmounts_returns; try assumption.
      intros _ Hsh Hpool. apply Hgood. repeat split; assumption.
Qed.

(** ** Shifts pay no swap fee *)

Lemma wrapToVault_swapFeeUsd (p : P.t) (values : DepositAmounts) :
  swapFeeUsd (wrapToVault p values) = swapFeeUsd values.
Proof.
  unfold wrapToVault. destruct (P.vaultInfo p) as [vault|]; [|reflexivity].
  destruct (convertToTokenAmount _ _ _) as [glv|]; [|reflexivity].
  destruct (0 <? glv); reflexivity.
Qed.

Lemma collateralLeg_shift_swapFee (p : P.t) (values v : DepositAmounts)
    (tokenIn tokenOut : TokenData) (a b c : jsval) :
  P.shift p = true ->
  swapFeeUsd values = Some 0 ->
  collateralLeg p values tokenIn tokenOut a b c = Ok v ->
  swapFeeUsd v = Some 0.
Proof.
  intros Hsh Hf H. unfold collateralLeg in H. rewrite Hsh in H.
  cbn [bind] in H. rewrite Hf in H. cbn [Js.add Js.arith bind] in H.
  steps H. reflexivity.
Qed.

Lemma impactAndFees_shift_swapFee (p : P.t) (values v : DepositAmounts) :
  P.shift p = true ->
  impactAndFees p values = Ok v ->
  swapFeeUsd v = swapFeeUsd values.
Proof.
  intros Hsh H. unfold impactAndFees in H. rewrite Hsh in H. cbn [negb] in H.
  steps H. reflexivity.
Qed.

(** X2. A shift pays no swap fee: whenever a call with [forShift] returns,
    in either strategy, its [swapFeeUsd] is zero. *)
Theorem shift_pays_no_swap_fee (p : P.t) (v : DepositAmounts) :
  P.shift p = true ->
  getDepositAmounts p = Ok v ->
  swapFeeUsd v = Some 0.
Proof.
  intros Hsh H. unfold getDepositAmounts in H. destruct (P.strategy p).
  - unfold depositByCollaterals in H.
    destruct ((P.longTokenAmount p =? 0) && (P.shortTokenAmount p =? 0));
      [injection H as <-; reflexivity|].
    destruct (vaultShortcut p); [injection H as <-; reflexivity|].
    steps H; rewrite wrapToVault_swapFeeUsd; fields;
      repeat match goal with
             | E : collateralLeg _ _ _ _ _ _ _ = Ok _ |- _ =>
                 apply (collateralLeg_shift_swapFee _ _ _ _ _ _ _ _ Hsh) in E;
                 [|fields; first [reflexivity | assumption]]
             end;
      first [assumption | reflexivity].
  - unfold depositByMarketToken in H.
    destruct (P.marketTokenAmount p =? 0); [injection H as <-; reflexivity|].
    assert (Hval : swapFeeUsd (marketTokenValuation p) = Some 0).
    { unfold marketTokenValuation. destruct (P.vaultInfo p); reflexivity. }
    destruct (vaultShortcut p); [injection H as <-; exact Hval|].
    unfold splitStage in H. steps H. fields.
    match goal with
    | E1 : splitUsd _ _ _ _ _ = Ok ?v1, E2 : impactAndFees _ ?v1 = Ok ?v2,
      E3 : redistribute ?v2 = Ok ?v3 |- _ =>
        destruct (splitUsd_sameButSides _ _ _ _ _ _ E1) as [_ [_ [F1 _]]];
        pose proof (impactAndFees_shift_swapFee _ _ _ Hsh E2) as F2;
        destruct (redistribute_sameButSides _ _ E3) as [_ [_ [F3 _]]]
    end.
    congruence.
Qed.

(** ** The vault shortcuts *)

(** X3. The byCollaterals vault shortcut drops the short leg: on a
    market-token deposit into a vault with a non-zero long amount, the result
    does not depend on the short input amount, and reports a zero short
    amount and USD value whatever was passed. *)
Theorem vault_shortcut_drops_short_leg (p : P.t) (vault : GlvMarketInfo)
    (amount amount' : Z) :
  P.strategy p = byCollaterals ->
  vaultShortcut p = Some vault ->
  P.longTokenAmount p <> 0 ->
  getDepositAmounts (withShortTokenAmount p amount)
    = getDepositAmounts (withShortTokenAmount p amount') /\
  exists v,
    getDepositAmounts (withShortTokenAmount p amount) = Ok v /\
    shortTokenAmount v = Some 0 /\ shortTokenUsd v = Some 0.
Proof.
  intros Hs Hcut Hnz. apply Z.eqb_neq in Hnz.
  assert (Hrun : forall a,
    getDepositAmounts (withShortTokenAmount p a) =
      depositByCollaterals (withShortTokenAmount p 0)).
  { intros a. unfold getDepositAmounts, withShortTokenAmount. params. rewrite Hs.
    unfold depositByCollaterals, vaultShortcut. params.
    unfold vaultShortcut in Hcut. rewrite Hnz, Hcut. reflexivity. }
  split; [rewrite !Hrun; reflexivity|].
  rewrite Hrun. unfold depositByCollaterals, withShortTokenAmount, vaultShortcut.
  params. unfold vaultShortcut in Hcut. rewrite Hnz, Hcut. cbn [andb].
  eexists. split; [reflexivity|]. fields. split; reflexivity.
Qed.

(** X4. The two vault shortcuts compose without over-crediting: when the
    market token has one price (its mid price is its minimum price), the
    market-token amount that the byMarketToken shortcut quotes for a vault
    amount, deposited through the byCollaterals shortcut into the same vault,
    yields a vault amount that is not negative and not above the one
    requested. *)
Theorem vault_shortcut_round_trip (p q : P.t) (vault : GlvMarketInfo)
    (v w : DepositAmounts) (gm : Z) :
  P.strategy p = byMarketToken -> P.strategy q = byCollaterals ->
  vaultShortcut p = Some vault -> vaultShortcut q = Some vault ->
  P.longToken q = P.marketToken p ->
  0 < minPrice (prices (P.marketToken p)) ->
  getMidPrice (prices (P.marketToken p)) = minPrice (prices (P.marketToken p)) ->
  0 < minPrice (prices (indexToken vault)) ->
  0 < P.marketTokenAmount p ->
  getDepositAmounts p = Ok v ->
  longTokenAmount v = Some gm ->
  P.longTokenAmount q = gm ->
  getDepositAmounts q = Ok w ->
  exists glv, marketTokenAmount w = Some glv /\ 0 <= glv <= P.marketTokenAmount p.
Proof.
  intros Hsp Hsq Hcp Hcq Htok Hgp Hmid Hvp Hamt Hv Hgm Hq Hw.
  destruct (vaultShortcut_Some p vault Hcp) as [_ Hvault].
  pose proof (expandDecimals_pos (decimals (indexToken vault))) as HEv.
  pose proof (expandDecimals_pos (decimals (P.marketToken p))) as HEg.
  unfold getDepositAmounts in Hv, Hw. rewrite Hsp in Hv. rewrite Hsq in Hw.
  unfold depositByMarketToken in Hv.
  replace (P.marketTokenAmount p =? 0) with false in Hv
    by (symmetry; apply Z.eqb_neq; lia).
  rewrite Hcp in Hv. injection Hv as <-.
  unfold marketTokenValuation in Hgm. rewrite Hvault in Hgm. fields.
  rewrite convertToUsd_Some, convertToTokenAmount_Some in Hgm by lia.
  injection Hgm as Hgm.
  set (usd1 := Z.quot (P.marketTokenAmount p * minPrice (prices (indexToken vault)))
                 (expandDecimals 1 (decimals (indexToken vault)))) in *.
  assert (Husd1 : 0 <= usd1) by (unfold usd1; nn).
  assert (Hgm0 : 0 <= gm).
  { rewrite <- Hgm. apply Z.quot_pos; [nia|lia]. }
  assert (Hgmle : gm * minPrice (prices (P.marketToken p))
                  <= usd1 * expandDecimals 1 (decimals (P.marketToken p))).
  { rewrite <- Hgm.
    pose proof (Z.mul_quot_le (usd1 * expandDecimals 1 (decimals (P.marketToken p)))
                  (minPrice (prices (P.marketToken p))) ltac:(nia) ltac:(lia)). lia. }
  assert (Husd1le : usd1 * expandDecimals 1 (decimals (indexToken vault))
                    <= P.marketTokenAmount p * minPrice (prices (indexToken vault))).
  { unfold usd1.
    pose proof (Z.mul_quot_le
                  (P.marketTokenAmount p * minPrice (prices (indexToken vault)))
                  (expandDecimals 1 (decimals (indexToken vault))) ltac:(nia) ltac:(lia)). lia. }
  unfold depositByCollaterals in Hw. rewrite Hcq, Htok, Hmid, Hq in Hw.
  destruct ((gm =? 0) && (P.shortTokenAmount q =? 0)).
  { injection Hw as <-. exists 0. split; [reflexivity|lia]. }
  injection Hw as <-. fields.
  rewrite convertToUsd_Some, convertToTokenAmount_Some by lia. cbn [Js.orZero].
  eexists. split; [reflexivity|].
  set (usd2 := Z.quot (gm * minPrice (prices (P.marketToken p)))
                 (expandDecimals 1 (decimals (P.marketToken p)))).
  assert (Husd2 : 0 <= usd2) by (unfold usd2; nn).
  assert (Husd21 : usd2 <= usd1).
  { unfold usd2. apply Z.quot_le_upper_bound; lia. }
  split.
  - apply Z.quot_pos; [nia|lia].
  - apply Z.quot_le_upper_bound; [lia|]. nia.
Qed.

(** ** What the byMarketToken stages conserve *)

(** Two truncated proportional shares of [x] add up to [x] or to [x - 1]. *)
Lemma share_sum (x a b : Z) :
  0 <= x -> 0 <= a -> 0 <= b -> 0 < a + b ->
  x - 1 <= Z.quot (x * a) (a + b) + Z.quot (x * b) (a + b) <= x.
Proof.
  intros Hx Ha Hb Ht.
  pose proof (Z.quot_rem' (x * a) (a + b)) as Ea.
  pose proof (Z.quot_rem' (x * b) (a + b)) as Eb.
  pose proof (Z.rem_bound_pos (x * a) (a + b) ltac:(nia) Ht) as Ba.
  pose proof (Z.rem_bound_pos (x * b) (a + b) ltac:(nia) Ht) as Bb.
  set (qa := Z.quot (x * a) (a + b)) in *. set (qb := Z.quot (x * b) (a + b)) in *.
  set (ra := Z.rem (x * a) (a + b)) in *. set (rb := Z.rem (x * b) (a + b)) in *.
  assert (E : (a + b) * (x - (qa + qb)) = ra + rb) by nia.
  split; nia.
Qed.

(** X5. The long/short split conserves the requested value: on a valid
    input, when the split of lines 181-199 returns, both sides are
    non-negative and together never exceed [marketTokenUsd]; the split by
    previous holdings and the one-sided splits allot exactly
    [marketTokenUsd], the shift split by pool composition at most one unit
    less, and a request that includes neither side allots nothing. *)
Theorem split_conserves_value (p : P.t) (v : DepositAmounts) (M : Z) :
  validInput p ->
  marketTokenUsd (marketTokenValuation p) = Some M -> 0 <= M ->
  splitStage p = Ok v ->
  exists l s,
    longTokenUsd v = Some l /\ shortTokenUsd v = Some s /\
    0 <= l /\ 0 <= s /\ l + s <= M /\
    (P.shift p = true -> M - 1 <= l + s) /\
    (P.shift p = false ->
     P.includeLongToken p || P.includeShortToken p = true -> l + s = M) /\
    (P.shift p = false ->
     P.includeLongToken p || P.includeShortToken p = false -> l = 0 /\ s = 0).
Proof.
  intros V HM HM0 H.
  pose proof (getMidPrice_pos _ (valid_longToken p V)) as Hml.
  pose proof (getMidPrice_pos _ (valid_shortToken p V)) as Hms.
  destruct (valid_longToken p V) as [_ Hlmax].
  destruct (valid_shortToken p V) as [_ Hsmax].
  pose proof (valid_longAmount p V) as Hla.
  pose proof (valid_shortAmount p V) as Hsa.
  pose proof (valid_longPool p V) as Hlp.
  pose proof (valid_shortPool p V) as Hsp.
  assert (Hl0 : longTokenUsd (marketTokenValuation p) = Some 0)
    by (unfold marketTokenValuation; destruct (P.vaultInfo p); reflexivity).
  assert (Hs0 : shortTokenUsd (marketTokenValuation p) = Some 0)
    by (unfold marketTokenValuation; destruct (P.vaultInfo p); reflexivity).
  unfold splitStage, prevLongTokenUsd, prevShortTokenUsd in H.
  rewrite !convertToUsd_Some in H by lia. cbn [Js.add Js.arith bind] in H.
  unfold splitUsd in H. fields_in H. rewrite HM in H.
  rewrite !convertToUsd_Some in H by lia.
  destruct (P.shift p).
  - steps H. fields. rewrite ?Hl0, ?Hs0. bools.
    match goal with
    | Hne : ?a + ?b <> 0 |- _ =>
        assert (Ha : 0 <= a) by nn; assert (Hb : 0 <= b) by nn;
        pose proof (share_sum M a b HM0 Ha Hb ltac:(lia)) as Hsum;
        exists (Z.quot (M * a) (a + b)), (Z.quot (M * b) (a + b))
    end.
    conjs; try eqs; try solve [nn | lia | intros; lia | intros; discriminate].
    all: apply Z.quot_pos; try nia; lia.
  - destruct (P.includeLongToken p) eqn:Hil; destruct (P.includeShortToken p) eqn:His;
      cbn [andb] in H; steps H; fields; rewrite ?Hl0, ?Hs0; bools.
    + match goal with
      | |- context [Z.quot (M * ?L) (?L + ?S)] =>
          assert (HL : 0 <= L) by nn; assert (HS : 0 <= S) by nn;
          pose proof (share_sum M L S HM0 HL HS ltac:(lia)) as Hsum;
          assert (0 <= Z.quot (M * L) (L + S)) by (apply Z.quot_pos; lia);
          assert (0 <= Z.quot (M * S) (L + S)) by (apply Z.quot_pos; lia);
          exists (Z.quot (M * L) (L + S)), (M - Z.quot (M * L) (L + S))
      end.
      conjs; try eqs; try lia; intros; try discriminate; lia.
    + exists M, 0. conjs; try eqs; try lia; intros; try discriminate; lia.
    + exists M, 0. conjs; try eqs; try lia; intros; try discriminate; lia.
    + exists 0, M. conjs; try eqs; try lia; intros; try discriminate; lia.
    + exists 0, 0. conjs; try eqs; try lia; intros; discriminate.
Qed.

(** X6. The redistribution of lines 217-235 passes fees and negative price
    impact on to the two sides in full, up to truncation: it never lowers a
    side, leaves both as they are when their total is zero, and otherwise
    raises the total by the fees plus the magnitude of a negative impact,
    less at most two units, never more. *)
Theorem redistribution_passes_on_fees_and_impact
    (values v : DepositAmounts) (l s sf uf i : Z) :
  longTokenUsd values = Some l -> 0 <= l ->
  shortTokenUsd values = Some s -> 0 <= s ->
  swapFeeUsd values = Some sf -> 0 <= sf ->
  uiFeeUsd values = Some uf -> 0 <= uf ->
  swapPriceImpactDeltaUsd values = Some i ->
  redistribute values = Ok v ->
  exists l' s',
    longTokenUsd v = Some l' /\ shortTokenUsd v = Some s' /\
    l <= l' /\ s <= s' /\
    (l + s = 0 -> l' = l /\ s' = s) /\
    (0 < l + s ->
     l + s + (sf + uf) + Z.max 0 (- i) - 2 <= l' + s'
       <= l + s + (sf + uf) + Z.max 0 (- i)).
Proof.
  intros Hl Hl0 Hs Hs0 Hsf Hsf0 Huf Huf0 Hi H.
  destruct values; fields; subst.
  unfold redistribute, redistributeFees, redistributeImpact in H.
  steps H; fields; bools.
  - (* fees, then a negative impact *)
    pose proof (share_sum (sf + uf) l s ltac:(lia) Hl0 Hs0 ltac:(lia)) as Hfee.
    set (l1 := l + Z.quot ((sf + uf) * l) (l + s)) in *.
    set (s1 := s + Z.quot ((sf + uf) * s) (l + s)) in *.
    assert (Hl1 : l <= l1) by (unfold l1; assert (0 <= Z.quot ((sf + uf) * l) (l + s)) by nn; lia).
    assert (Hs1 : s <= s1) by (unfold s1; assert (0 <= Z.quot ((sf + uf) * s) (l + s)) by nn; lia).
    pose proof (share_sum (- i) l1 s1 ltac:(lia) ltac:(lia) ltac:(lia) ltac:(lia)) as Himp.
    assert (0 <= Z.quot (- i * l1) (l1 + s1)) by nn.
    assert (0 <= Z.quot (- i * s1) (l1 + s1)) by nn.
    eexists; eexists. conjs; try eqs; try lia.
  - (* fees only *)
    pose proof (share_sum (sf + uf) l s ltac:(lia) Hl0 Hs0 ltac:(lia)) as Hfee.
    assert (0 <= Z.quot ((sf + uf) * l) (l + s)) by nn.
    assert (0 <= Z.quot ((sf + uf) * s) (l + s)) by nn.
    assert (Hi0 : 0 <= i).
    { match goal with
      | Hb : _ && _ = false |- _ => apply andb_false_iff in Hb; destruct Hb; bools; lia
      end. }
    eexists; eexists. conjs; try eqs; try lia.
  - (* nothing to redistribute to *)
    exists l, s. conjs; try eqs; try lia.
Qed.

(** ** Single-sided requests *)

(** Redistribution when only the long side holds value: it takes the fees
    and the magnitude of a negative impact whole. *)
Lemma redistribute_long_only (la sa mta mu : jsval) (l sf uf i : Z) :
  0 < l -> 0 <= sf + uf ->
  redistribute (mkDepositAmounts la (Some l) sa (Some 0) mta mu
                  (Some sf) (Some uf) (Some i))
  = Ok (mkDepositAmounts la (Some (l + (sf + uf) + Z.max 0 (- i))) sa (Some 0)
          mta mu (Some sf) (Some uf) (Some i)).
Proof.
  intros Hl HF.
  unfold redistribute, redistributeFees, redistributeImpact. fields.
  cbn [Js.add Js.arith bind Js.gt0]. rewrite !Z.add_0_r.
  replace (0 <? l) with true by (symmetry; apply Z.ltb_lt; lia).
  unfold bigMath.mulDiv. cbn [Js.mul Js.div Js.arith bind].
  replace (l =? 0) with false by (symmetry; apply Z.eqb_neq; lia).
  cbn [bind Js.add Js.arith]. fields. cbn [Js.mul Js.div Js.add Js.arith bind].
  replace (l =? 0) with false by (symmetry; apply Z.eqb_neq; lia).
  cbn [bind Js.add Js.arith]. fields. cbn [Js.lt0 Js.gt0 Js.neg option_map].
  rewrite !Z.mul_0_r, (Z.quot_0_l l), !Z.add_0_r, Z.quot_mul by lia.
  destruct (i <? 0) eqn:Ei; bools.
  - replace (0 <? l + (sf + uf)) with true by (symmetry; apply Z.ltb_lt; lia).
    cbn [andb Js.mul Js.div Js.add Js.arith bind].
    replace (l + (sf + uf) =? 0) with false by (symmetry; apply Z.eqb_neq; lia).
    cbn [bind Js.add Js.arith]. fields. cbn [Js.mul Js.div Js.add Js.arith bind].
    replace (l + (sf + uf) =? 0) with false by (symmetry; apply Z.eqb_neq; lia).
    cbn [bind Js.add Js.arith]. fields.
    rewrite !Z.mul_0_r, (Z.quot_0_l (l + (sf + uf))), !Z.add_0_r, Z.quot_mul by lia.
    rewrite Z.max_r by lia. reflexivity.
  - cbn [andb]. rewrite Z.max_l by lia. rewrite Z.add_0_r. reflexivity.
Qed.

(** X7. A byMarketToken request that includes only the long token charges
    that side the whole cost, with no rounding loss: outside a shift and the
    vault shortcut, for a requested value [M > 0], [longTokenUsd] is exactly
    [M] plus the swap fee, the UI fee and the magnitude of a negative price
    impact, the short side stays at zero, and the fees are those of [M]. *)
Theorem long_only_request_pays_in_full (p : P.t) (M : Z) :
  validInput p ->
  P.strategy p = byMarketToken -> P.marketTokenAmount p <> 0 ->
  vaultShortcut p = None -> P.shift p = false ->
  P.includeLongToken p = true -> P.includeShortToken p = false ->
  marketTokenUsd (marketTokenValuation p) = Some M -> 0 < M ->
  let impact :=
    getPriceImpactForSwap (P.marketInfo p) (P.longToken p) (P.shortToken p) M 0 in
  let swapFee :=
    Z.quot (M * (if 0 <? impact
                 then swapFeeFactorForPositiveImpact (P.marketInfo p)
                 else swapFeeFactorForNegativeImpact (P.marketInfo p)))
      PRECISION in
  let uiFee := Z.quot (M * P.uiFeeFactor p) PRECISION in
  exists v,
    getDepositAmounts p = Ok v /\
    longTokenUsd v = Some (M + (swapFee + uiFee) + Z.max 0 (- impact)) /\
    shortTokenUsd v = Some 0 /\ shortTokenAmount v = Some 0 /\
    marketTokenUsd v = Some M /\
    swapFeeUsd v = Some swapFee /\ uiFeeUsd v = Some uiFee /\
    swapPriceImpactDeltaUsd v = Some impact.
Proof.
  intros V Hst Hne Hvs Hsh Hil His HM HM0 impact swapFee uiFee.
  pose proof (getMidPrice_pos _ (valid_longToken p V)) as Hml.
  pose proof (getMidPrice_pos _ (valid_shortToken p V)) as Hms.
  pose proof (valid_longAmount p V) as Hla.
  pose proof (valid_shortAmount p V) as Hsa.
  pose proof (valid_uiFeeFactor p V) as Hui.
  pose proof (valid_swapFeePositive p V) as Hfp.
  pose proof (valid_swapFeeNegative p V) as Hfn.
  assert (HsF : 0 <= swapFee) by (unfold swapFee; destruct (0 <? impact); nn).
  assert (HuF : 0 <= uiFee) by (unfold uiFee; nn).
  assert (Hmv : marketTokenValuation p =
                mkDepositAmounts (Some 0) (Some 0) (Some 0) (Some 0)
                  (Some (P.marketTokenAmount p)) (Some M) (Some 0) (Some 0) (Some 0)).
  { revert HM. unfold marketTokenValuation.
    destruct (P.vaultInfo p); fields; intros ->; reflexivity. }
  unfold getDepositAmounts. rewrite Hst. unfold depositByMarketToken.
  apply Z.eqb_neq in Hne. rewrite Hne, Hvs.
  unfold splitStage, prevLongTokenUsd, prevShortTokenUsd.
  rewrite !convertToUsd_Some by lia. cbn [Js.add Js.arith bind].
  unfold splitUsd. rewrite Hsh, Hil, His, Hmv. cbn [andb]. fields. cbn [bind].
  erewrite impactAndFees_run by reflexivity.
  rewrite Hsh. fold impact. fold swapFee. fold uiFee. cbn [bind]. fields.
  unfold set_uiFeeUsd, set_swapFeeUsd, set_swapPriceImpactDeltaUsd, set_longTokenUsd.
  fields. rewrite !Z.add_0_l.
  rewrite redistribute_long_only by lia. cbn [bind]. fields.
  eexists. split; [reflexivity|]. fields.
  rewrite (convertToTokenAmount_Some 0) by lia.
  conjs; reflexivity.
Qed.

End Properties.

Lemma zero_input_short_circuit_witness :
  getDepositAmounts (C := scenarioMarket 0)
    (P.mk (feeFreeMarket 5 7) (tokenAt 18 1) (tokenAt 18 3000) (tokenAt 6 1)
       0 0 9 byCollaterals true true 1 None false None) = Ok zeroAmounts /\
  getDepositAmounts (C := scenarioMarket 0)
    (P.mk (feeFreeMarket 5 7) (tokenAt 18 1) (tokenAt 18 3000) (tokenAt 6 1)
       4 2 0 byMarketToken true true 1 (Some true) false None) = Ok zeroAmounts.
Proof.
  split.
  - apply (proj1 (zero_input_short_circuit (C := scenarioMarket 0) _));
      reflexivity.
  - apply (proj2 (zero_input_short_circuit (C := scenarioMarket 0) _));
      reflexivity.
Defined.

Lemma vault_shortcut_witness :
  exists v,
    getDepositAmounts (C := scenarioMarket 0) (scenarioVaultShortcut 18) = Ok v /\
    marketTokenAmount v = Some (50 * 10 ^ 18) /\
    swapFeeUsd v = Some 0 /\ uiFeeUsd v = Some 0 /\
    swapPriceImpactDeltaUsd v = Some 0.
Proof.
  destruct (vault_shortcut (C := scenarioMarket 0) (scenarioVaultShortcut 18)
              (mkGlvMarketInfo (tokenAt 18 2)) eq_refl eq_refl eq_refl)
    as [v [Hv [_ [Hf [Hu [Hi Hc]]]]]].
  exists v. conjs; try assumption.
  apply (Hc USD); closed_side.
Defined.

Lemma shift_split_divides_by_zero_witness :
  getDepositAmounts (C := scenarioMarket 0) scenarioShiftEmptyPool = Err RangeError.
Proof.
  apply (shift_split_divides_by_zero (C := scenarioMarket 0)); closed_side.
Defined.

Lemma proportional_split_inexact :
  exists v l s,
    splitStage (C := scenarioMarket 0) scenarioSplit = Ok v /\
    prevLongTokenUsd scenarioSplit = Some USD /\
    prevShortTokenUsd scenarioSplit = Some (2 * USD) /\
    longTokenUsd v = Some l /\ shortTokenUsd v = Some s /\
    l * (2 * USD) <> s * USD.
Proof.
  eexists; exists (333333333333333333333333333333), (666666666666666666666666666667).
  conjs; try (vm_compute; reflexivity).
  vm_compute; discriminate.
Qed.

Lemma proportional_split_witness :
  exists v l s,
    splitStage (C := scenarioMarket 0) scenarioSplit = Ok v /\
    longTokenUsd v = Some l /\ shortTokenUsd v = Some s /\
    s = USD - l /\ Z.abs (s * USD - l * (2 * USD)) < USD + 2 * USD.
Proof.
  destruct (proportional_split (C := scenarioMarket 0) scenarioSplit
              USD (2 * USD) USD)
    as [v [l [s [Hv [Hl [Hs [_ [Hsl [_ [Habs _]]]]]]]]]]; try closed_side.
  exists v, l, s. conjs; assumption.
Defined.

Lemma impact_redistributed_only_when_negative_witness :
  redistributeImpact (scenarioAfterFees (10 * USD)) (Some (1000 * USD))
    = Ok (scenarioAfterFees (10 * USD)) /\
  redistributeImpact (scenarioAfterFees (- (10 * USD))) (Some (1000 * USD))
    = Ok (set_shortTokenUsd
            (set_longTokenUsd (scenarioAfterFees (- (10 * USD))) (Some (606 * USD)))
            (Some (404 * USD))).
Proof.
  destruct (impact_redistributed_only_when_negative
              (scenarioAfterFees (10 * USD)) (Some (1000 * USD)))
    as [_ [Hpos _]].
  destruct (impact_redistributed_only_when_negative
              (scenarioAfterFees (- (10 * USD))) (Some (1000 * USD)))
    as [_ [_ [Hneg _]]].
  split.
  - apply (Hpos (10 * USD)); closed_side.
  - rewrite (Hneg (- (10 * USD)) (600 * USD) (400 * USD) (1000 * USD));
      closed_side.
Defined.

Lemma per_side_minting_witness :
  scenarioMint (10 * USD) = Ok (Some (10 * 10 ^ 18 + 996 * 10 ^ 18)) /\
  scenarioMint (- (10 * USD)) = Ok (Some (986 * 10 ^ 18)).
Proof.
  split.
  - destruct (per_side_minting (C := scenarioMarket 0) (feeFreeMarket 0 0)
                (tokenAt 18 1) (tokenAt 18 1) (tokenAt 6 1)
                (1000 * 10 ^ 18) (10 * USD) (3 * USD) (1 * USD)) as [H _].
    + closed_side.
    + intros _. closed_side.
    + unfold scenarioMint. rewrite H. closed_side.
  - destruct (per_side_minting (C := scenarioMarket 0) (feeFreeMarket 0 0)
                (tokenAt 18 1) (tokenAt 18 1) (tokenAt 6 1)
                (1000 * 10 ^ 18) (- (10 * USD)) (3 * USD) (1 * USD)) as [H _].
    + closed_side.
    + intros _. closed_side.
    + unfold scenarioMint. rewrite H. closed_side.
Defined.

Lemma dust_fee_rounds_to_zero :
  exists v,
    getDepositAmounts (C := scenarioMarket 0) (scenarioNoLeg (10 ^ 6) (10 ^ 11)) = Ok v /\
    0 < P.uiFeeFactor (scenarioNoLeg (10 ^ 6) (10 ^ 11)) /\
    marketTokenUsd v = Some (10 ^ 18) /\
    uiFeeUsd v = Some 0.
Proof.
  eexists. conjs; vm_compute; reflexivity.
Qed.

Lemma fees_without_collateral_leg_witness :
  exists v,
    getDepositAmounts (C := scenarioMarket 0) (scenarioNoLeg (10 ^ 21) (10 ^ 27)) = Ok v /\
    longTokenUsd v = Some 0 /\ shortTokenUsd v = Some 0 /\
    longTokenAmount v = Some 0 /\ shortTokenAmount v = Some 0 /\
    swapFeeUsd v = Some (7 * 10 ^ 29) /\ uiFeeUsd v = Some USD.
Proof.
  destruct (fees_without_collateral_leg (C := scenarioMarket 0)
              (scenarioNoLeg (10 ^ 21) (10 ^ 27)))
    as [v [sf [uf [Hv [Hl [Hs [Hla [Hsa [_ [Hsf [Huf [Esf [Euf _]]]]]]]]]]]]];
    try closed_side.
  exists v. conjs; try assumption.
  - rewrite Hsf, Esf. closed_side.
  - rewrite Huf, Euf. closed_side.
Defined.

Lemma vault_wrap_keeps_market_usd :
  exists v,
    getDepositAmounts (C := scenarioMarket 0) scenarioVaultWrap = Ok v /\
    marketTokenAmount v = Some (50 * 10 ^ 18) /\
    marketTokenUsd v = Some (100 * USD) /\
    convertToUsd (marketTokenAmount v) (decimals (P.marketToken scenarioVaultWrap))
      (minPrice (prices (P.marketToken scenarioVaultWrap))) = Some (50 * USD) /\
    marketTokenUsd v <>
      convertToUsd (marketTokenAmount v) (decimals (P.marketToken scenarioVaultWrap))
        (minPrice (prices (P.marketToken scenarioVaultWrap))).
Proof.
  eexists. conjs; try (vm_compute; reflexivity).
  vm_compute. discriminate.
Qed.

Lemma marketTokenUsd_recomputable_witness :
  marketTokenUsd scenarioCollateralsResult =
    convertToUsd (marketTokenAmount scenarioCollateralsResult)
      (decimals (P.marketToken scenarioCollaterals))
      (minPrice (prices (P.marketToken scenarioCollaterals))).
Proof.
  assert (H : getDepositAmounts (C := scenarioMarket 0) scenarioCollaterals
              = Ok scenarioCollateralsResult) by closed_side.
  assert (Hnz : P.longTokenAmount scenarioCollaterals <> 0) by closed_side.
  destruct (proj1 (marketTokenUsd_recomputable (C := scenarioMarket 0)
                     scenarioCollaterals scenarioCollateralsResult H)
              eq_refl eq_refl (or_introl Hnz))
    as [minted [Hu [Ha _]]].
  rewrite (Ha eq_refl). exact Hu.
Defined.

Lemma scenarioMarket_values_nonneg (impact : Z) (marketInfo : MarketInfo) (a : Z) :
  0 <= a ->
  0 <= marketTokenAmountToUsd (Collaborators := scenarioMarket impact)
         marketInfo (tokenAt 18 1) a.
Proof.
  intros Ha. cbn [marketTokenAmountToUsd scenarioMarket].
  apply orZero_convertToUsd_nonneg.
  - intros z Hz. injection Hz as <-. exact Ha.
  - closed_side.
Qed.

Lemma scenarioCollaterals_valid : validInput scenarioCollaterals.
Proof.
  constructor; try closed_side; try (split; closed_side).
  intros vault Hv. discriminate Hv.
Qed.

Lemma scenarioOneLong_valid : validInput scenarioOneLong.
Proof.
  constructor; try closed_side; try (split; closed_side).
  intros vault Hv. discriminate Hv.
Qed.

Lemma negative_mint :
  validInput scenarioOneLong /\
  getDepositAmounts (C := scenarioMarket (- (2 * USD))) scenarioOneLong
    = Ok scenarioOneLongResult /\
  marketTokenAmount scenarioOneLongResult = Some (- 10 ^ 18) /\
  marketTokenUsd scenarioOneLongResult = Some (- USD) /\
  - 10 ^ 18 < 0 /\ - USD < 0.
Proof.
  conjs; try closed_side. exact scenarioOneLong_valid.
Qed.

Lemma scenarioMarket_mints_nonneg (impact : Z) (marketInfo : MarketInfo) (usd : Z) :
  0 <= usd ->
  0 <= usdToMarketTokenAmount (Collaborators := scenarioMarket impact)
         marketInfo (tokenAt 18 1) usd.
Proof.
  intros Hu. cbn [usdToMarketTokenAmount scenarioMarket].
  assert (Hp : minPrice (prices (tokenAt 18 1)) <> 0) by closed_side.
  rewrite convertToTokenAmount_Some by exact Hp. cbn [Js.orZero].
  assert (Hq : 0 < minPrice (prices (tokenAt 18 1))) by closed_side.
  pose proof (expandDecimals_pos (decimals (tokenAt 18 1))).
  apply Z.quot_pos; nia.
Qed.

Lemma scenarioCollaterals_covered : legsCovered (C := scenarioMarket 0) scenarioCollaterals.
Proof.
  split; intros _; vm_compute; intros Hc; discriminate Hc.
Qed.

Lemma no_negative_outputs_witness :
  (sidesNonNegative scenarioOneLongResult /\
   marketTokenAmount scenarioOneLongResult
     = Some (legsMint (C := scenarioMarket (- (2 * USD))) scenarioOneLong)) /\
  (sidesNonNegative scenarioCollateralsResult /\
   marketTokenNonNegative scenarioCollateralsResult).
Proof.
  split.
  - assert (H : getDepositAmounts (C := scenarioMarket (- (2 * USD))) scenarioOneLong
                = Ok scenarioOneLongResult) by closed_side.
    assert (Hneg : legsMint (C := scenarioMarket (- (2 * USD))) scenarioOneLong < 0)
      by closed_side.
    destruct (no_negative_outputs (C := scenarioMarket (- (2 * USD))) scenarioOneLong
                scenarioOneLongResult scenarioOneLong_valid
                (scenarioMarket_values_nonneg _ _) H)
      as [Hsides [_ Hgeneral]].
    split; [exact Hsides|].
    destruct (Hgeneral eq_refl eq_refl) as [_ [_ [Hreturned _]]].
    exact (proj1 (Hreturned Hneg)).
  - assert (H : getDepositAmounts (C := scenarioMarket 0) scenarioCollaterals
                = Ok scenarioCollateralsResult) by closed_side.
    destruct (no_negative_outputs (C := scenarioMarket 0) scenarioCollaterals
                scenarioCollateralsResult scenarioCollaterals_valid
                (scenarioMarket_values_nonneg _ _) H)
      as [Hsides [_ Hgeneral]].
    split; [exact Hsides|].
    destruct (Hgeneral eq_refl eq_refl) as [_ [_ [_ Hcovered]]].
    exact (proj2 (Hcovered (scenarioMarket_mints_nonneg 0 _)
                    scenarioCollaterals_covered)).
Defined.

Lemma ui_fee_not_strictly_monotone :
  exists v1 v2,
    getDepositAmounts (C := scenarioMarket 0) (scenarioHalfDollar (10 ^ 27)) = Ok v1 /\
    getDepositAmounts (C := scenarioMarket 0) (scenarioHalfDollar (10 ^ 27 + 1)) = Ok v2 /\
    longTokenUsd v1 = Some (5 * 10 ^ 29) /\
    uiFeeUsd v1 = Some (5 * 10 ^ 26) /\
    uiFeeUsd v2 = Some (5 * 10 ^ 26).
Proof.
  eexists; eexists. conjs; vm_compute; reflexivity.
Qed.

(** With a vault the larger fee can leave the larger amount: the smaller
    mint no longer buys a whole vault unit, the wrap is skipped and the
    result is the market-token amount itself. *)
Lemma vault_wrap_dust_not_monotone :
  exists v1 v2,
    getDepositAmounts (C := scenarioMarket 0) (scenarioVaultDust 0) = Ok v1 /\
    getDepositAmounts (C := scenarioMarket 0)
      (scenarioVaultDust 333333333333333333333333333334) = Ok v2 /\
    marketTokenAmount v1 = Some 1 /\ marketTokenAmount v2 = Some 2 /\
    vaultWraps (C := scenarioMarket 0) (scenarioVaultDust 0) = true /\
    vaultWraps (C := scenarioMarket 0)
      (scenarioVaultDust 333333333333333333333333333334) = false.
Proof.
  eexists; eexists. conjs; vm_compute; reflexivity.
Qed.

Lemma scenarioMarket_mint_mono (impact : Z) (marketInfo : MarketInfo) (u u' : Z) :
  u <= u' ->
  usdToMarketTokenAmount (Collaborators := scenarioMarket impact)
    marketInfo (tokenAt 18 1) u
  <= usdToMarketTokenAmount (Collaborators := scenarioMarket impact)
       marketInfo (tokenAt 18 1) u'.
Proof.
  intros Hu. cbn [usdToMarketTokenAmount scenarioMarket].
  assert (Hp : minPrice (prices (tokenAt 18 1)) <> 0) by closed_side.
  rewrite !convertToTokenAmount_Some by exact Hp. cbn [Js.orZero].
  apply Z.quot_le_mono; [closed_side|].
  pose proof (expandDecimals_pos (decimals (tokenAt 18 1))). nia.
Qed.

Lemma scenarioHalfDollar_valid (uiFee : Z) :
  0 <= uiFee -> validInput (scenarioHalfDollar uiFee).
Proof.
  intros Hf. constructor; try exact Hf; try closed_side; try (split; closed_side).
  intros vault Hv. discriminate Hv.
Qed.

Lemma scenarioVaultWrap_valid : validInput scenarioVaultWrap.
Proof.
  constructor; try closed_side; try (split; closed_side).
  intros vault Hv. injection Hv as <-. split; closed_side.
Qed.

Lemma ui_fee_monotone_witness :
  (exists v1 v2,
     getDepositAmounts (C := scenarioMarket 0)
       (P.with_uiFeeFactor (scenarioHalfDollar 0) (10 ^ 27)) = Ok v1 /\
     getDepositAmounts (C := scenarioMarket 0)
       (P.with_uiFeeFactor (scenarioHalfDollar 0) (2 * 10 ^ 27)) = Ok v2 /\
     (exists u1 u2, uiFeeUsd v1 = Some u1 /\ uiFeeUsd v2 = Some u2 /\ u1 < u2) /\
     (exists m1 m2,
        marketTokenAmount v1 = Some m1 /\ marketTokenAmount v2 = Some m2 /\ m2 <= m1)) /\
  (exists v1 v2,
     getDepositAmounts (C := scenarioMarket 0)
       (P.with_uiFeeFactor scenarioVaultWrap (10 ^ 27)) = Ok v1 /\
     getDepositAmounts (C := scenarioMarket 0)
       (P.with_uiFeeFactor scenarioVaultWrap (2 * 10 ^ 27)) = Ok v2 /\
     (exists m1 m2,
        marketTokenAmount v1 = Some m1 /\ marketTokenAmount v2 = Some m2 /\ m2 <= m1)).
Proof.
  assert (Hf1 : 0 <= 10 ^ 27) by closed_side.
  assert (Hf12 : 10 ^ 27 <= 2 * 10 ^ 27) by closed_side.
  split.
  - destruct (getDepositAmounts (C := scenarioMarket 0)
                (P.with_uiFeeFactor (scenarioHalfDollar 0) (10 ^ 27)))
      as [v1|] eqn:H1; [|vm_compute in H1; discriminate H1].
    destruct (getDepositAmounts (C := scenarioMarket 0)
                (P.with_uiFeeFactor (scenarioHalfDollar 0) (2 * 10 ^ 27)))
      as [v2|] eqn:H2; [|vm_compute in H2; discriminate H2].
    exists v1, v2. split; [reflexivity|]. split; [reflexivity|].
    destruct (ui_fee_monotone (C := scenarioMarket 0) (scenarioHalfDollar 0)
                (10 ^ 27) (2 * 10 ^ 27) v1 v2
                (scenarioHalfDollar_valid 0 (Z.le_refl 0))
                (scenarioMarket_values_nonneg 0 _)
                (scenarioMarket_mint_mono 0 _) Hf1 Hf12 H1 H2)
      as [[u1 [u2 [Hu1 [Hu2 [_ Hstrict]]]]] [Hm _]].
    split; [|apply Hm; right; right; left; reflexivity].
    exists u1, u2. conjs; try assumption.
    apply (Hstrict (5 * 10 ^ 29)).
    + split; [reflexivity|]. left. closed_side.
    + closed_side.
  - destruct (getDepositAmounts (C := scenarioMarket 0)
                (P.with_uiFeeFactor scenarioVaultWrap (10 ^ 27)))
      as [v1|] eqn:H1; [|vm_compute in H1; discriminate H1].
    destruct (getDepositAmounts (C := scenarioMarket 0)
                (P.with_uiFeeFactor scenarioVaultWrap (2 * 10 ^ 27)))
      as [v2|] eqn:H2; [|vm_compute in H2; discriminate H2].
    exists v1, v2. split; [reflexivity|]. split; [reflexivity|].
    assert (Hw : vaultWraps (C := scenarioMarket 0)
                   (P.with_uiFeeFactor scenarioVaultWrap (2 * 10 ^ 27)) = true)
      by closed_side.
    destruct (ui_fee_monotone (C := scenarioMarket 0) scenarioVaultWrap
                (10 ^ 27) (2 * 10 ^ 27) v1 v2
                scenarioVaultWrap_valid
                (scenarioMarket_values_nonneg 0 _)
                (scenarioMarket_mint_mono 0 _) Hf1 Hf12 H1 H2)
      as [_ [Hm _]].
    apply Hm. right; right; right; left. exact Hw.
Defined.

Lemma scenarioShift_valid : validInput scenarioShift.
Proof.
  constructor; try closed_side; try (split; closed_side).
  intros vault Hv. discriminate Hv.
Qed.

Lemma scenarioShiftEmptyPool_valid : validInput scenarioShiftEmptyPool.
Proof.
  constructor; try closed_side; try (split; closed_side).
  intros vault Hv. discriminate Hv.
Qed.

Lemma valid_input_outcomes_witness :
  getDepositAmounts (C := scenarioMarket 0) scenarioShiftEmptyPool = Err RangeError /\
  exists v, getDepositAmounts (C := scenarioMarket 0) scenarioShift = Ok v.
Proof.
  split.
  - apply (proj1 (valid_input_outcomes (C := scenarioMarket 0) scenarioShiftEmptyPool
                    scenarioShiftEmptyPool_valid (scenarioMarket_values_nonneg 0 _))).
    conjs; try closed_side.
  - apply (proj2 (valid_input_outcomes (C := scenarioMarket 0) scenarioShift
                    scenarioShift_valid (scenarioMarket_values_nonneg 0 _))).
    intros [_ [_ [_ [_ Hpool]]]]. vm_compute in Hpool. discriminate Hpool.
Defined.

Lemma shift_pays_no_swap_fee_witness :
  exists v,
    getDepositAmounts (C := scenarioMarket 0) scenarioShift = Ok v /\
    swapFeeUsd v = Some 0 /\ uiFeeUsd v = Some (10 ^ 27).
Proof.
  destruct (getDepositAmounts (C := scenarioMarket 0) scenarioShift)
    as [v|] eqn:H; [|vm_compute in H; discriminate H].
  exists v. split; [reflexivity|]. split.
  - apply (shift_pays_no_swap_fee (C := scenarioMarket 0) scenarioShift v);
      [reflexivity | exact H].
  - vm_compute in H. injection H as <-. reflexivity.
Defined.

Lemma vault_shortcut_drops_short_leg_witness :
  getDepositAmounts (C := scenarioMarket 0) (withShortTokenAmount scenarioGmDeposit 5)
    = getDepositAmounts (C := scenarioMarket 0) (withShortTokenAmount scenarioGmDeposit 0) /\
  exists v,
    getDepositAmounts (C := scenarioMarket 0) (withShortTokenAmount scenarioGmDeposit 5)
      = Ok v /\
    shortTokenAmount v = Some 0 /\ shortTokenUsd v = Some 0.
Proof.
  assert (Hnz : P.longTokenAmount scenarioGmDeposit <> 0) by closed_side.
  exact (vault_shortcut_drops_short_leg (C := scenarioMarket 0) scenarioGmDeposit
           (mkGlvMarketInfo (tokenAt 18 3)) 5 0 eq_refl eq_refl Hnz).
Defined.

Lemma vault_shortcut_round_trip_witness :
  exists glv,
    marketTokenAmount scenarioGmDepositResult = Some glv /\
    0 <= glv <= P.marketTokenAmount scenarioGlvRequest.
Proof.
  assert (Hv : getDepositAmounts (C := scenarioMarket 0) scenarioGlvRequest
               = Ok scenarioGlvRequestResult) by closed_side.
  assert (Hw : getDepositAmounts (C := scenarioMarket 0) scenarioGmDeposit
               = Ok scenarioGmDepositResult) by closed_side.
  assert (Hgp : 0 < minPrice (prices (P.marketToken scenarioGlvRequest))) by closed_side.
  assert (Hmid : getMidPrice (prices (P.marketToken scenarioGlvRequest))
                 = minPrice (prices (P.marketToken scenarioGlvRequest))) by closed_side.
  assert (Hvp : 0 < minPrice (prices (indexToken (mkGlvMarketInfo (tokenAt 18 3)))))
    by closed_side.
  assert (Hamt : 0 < P.marketTokenAmount scenarioGlvRequest) by closed_side.
  assert (Hgm : longTokenAmount scenarioGlvRequestResult = Some (21 * 10 ^ 18))
    by reflexivity.
  assert (Hq : P.longTokenAmount scenarioGmDeposit = 21 * 10 ^ 18) by reflexivity.
  exact (vault_shortcut_round_trip (C := scenarioMarket 0)
           scenarioGlvRequest scenarioGmDeposit (mkGlvMarketInfo (tokenAt 18 3))
           scenarioGlvRequestResult scenarioGmDepositResult (21 * 10 ^ 18)
           eq_refl eq_refl eq_refl eq_refl eq_refl Hgp Hmid Hvp Hamt Hv Hgm Hq Hw).
Defined.

Lemma split_conserves_value_witness :
  exists v l s,
    splitStage (C := scenarioMarket 0) scenarioShift = Ok v /\
    longTokenUsd v = Some l /\ shortTokenUsd v = Some s /\
    l + s <= USD /\ USD - 1 <= l + s.
Proof.
  destruct (splitStage (C := scenarioMarket 0) scenarioShift)
    as [v|] eqn:H; [|vm_compute in H; discriminate H].
  assert (HM : marketTokenUsd (marketTokenValuation (C := scenarioMarket 0) scenarioShift)
               = Some USD) by closed_side.
  assert (HM0 : 0 <= USD) by closed_side.
  destruct (split_conserves_value (C := scenarioMarket 0) scenarioShift v USD
              scenarioShift_valid HM HM0 H)
    as [l [s [Hl [Hs [_ [_ [Hle [Hge _]]]]]]]].
  exists v, l, s. conjs; try assumption; try reflexivity.
  apply Hge. reflexivity.
Defined.

Lemma redistribution_passes_on_fees_and_impact_witness :
  exists v l' s',
    redistribute scenarioFeesDue = Ok v /\
    longTokenUsd v = Some l' /\ shortTokenUsd v = Some s' /\
    1015 * USD - 2 <= l' + s' <= 1015 * USD.
Proof.
  destruct (redistribute scenarioFeesDue)
    as [v|] eqn:H; [|vm_compute in H; discriminate H].
  assert (H1 : 0 <= 600 * USD) by closed_side.
  assert (H2 : 0 <= 400 * USD) by closed_side.
  assert (H3 : 0 <= 3 * USD) by closed_side.
  assert (H4 : 0 <= 2 * USD) by closed_side.
  destruct (redistribution_passes_on_fees_and_impact scenarioFeesDue v
              (600 * USD) (400 * USD) (3 * USD) (2 * USD) (- (10 * USD))
              eq_refl H1 eq_refl H2 eq_refl H3 eq_refl H4 eq_refl H)
    as [l' [s' [Hl [Hs [_ [_ [_ Hsum]]]]]]].
  exists v, l', s'.
  split; [reflexivity|]. split; [exact Hl|]. split; [exact Hs|].
  assert (Hpos : 0 < 600 * USD + 400 * USD) by closed_side.
  specialize (Hsum Hpos).
  assert (E : 600 * USD + 400 * USD + (3 * USD + 2 * USD) + Z.max 0 (- - (10 * USD))
              = 1015 * USD) by closed_side.
  rewrite E in Hsum. exact Hsum.
Defined.

Lemma long_only_request_pays_in_full_witness :
  exists v,
    getDepositAmounts (C := scenarioMarket (- (4 * USD))) scenarioLongOnly = Ok v /\
    longTokenUsd v = Some (1005 * USD + 7 * 10 ^ 29).
Proof.
  assert (V : validInput scenarioLongOnly).
  { constructor; try closed_side; try (split; closed_side).
    intros vault Hv. discriminate Hv. }
  assert (Hne : P.marketTokenAmount scenarioLongOnly <> 0) by closed_side.
  assert (HM : marketTokenUsd
                 (marketTokenValuation (C := scenarioMarket (- (4 * USD))) scenarioLongOnly)
               = Some (1000 * USD)) by closed_side.
  assert (HM0 : 0 < 1000 * USD) by closed_side.
  destruct (long_only_request_pays_in_full (C := scenarioMarket (- (4 * USD)))
              scenarioLongOnly (1000 * USD) V eq_refl Hne eq_refl eq_refl eq_refl
              eq_refl HM HM0)
    as [v [Hv [Hl _]]].
  exists v. split; [exact Hv|]. rewrite Hl. closed_side.
Defined.

(** * The one-click-trading subaccount *)

Section SubaccountProperties.

Import Subaccount.

(** Disjunctions of tests that all failed, as facts about their operands. *)
Ltac guards :=
  repeat match goal with
         | H : _ || _ = false |- _ => apply orb_false_elim in H; destruct H
         | H : negb _ = false |- _ => apply negb_false_iff in H
         | H : negb _ = true |- _ => apply negb_true_iff in H
         | H : (_ <? _) = false |- _ => apply Z.ltb_ge in H
         | H : (_ <? _) = true |- _ => apply Z.ltb_lt in H
         | H : (_ =? _) = true |- _ => apply Z.eqb_eq in H
         | H : (_ =? _) = false |- _ => apply Z.eqb_neq in H
         | H : String.eqb _ _ = false |- _ => apply String.eqb_neq in H
         | H : String.eqb _ _ = true |- _ => apply String.eqb_eq in H
         end.

Ltac hooks :=
  unfold useSubaccountCancelOrdersDetailsMessage, useSubaccount,
    useIsLastSubaccountAction, useSubaccountActionCounts,
    useMainAccountInsufficientFunds, useSubaccountInsufficientFunds,
    useSubaccountBaseExecutionFeeTokenAmount, useSubaccountPrivateKey,
    useIsSubaccountActive, useSubaccountAddress, value, clearSubaccount, truthy in *;
  cbn [activeTx baseExecutionFee contractData subaccount modalOpen notificationState
       config contractDataState baseExecutionFeeMemo modalOpenState
       notificationStateState activeTxState address privateKey
       isSubaccountActive maxAllowedActions currentActionsCount currentAutoTopUpAmount
       current max remaining handleAddress handleActive handleSigner
       signerKey signerChainId feeTokenAmount] in *.

(** X8. [useSubaccount] hands out a subaccount only when it can act: a
    stored config with a non-empty address, a connected wallet account,
    contract data that reports the subaccount active and leaves at least
    [max(1, requiredActions)] actions, and, where the native-token balance
    of the subaccount and the required balance (the argument, else the base
    execution fee) are both known, a balance that covers it.  The signer is
    built from the stored key decrypted with the wallet account. *)
Theorem subaccount_handed_out_only_when_usable
    (e : Env) (st : ProviderState) (requiredBalance : option Z)
    (requiredActions : Z) (h : Handle) :
  useSubaccount e (value st) requiredBalance requiredActions = Returned (Some h) ->
  exists cfg cd acc,
    config st = Some cfg /\ contractDataState st = Some cd /\
    account e = Some acc /\ acc <> EmptyString /\
    address cfg <> EmptyString /\ isSubaccountActive cd = true /\
    handleAddress h = address cfg /\ handleActive h = true /\
    signerKey (handleSigner h) = decrypt e (privateKey cfg) acc /\
    Z.max 1 requiredActions <= maxAllowedActions cd - currentActionsCount cd /\
    (forall required balance,
       match requiredBalance with
       | Some r => Some r
       | None => option_map feeTokenAmount (baseExecutionFeeMemo st)
       end = Some required ->
       balancesData e (Some (address cfg)) (nativeToken e) = Some balance ->
       required <= balance).
Proof.
  intros H. destruct st as [[[addr pk]|] [[active mx cur top]|] fee mo ns tx];
    hooks; try discriminate H.
  - destruct (account e) as [acc|] eqn:Hacc.
    + exists (mkKeys addr pk), (mkContractData active mx cur top), acc.
      cbn [address privateKey isSubaccountActive maxAllowedActions currentActionsCount].
      match type of H with
      | (if ?b then _ else _) = _ => destruct b eqn:G; [discriminate H|]
      end.
      guards.
      match type of H with
      | context [if ?b then None else _] => destruct b eqn:G2; [discriminate H|]
      end.
      guards.
      destruct (validPrivateKey e (decrypt e pk acc)); [|discriminate H].
      injection H as <-. cbn [handleAddress handleActive handleSigner signerKey].
      repeat (split; [first [reflexivity | assumption | lia]|]).
      intros required balance Hreq Hbal.
      assert (Hreq' : match requiredBalance with
                      | Some r => Some r
                      | None => match fee with
                                | Some f => Some (feeTokenAmount f)
                                | None => None
                                end
                      end = Some required)
        by (destruct requiredBalance; [exact Hreq | destruct fee; exact Hreq]).
      rewrite Hreq', Hbal in *. subst active. cbn [negb] in *. guards. lia.
    + cbn in H. rewrite !orb_true_r in H. discriminate H.
  - rewrite !orb_true_r in H. cbn in H. discriminate H.
Qed.

(** X9. Clearing the subaccount hides everything at once: with the stored
    config gone, whatever contract data, fee and balances are still held,
    no address and no action counts are published, the subaccount reads as
    inactive, [useSubaccount] returns null and no details message shows. *)
Theorem cleared_subaccount_is_gone
    (e : Env) (st : ProviderState) (requiredBalance : option Z) (requiredActions : Z) :
  let s := value (clearSubaccount st) in
  useSubaccountAddress s = None /\
  useIsSubaccountActive s = false /\
  useSubaccountActionCounts s = mkActionCounts None None None /\
  useSubaccount e s requiredBalance requiredActions = Returned None /\
  useSubaccountCancelOrdersDetailsMessage e s requiredBalance requiredActions = None.
Proof.
  destruct st as [cfg cds fee mo ns tx]. hooks.
  repeat split; try reflexivity.
  destruct requiredBalance, fee; reflexivity.
Qed.

(** A subaccount with no action left is never handed out, whatever number
    of actions is asked for. *)
Lemma exhausted_subaccount_is_withheld
    (e : Env) (s : SubaccountContext) (r : Z) (requiredBalance : option Z)
    (requiredActions : Z) :
  remaining (useSubaccountActionCounts s) = Some r -> r <= 0 ->
  useSubaccount e s requiredBalance requiredActions = Returned None.
Proof.
  intros Hr Hr0. unfold useSubaccount. rewrite Hr.
  replace (r <? Z.max 1 requiredActions) with true by (symmetry; apply Z.ltb_lt; lia).
  rewrite !orb_true_r. reflexivity.
Qed.

(** X10. The last action is the last: when [useIsLastSubaccountAction]
    holds for [requiredActions], exactly [max(1, requiredActions)] actions
    remain, the count does not withhold the subaccount yet, and once the
    contract has counted that many more actions under the same allowance
    the subaccount is withheld for every request and no action is the last
    one any more. *)
Theorem last_action_exhausts_the_subaccount
    (e : Env) (s s' : SubaccountContext) (cd cd' : ContractData) (requiredActions : Z) :
  contractData s = Some cd -> contractData s' = Some cd' ->
  maxAllowedActions cd' = maxAllowedActions cd ->
  currentActionsCount cd' = currentActionsCount cd + Z.max 1 requiredActions ->
  useIsLastSubaccountAction s requiredActions = true ->
  remaining (useSubaccountActionCounts s) = Some (Z.max 1 requiredActions) /\
  (forall requiredBalance requiredActions',
     useSubaccount e s' requiredBalance requiredActions' = Returned None) /\
  (forall requiredActions', useIsLastSubaccountAction s' requiredActions' = false).
Proof.
  intros Hcd Hcd' Hmax Hcur Hlast.
  assert (Hr : remaining (useSubaccountActionCounts s)
               = Some (maxAllowedActions cd - currentActionsCount cd))
    by (unfold useSubaccountActionCounts; rewrite Hcd; reflexivity).
  assert (Hr' : remaining (useSubaccountActionCounts s')
                = Some (maxAllowedActions cd' - currentActionsCount cd'))
    by (unfold useSubaccountActionCounts; rewrite Hcd'; reflexivity).
  unfold useIsLastSubaccountAction in Hlast. rewrite Hr in Hlast. guards.
  split; [rewrite Hr; f_equal; lia|]. split.
  - intros rb n'. apply (exhausted_subaccount_is_withheld e s' _ rb n' Hr'). lia.
  - intros n'. unfold useIsLastSubaccountAction. rewrite Hr'.
    apply Z.eqb_neq. lia.
Qed.

(** X11. Every details message is justified: the action-count message
    shows exactly when the action is the last one; a funds message shows
    only for an active subaccount that is not at its last action, with a
    known required balance (the argument, else the base execution fee) above
    a known balance: the subaccount's native-token balance for the
    subaccount message, the main account's wrapped-token balance for the
    main-account message, which shows only when the subaccount's own
    balance raises no message. *)
Theorem details_message_is_justified
    (e : Env) (s : SubaccountContext) (overridedRequiredBalance : option Z)
    (actionCount : Z) (m : DetailsMessage) :
  useSubaccountCancelOrdersDetailsMessage e s overridedRequiredBalance actionCount
    = Some m ->
  let requiredBalance :=
    match overridedRequiredBalance with
    | Some r => Some r
    | None => useSubaccountBaseExecutionFeeTokenAmount s
    end in
  match m with
  | MaxActionCountReached => useIsLastSubaccountAction s actionCount = true
  | SubaccountInsufficientFunds =>
      useIsLastSubaccountAction s actionCount = false /\
      useIsSubaccountActive s = true /\
      exists required balance,
        requiredBalance = Some required /\
        balancesData e (useSubaccountAddress s) (nativeToken e) = Some balance /\
        balance < required
  | MainAccountInsufficientFunds =>
      useIsLastSubaccountAction s actionCount = false /\
      useIsSubaccountActive s = true /\
      useSubaccountInsufficientFunds e s requiredBalance = false /\
      exists required balance,
        requiredBalance = Some required /\
        balancesData e (account e) (wrappedToken e) = Some balance /\
        balance < required
  end.
Proof.
  intros H requiredBalance. unfold useSubaccountCancelOrdersDetailsMessage in H.
  fold requiredBalance in H.
  destruct (useIsLastSubaccountAction s actionCount) eqn:Hlast;
    [injection H as <-; reflexivity|].
  destruct (useSubaccountInsufficientFunds e s requiredBalance) eqn:Hsub.
  - injection H as <-. split; [reflexivity|].
    unfold useSubaccountInsufficientFunds in Hsub.
    destruct requiredBalance as [required|]; [|discriminate Hsub].
    destruct (useIsSubaccountActive s); [|discriminate Hsub].
    split; [reflexivity|]. cbn [negb] in Hsub.
    destruct (balancesData e (useSubaccountAddress s) (nativeToken e)) as [balance|];
      [|discriminate Hsub].
    exists required, balance. guards. repeat split; assumption.
  - destruct (useMainAccountInsufficientFunds e s requiredBalance) eqn:Hmain;
      [|discriminate H].
    injection H as <-. split; [reflexivity|].
    unfold useMainAccountInsufficientFunds in Hmain.
    destruct requiredBalance as [required|]; [|discriminate Hmain].
    destruct (useIsSubaccountActive s); [|discriminate Hmain].
    split; [reflexivity|]. split; [reflexivity|]. cbn [negb] in Hmain.
    destruct (balancesData e (account e) (wrappedToken e)) as [balance|];
      [|discriminate Hmain].
    exists required, balance. guards. repeat split; assumption.
Qed.


End SubaccountProperties.

(** * Submitting a trade *)

Section ConfirmationBoxProperties.

(** Backwards through the guards of an [onSubmit] that made the call. *)
Ltac submitted H :=
  unfold onSubmit in H;
  repeat match type of H with
         | None = Some _ => discriminate H
         | context [match ?x with _ => _ end] =>
             lazymatch x with
             | context [match _ with _ => _ end] => fail
             | _ => let E := fresh "E" in destruct x eqn:E
             end
         end;
  try discriminate H.

Ltac nonempty :=
  repeat match goal with
         | H : _ || _ = false |- _ => apply orb_false_elim in H; destruct H
         | H : negb _ = false |- _ => apply negb_false_iff in H
         | H : negb _ = true |- _ => apply negb_true_iff in H
         | H : truthy (Some _) = true |- _ => unfold truthy in H
         | H : String.eqb _ _ = false |- _ => apply String.eqb_neq in H
         end.

Lemma quot_10_bounds (price : Z) :
  0 <= price -> 10 * Z.quot price 10 <= price < 10 * Z.quot price 10 + 10.
Proof.
  intros H. pose proof (Z.quot_rem' price 10) as E.
  pose proof (Z.rem_bound_pos price 10 H ltac:(lia)). lia.
Qed.

(** X12. The acceptable price of a position order: the order carries the
    props' trigger price, and its acceptable price is derived from the
    trigger price when there is one, else from the props' acceptable price;
    for a non-negative such price, a long order accepts between the price
    and 110% of it (rounded down to within a unit), a short order accepts
    the truncated tenth of it. *)
Theorem position_order_acceptable_price
    (account referralCode : option string) (p : Props.t) (o : IncreaseOrder.t)
    (price : Z) :
  onSubmit account referralCode p = Some (IncreaseOrderParams o) ->
  match Props.triggerPrice p with
  | Some triggerPrice => Some triggerPrice
  | None => Props.acceptablePrice p
  end = Some price ->
  0 <= price ->
  IncreaseOrder.triggerPrice o = Props.triggerPrice p /\
  (Props.operationType p = Long /\ IncreaseOrder.isLong o = true /\
   price <= IncreaseOrder.acceptablePrice o /\
   11 * price - 9 <= 10 * IncreaseOrder.acceptablePrice o <= 11 * price
   \/
   Props.operationType p = Short /\ IncreaseOrder.isLong o = false /\
   10 * IncreaseOrder.acceptablePrice o <= price
     < 10 * IncreaseOrder.acceptablePrice o + 10).
Proof.
  intros H Hprice H0. pose proof (quot_10_bounds price H0) as Hq.
  submitted H; injection H as <-;
    cbn [IncreaseOrder.triggerPrice IncreaseOrder.isLong IncreaseOrder.acceptablePrice];
    (split; [reflexivity|]);
    destruct (Props.operationType p); try discriminate;
    destruct (Props.triggerPrice p); injection Hprice as ->;
    cbn [isLongTrade applySlippage];
    first [ left; repeat split; try reflexivity; lia
          | right; repeat split; try reflexivity; lia ].
Qed.

(** X13. The minimum output of a swap order: an order for a swap asks for
    the quoted output less its truncated ninetieth, so, for a non-negative
    quote, never more than the quote and never less than 89/90 of it; with
    no quote it asks for nothing.  Its type is [LimitSwap] in limit mode and
    [MarketSwap] in every other mode. *)
Theorem swap_order_min_output
    (account referralCode : option string) (p : Props.t) (o : SwapOrder.t) :
  onSubmit account referralCode p = Some (SwapOrderParams o) ->
  Props.operationType p = Swap /\
  (SwapOrder.orderType o = LimitSwap <-> Props.mode p = Limit) /\
  (SwapOrder.orderType o = MarketSwap <-> Props.mode p <> Limit) /\
  match Props.toTokenAmount p with
  | None => SwapOrder.minOutputAmount o = 0
  | Some amount =>
      0 <= amount ->
      SwapOrder.minOutputAmount o <= amount /\
      89 * amount <= 90 * SwapOrder.minOutputAmount o
  end.
Proof.
  intros H. submitted H; injection H as <-;
    cbn [SwapOrder.orderType SwapOrder.minOutputAmount];
    destruct (Props.operationType p); try discriminate;
    (split; [reflexivity|]).
  all: split; [destruct (Props.mode p); cbn [isLimitMode];
               split; intros; first [reflexivity | discriminate]|].
  all: split; [destruct (Props.mode p); cbn [isLimitMode];
               split; intros; first [reflexivity | discriminate | congruence]|].
  all: unfold minOutputAmount; destruct (Props.toTokenAmount p) as [amount|];
    [|reflexivity].
  all: intros Ha; pose proof (Z.quot_rem' amount 90);
    pose proof (Z.rem_bound_pos amount 90 Ha ltac:(lia)); lia.
Qed.

(** X14. No order without its backing: whenever [onSubmit] makes the call,
    the wallet account, both token addresses, the execution fee, the swap
    route and the pay amount are present (addresses non-empty) and are the
    ones the order carries; a position order is made only for a long or a
    short in market or limit mode, with a market, a size and an acceptable
    price at hand, and is a [LimitIncrease] exactly in limit mode; any other
    order is a swap order for a swap. *)
Theorem submitted_order_is_backed
    (account referralCode : option string) (p : Props.t) (params : OrderParams) :
  onSubmit account referralCode p = Some params ->
  exists acc from to fee route amount,
    account = Some acc /\ acc <> EmptyString /\
    Props.fromTokenAddress p = Some from /\ from <> EmptyString /\
    Props.toTokenAddress p = Some to /\ to <> EmptyString /\
    Props.executionFee p = Some fee /\ Props.swapRoute p = Some route /\
    Props.fromTokenAmount p = Some amount /\
    match params with
    | IncreaseOrderParams o =>
        (Props.operationType p = Long \/ Props.operationType p = Short) /\
        (Props.mode p = Market /\ IncreaseOrder.orderType o = MarketIncrease \/
         Props.mode p = Limit /\ IncreaseOrder.orderType o = LimitIncrease) /\
        IncreaseOrder.account o = acc /\
        IncreaseOrder.initialCollateralAddress o = from /\
        IncreaseOrder.initialCollateralAmount o = amount /\
        IncreaseOrder.indexTokenAddress o = to /\
        IncreaseOrder.executionFee o = feeTokenAmount fee /\
        IncreaseOrder.swapPath o = SwapRoute.swapPath route /\
        IncreaseOrder.referralCode o = referralCode /\
        Props.acceptablePrice p <> None /\
        exists market,
          SwapRoute.market route = Some market /\ market <> EmptyString /\
          IncreaseOrder.marketAddress o = market /\
          Props.sizeDeltaUsd p = Some (IncreaseOrder.sizeDeltaUsd o)
    | SwapOrderParams o =>
        Props.operationType p = Swap /\
        SwapOrder.account o = acc /\
        SwapOrder.initialCollateralAddress o = from /\
        SwapOrder.initialCollateralAmount o = amount /\
        SwapOrder.receiveTokenAddress o = to /\
        SwapOrder.executionFee o = feeTokenAmount fee /\
        SwapOrder.swapPath o = SwapRoute.swapPath route /\
        SwapOrder.referralCode o = referralCode
    end.
Proof.
  intros H. submitted H; injection H as <-; nonempty;
    do 6 eexists; (repeat (split; [first [reflexivity | eassumption]|])).
  all: cbn [IncreaseOrder.account IncreaseOrder.marketAddress
            IncreaseOrder.initialCollateralAddress IncreaseOrder.initialCollateralAmount
            IncreaseOrder.swapPath IncreaseOrder.indexTokenAddress
            IncreaseOrder.sizeDeltaUsd IncreaseOrder.executionFee
            IncreaseOrder.orderType IncreaseOrder.referralCode
            SwapOrder.account SwapOrder.initialCollateralAddress
            SwapOrder.initialCollateralAmount SwapOrder.swapPath
            SwapOrder.receiveTokenAddress SwapOrder.executionFee
            SwapOrder.referralCode].
  all: destruct (Props.operationType p); try discriminate.
  all: try (destruct (Props.mode p); try discriminate; cbn [isLimitMode]).
  all: repeat split; try reflexivity; try discriminate;
    try (left; reflexivity); try (right; reflexivity);
    try (left; split; reflexivity); try (right; split; reflexivity).
  all: eexists; repeat split; try reflexivity; eassumption.
Qed.

End ConfirmationBoxProperties.

(** * Selecting orders *)

Section OrderListProperties.

Import OrderList.

Lemma select_all_fold (orders : list OrderInfo) (acc : SelectedOrdersKeys) (k : string) :
  fold_left (fun acc order => assign acc (key order) true) orders acc k
  = if existsb (fun o => String.eqb k (key o)) orders then Some true else acc k.
Proof.
  revert acc. induction orders as [|o orders IH]; intros acc; [reflexivity|].
  cbn [fold_left existsb]. rewrite IH. unfold assign.
  destruct (existsb (fun o => String.eqb k (key o)) orders);
    [rewrite orb_true_r; reflexivity|].
  rewrite orb_false_r. destruct (String.eqb k (key o)); reflexivity.
Qed.

Lemma listed_key (orders : list OrderInfo) (k : string) :
  existsb (fun o => String.eqb k (key o)) orders = true <-> In k (map key orders).
Proof.
  rewrite existsb_exists, in_map_iff. split.
  - intros [o [Hin Hk]]. apply String.eqb_eq in Hk. exists o. split; [symmetry|]; assumption.
  - intros [o [Hk Hin]]. exists o. split; [assumption|]. apply String.eqb_eq. symmetry. exact Hk.
Qed.

(** X15. The select-all checkbox is a toggle over the listed orders: when
    not every listed order is selected, [onSelectAllOrders] selects exactly
    the listed keys (a key selected before but not listed is dropped), after
    which, for a non-empty list, [isAllOrdersSelected] holds and one more
    press leaves nothing selected; when every listed order is selected it
    leaves nothing selected. *)
Theorem select_all_is_a_toggle
    (orders : list OrderInfo) (selectedOrdersKeys : option SelectedOrdersKeys) :
  let selected := onSelectAllOrders orders selectedOrdersKeys in
  (isAllOrdersSelected orders selectedOrdersKeys = true ->
   forall k, selected k = None) /\
  (isAllOrdersSelected orders selectedOrdersKeys = false ->
   (forall k, In k (map key orders) -> selected k = Some true) /\
   (forall k, ~ In k (map key orders) -> selected k = None) /\
   (orders <> nil ->
    isAllOrdersSelected orders (Some selected) = true /\
    forall k, onSelectAllOrders orders (Some selected) k = None)).
Proof.
  intros selected. unfold selected, onSelectAllOrders. split; intros Hall; rewrite Hall.
  - reflexivity.
  - assert (Hin : forall k, In k (map key orders) ->
                    fold_left (fun acc order => assign acc (key order) true)
                      orders empty k = Some true).
    { intros k Hk. rewrite select_all_fold. apply listed_key in Hk.
      rewrite Hk. reflexivity. }
    split; [exact Hin|]. split.
    + intros k Hk. rewrite select_all_fold.
      destruct (existsb (fun o => String.eqb k (key o)) orders) eqn:E; [|reflexivity].
      apply listed_key in E. contradiction.
    + intros Hne.
      assert (Hall' : isAllOrdersSelected orders
                        (Some (fold_left (fun acc order => assign acc (key order) true)
                                 orders empty)) = true).
      { unfold isAllOrdersSelected. apply andb_true_intro. split.
        - destruct orders; [contradiction|]. apply Z.ltb_lt. cbn [List.length]. lia.
        - apply forallb_forall. intros o Ho. unfold isSelected.
          rewrite Hin; [reflexivity|]. apply in_map. exact Ho. }
      split; [exact Hall'|]. intros k. rewrite Hall'. reflexivity.
Qed.

(** X16. Ticking one order: [onSelectOrder] flips that order and leaves
    every other key as it reads; ticking twice restores what every key
    reads; and after a select-all over a non-empty list, unticking a listed
    order ends [isAllOrdersSelected] while ticking it again restores it. *)
Theorem select_order_flips_one_key
    (orders : list OrderInfo) (selectedOrdersKeys : SelectedOrdersKeys)
    (o : OrderInfo) :
  In o orders ->
  (forall k, isSelected (onSelectOrder (key o) selectedOrdersKeys) k
             = if String.eqb k (key o) then negb (isSelected selectedOrdersKeys k)
               else isSelected selectedOrdersKeys k) /\
  (forall k, isSelected (onSelectOrder (key o) (onSelectOrder (key o) selectedOrdersKeys)) k
             = isSelected selectedOrdersKeys k) /\
  (isAllOrdersSelected orders (Some selectedOrdersKeys) = true ->
   isAllOrdersSelected orders (Some (onSelectOrder (key o) selectedOrdersKeys)) = false /\
   isAllOrdersSelected orders
     (Some (onSelectOrder (key o) (onSelectOrder (key o) selectedOrdersKeys))) = true).
Proof.
  intros Ho.
  assert (H1 : forall sel k, isSelected (onSelectOrder (key o) sel) k
                 = if String.eqb k (key o) then negb (isSelected sel k)
                   else isSelected sel k).
  { intros sel k. unfold onSelectOrder, isSelected, assign.
    destruct (String.eqb k (key o)) eqn:E; [|reflexivity].
    apply String.eqb_eq in E. subst k. reflexivity. }
  assert (H2 : forall k, isSelected (onSelectOrder (key o)
                                       (onSelectOrder (key o) selectedOrdersKeys)) k
                 = isSelected selectedOrdersKeys k).
  { intros k. rewrite !H1. destruct (String.eqb k (key o)); [|reflexivity].
    apply negb_involutive. }
  split; [apply H1|]. split; [exact H2|].
  intros Hall. unfold isAllOrdersSelected in *.
  apply andb_prop in Hall. destruct Hall as [Hlen Hevery]. rewrite Hlen. cbn [andb].
  split.
  - apply not_true_is_false. intros Hc.
    rewrite forallb_forall in Hc, Hevery.
    specialize (Hc o Ho). specialize (Hevery o Ho).
    rewrite H1, String.eqb_refl, Hevery in Hc. discriminate Hc.
  - rewrite forallb_forall in *. intros x Hx. rewrite H2. apply Hevery. exact Hx.
Qed.

End OrderListProperties.

Lemma subaccount_handed_out_only_when_usable_witness :
  exists h,
    Subaccount.useSubaccount scenarioEnv (Subaccount.value (scenarioProvider 3 (10 ^ 16)))
      None 2 = Subaccount.Returned (Some h) /\
    Subaccount.handleAddress h = "0xSub"%string /\
    Z.max 1 2 <= 10 - 3.
Proof.
  destruct (Subaccount.useSubaccount scenarioEnv
              (Subaccount.value (scenarioProvider 3 (10 ^ 16))) None 2)
    as [[h|]|] eqn:H; [|vm_compute in H; discriminate H|vm_compute in H; discriminate H].
  exists h. split; [reflexivity|].
  destruct (subaccount_handed_out_only_when_usable scenarioEnv
              (scenarioProvider 3 (10 ^ 16)) None 2 h H)
    as [cfg [cd [acc [Hcfg [Hcd [_ [_ [_ [_ [Ha [_ [_ [Hn _]]]]]]]]]]]]].
  injection Hcfg as <-. injection Hcd as <-. split; [exact Ha | exact Hn].
Defined.

Lemma last_action_exhausts_the_subaccount_witness :
  Subaccount.remaining
    (Subaccount.useSubaccountActionCounts (Subaccount.value (scenarioProvider 8 (10 ^ 16))))
    = Some (Z.max 1 2) /\
  Subaccount.useSubaccount scenarioEnv (Subaccount.value (scenarioProvider 10 (10 ^ 16)))
    None 0 = Subaccount.Returned None.
Proof.
  assert (Hlast : Subaccount.useIsLastSubaccountAction
                    (Subaccount.value (scenarioProvider 8 (10 ^ 16))) 2 = true)
    by closed_side.
  destruct (last_action_exhausts_the_subaccount scenarioEnv
              (Subaccount.value (scenarioProvider 8 (10 ^ 16)))
              (Subaccount.value (scenarioProvider 10 (10 ^ 16)))
              (Subaccount.mkContractData true 10 8 0)
              (Subaccount.mkContractData true 10 10 0) 2
              eq_refl eq_refl eq_refl eq_refl Hlast)
    as [Hr [Hnone _]].
  split; [exact Hr | exact (Hnone None 0)].
Defined.

Lemma details_message_is_justified_witness :
  Subaccount.useSubaccountCancelOrdersDetailsMessage scenarioEnv
    (Subaccount.value (scenarioProvider 3 (6 * 10 ^ 16))) None 1
    = Some Subaccount.SubaccountInsufficientFunds /\
  exists required balance : Z, balance < required.
Proof.
  assert (H : Subaccount.useSubaccountCancelOrdersDetailsMessage scenarioEnv
                (Subaccount.value (scenarioProvider 3 (6 * 10 ^ 16))) None 1
              = Some Subaccount.SubaccountInsufficientFunds) by closed_side.
  split; [exact H|].
  destruct (details_message_is_justified scenarioEnv
              (Subaccount.value (scenarioProvider 3 (6 * 10 ^ 16))) None 1
              Subaccount.SubaccountInsufficientFunds H)
    as [_ [_ [required [balance [_ [_ Hlt]]]]]].
  exists required, balance. exact Hlt.
Defined.

Lemma position_order_acceptable_price_witness :
  exists o,
    onSubmit (Some "0xMain"%string) None (scenarioTrade Long Limit (Some 1995))
      = Some (IncreaseOrderParams o) /\
    1995 <= IncreaseOrder.acceptablePrice o /\
    10 * IncreaseOrder.acceptablePrice o <= 11 * 1995.
Proof.
  destruct (onSubmit (Some "0xMain"%string) None (scenarioTrade Long Limit (Some 1995)))
    as [[o|o]|] eqn:H; try (vm_compute in H; discriminate H).
  exists o. split; [reflexivity|].
  destruct (position_order_acceptable_price _ _ _ o 1995 H eq_refl ltac:(lia))
    as [_ [[_ [_ [Hlo [_ Hhi]]]] | [Hshort _]]]; [|discriminate Hshort].
  split; [exact Hlo | exact Hhi].
Defined.

Lemma swap_order_min_output_witness :
  exists o,
    onSubmit (Some "0xMain"%string) None (scenarioTrade Swap Market None)
      = Some (SwapOrderParams o) /\
    SwapOrder.minOutputAmount o <= 900 /\ 89 * 900 <= 90 * SwapOrder.minOutputAmount o.
Proof.
  destruct (onSubmit (Some "0xMain"%string) None (scenarioTrade Swap Market None))
    as [[o|o]|] eqn:H; try (vm_compute in H; discriminate H).
  exists o. split; [reflexivity|].
  destruct (swap_order_min_output _ _ _ o H) as [_ [_ [_ Hmin]]].
  apply Hmin. lia.
Defined.

Lemma submitted_order_is_backed_witness :
  exists params acc,
    onSubmit (Some "0xMain"%string) None (scenarioTrade Short Market None) = Some params /\
    Some "0xMain"%string = Some acc /\ acc <> EmptyString.
Proof.
  destruct (onSubmit (Some "0xMain"%string) None (scenarioTrade Short Market None))
    as [params|] eqn:H; [|vm_compute in H; discriminate H].
  destruct (submitted_order_is_backed _ _ _ params H)
    as [acc [from [to [fee [route [amount [Hacc [Hne _]]]]]]]].
  exists params, acc. split; [reflexivity|]. split; assumption.
Defined.

Lemma select_order_flips_one_key_witness :
  OrderList.isAllOrdersSelected
    (OrderList.mkOrderInfo "a"%string :: OrderList.mkOrderInfo "b"%string :: nil)
    (Some (OrderList.onSelectOrder "b"%string
             (OrderList.onSelectAllOrders
                (OrderList.mkOrderInfo "a"%string :: OrderList.mkOrderInfo "b"%string :: nil)
                None))) = false.
Proof.
  assert (Hall : OrderList.isAllOrdersSelected
                   (OrderList.mkOrderInfo "a"%string :: OrderList.mkOrderInfo "b"%string :: nil)
                   (Some (OrderList.onSelectAllOrders
                            (OrderList.mkOrderInfo "a"%string
                               :: OrderList.mkOrderInfo "b"%string :: nil) None)) = true)
    by (vm_compute; reflexivity).
  destruct (select_order_flips_one_key
              (OrderList.mkOrderInfo "a"%string :: OrderList.mkOrderInfo "b"%string :: nil)
              (OrderList.onSelectAllOrders
                 (OrderList.mkOrderInfo "a"%string :: OrderList.mkOrderInfo "b"%string :: nil)
                 None)
              (OrderList.mkOrderInfo "b"%string)
              (or_intror (or_introl eq_refl)))
    as [_ [_ Hflip]].
  exact (proj1 (Hflip Hall)).
Defined.
